(** * Command dispatch core of the server (src/server/main_service.cc)

    A shallow embedding of the dispatcher, the MULTI/EXEC handlers, the
    script path (Eval, EvalSha, EvalInternal, CallFromScript), the
    Memcached adapter and the InterpreterReplier, followed by the
    properties of the specification that concern them.

    Conventions.
    - Strings are [string]; an argv ([CmdArgList]) is a [list string].
    - [unsigned] values are [Z] with the wrap-around modulo 2^32 written
      out ([u32]); [size_t] arithmetic wraps modulo 2^64 ([u64]).
    - Hash maps ([CommandRegistry], the script cache, the interpreter's
      function table) are [gmap string _]; the script's key set is a
      [gset string].
    - Code that mutates the connection context runs in the monad [Cmd]:
      state passing over [World], a log of the calls made on collaborators
      ([Event]) and the ways a run can stop without returning ([Failure]).
    - Logging (VLOG/LOG(INFO)), the varz/metrics counters and the clock reads
      around the handler call have no effect on any value modelled here and
      are left out. *)

From Stdlib Require Import ZArith String Ascii DecimalString Floats.
From stdpp Require Import gmap strings list.

Open Scope Z_scope.

(** ** Machine integers *)

Definition u32 (z : Z) : Z := z mod 2 ^ 32.
Definition u64 (z : Z) : Z := z mod 2 ^ 64.

(** ** ASCII helpers (absl/strings/ascii.h) *)

Definition between (lo hi : N) (c : ascii) : bool :=
  let n := N_of_ascii c in ((lo <=? n) && (n <=? hi))%N.

Definition ascii_toupper (c : ascii) : ascii :=
  if between 97 122 c then ascii_of_N (N_of_ascii c - 32) else c.

Definition ascii_tolower (c : ascii) : ascii :=
  if between 65 90 c then ascii_of_N (N_of_ascii c + 32) else c.

Definition ascii_isxdigit (c : ascii) : bool :=
  between 48 57 c || between 97 102 c || between 65 70 c.

Definition ascii_isspace (c : ascii) : bool :=
  (N_of_ascii c =? 32)%N || between 9 13 c.

Fixpoint string_map (f : ascii -> ascii) (s : string) : string :=
  match s with
  | EmptyString => EmptyString
  | String c s' => String (f c) (string_map f s')
  end.

Fixpoint string_forall (p : ascii -> bool) (s : string) : bool :=
  match s with
  | EmptyString => true
  | String c s' => p c && string_forall p s'
  end.

Definition str_len (s : string) : Z := Z.of_nat (String.length s).

(** [ToUpper(&args[0])] / [ToLower(&args[1])]: in-place ASCII case change
    of one argv slot. *)
Definition ToUpper (s : string) : string := string_map ascii_toupper s.
Definition ToLower (s : string) : string := string_map ascii_tolower s.

Fixpoint strip_leading (s : string) : string :=
  match s with
  | String c s' => if ascii_isspace c then strip_leading s' else s
  | EmptyString => EmptyString
  end.

Fixpoint strip_trailing (s : string) : string :=
  match s with
  | EmptyString => EmptyString
  | String c s' =>
      match strip_trailing s' with
      | EmptyString => if ascii_isspace c then EmptyString else String c EmptyString
      | t => String c t
      end
  end.

Definition StripAsciiWhitespace (s : string) : string :=
  strip_trailing (strip_leading s).

(** [absl::numbers_internal::FastIntToBuffer] on an unsigned value: its
    decimal digits. *)
Definition FastIntToBuffer (n : Z) : string :=
  NilZero.string_of_uint (N.to_uint (Z.to_N n)).

Definition CRLF : string :=
  String (ascii_of_N 13) (String (ascii_of_N 10) EmptyString).

(** [ArgS(args, i)]: the i-th argv slot as a string view.  Every use below
    sits behind the arity check of the dispatcher (EVAL and EVALSHA have
    arity -3), so the index is in range there; out of range the model
    yields the empty view. *)
Definition ArgS (args : list string) (i : nat) : string :=
  default EmptyString (args !! i).

(** ** main_service.cc:234 IsSHA *)

Definition IsSHA (str : string) : bool := string_forall ascii_isxdigit str.

(** ** ObjectExplorer: the visitor a script hands to [redis.call] *)

Inductive ExplorerEvent : Type :=
| OnBool (b : bool)
| OnString (str : string)
| OnDouble (d : float)
| OnInt (val : Z)
| OnArrayStart (len : Z)
| OnArrayEnd
| OnNil
| OnStatus (str : string)
| OnError (str : string).

(** ** main_service.cc:53-232 InterpreterReplier

    [array_len_] is a vector used as a stack; the model keeps the back of
    the vector at the head of the list.  A frame is the pair
    [(saved element count, target length)].  The DCHECKs of this class
    (an empty stack in SendError, SendStored and SendMGetResponse, a zero
    counter in the stack-less branch of PostItem) are debug-build
    assertions on the reply shapes of the command families; they change no
    value and are not part of the methods below. *)

Module Replier.

Record t : Type := mk {
  array_len_ : list (Z * Z);
  num_elems_ : Z
}.

Definition init : t := {| array_len_ := []; num_elems_ := 0 |}.

(** The [while] loop of PostItem (lines 140-147), entered with a non-empty
    stack; the [[]] case is the [break] after the last frame was popped. *)
Fixpoint PostItem_loop (num : Z) (stack : list (Z * Z))
  : list ExplorerEvent * t :=
  match stack with
  | [] => ([], {| array_len_ := []; num_elems_ := num |})
  | (first, second) :: rest =>
      if num =? second then
        let '(evs, r) := PostItem_loop first rest in (OnArrayEnd :: evs, r)
      else ([], {| array_len_ := stack; num_elems_ := num |})
  end.

Definition PostItem (r : t) : list ExplorerEvent * t :=
  match array_len_ r with
  | [] => ([], {| array_len_ := []; num_elems_ := u32 (num_elems_ r + 1) |})
  | _ :: _ => PostItem_loop (u32 (num_elems_ r + 1)) (array_len_ r)
  end.

(** [emit evs ;; m]: the explorer callbacks [evs], then the method [m]. *)
Definition after (evs : list ExplorerEvent) (m : t -> list ExplorerEvent * t)
  (r : t) : list ExplorerEvent * t :=
  let '(evs', r') := m r in (evs ++ evs', r').

Definition SendError (str : string) (r : t) : list ExplorerEvent * t :=
  ([OnError str], r).

Definition SendSimpleString (str : string) (r : t) : list ExplorerEvent * t :=
  match array_len_ r with
  | [] => after [OnStatus str] PostItem r
  | _ :: _ => after [OnString str] PostItem r
  end.

Definition SendStored (r : t) : list ExplorerEvent * t :=
  SendSimpleString "OK" r.

Definition mget_item (o : option string) : ExplorerEvent :=
  match o with
  | Some v => OnString v
  | None => OnNil
  end.

Definition SendMGetResponse (resp : list (option string)) (r : t)
  : list ExplorerEvent * t :=
  (OnArrayStart (Z.of_nat (length resp)) :: map mget_item resp ++ [OnArrayEnd], r).

Definition SendSimpleStrArr (arr : list string) (r : t)
  : list ExplorerEvent * t :=
  after (OnArrayStart (Z.of_nat (length arr)) :: map OnString arr ++ [OnArrayEnd])
        PostItem r.

(** Lines 192-200: both call SendSimpleStrArr and then PostItem again. *)
Definition SendNullArray (r : t) : list ExplorerEvent * t :=
  let '(evs, r1) := SendSimpleStrArr [] r in after evs PostItem r1.

Definition SendStringArr (arr : list string) (r : t) : list ExplorerEvent * t :=
  let '(evs, r1) := SendSimpleStrArr arr r in after evs PostItem r1.

Definition SendNull (r : t) : list ExplorerEvent * t := after [OnNil] PostItem r.
Definition SendLong (val : Z) (r : t) : list ExplorerEvent * t :=
  after [OnInt val] PostItem r.
Definition SendDouble (val : float) (r : t) : list ExplorerEvent * t :=
  after [OnDouble val] PostItem r.
Definition SendBulkString (str : string) (r : t) : list ExplorerEvent * t :=
  after [OnString str] PostItem r.

Definition StartArray (len : Z) (r : t) : list ExplorerEvent * t :=
  if len =? 0 then after [OnArrayStart len; OnArrayEnd] PostItem r
  else ([OnArrayStart len],
        {| array_len_ := (u32 (num_elems_ r + 1), len) :: array_len_ r;
           num_elems_ := 0 |}).

(** The unwinding as the specification words it: starting from the counter
    [num] (already incremented for the leaf just written) and the stack,
    while the top frame's counter equals its target an array-end event is
    emitted, the frame is popped, the counter becomes the saved one, and
    unwinding continues with the enclosing frame. *)
Inductive unwinds : Z -> list (Z * Z) -> list ExplorerEvent -> t -> Prop :=
| unwinds_bottom num :
    unwinds num [] [] {| array_len_ := []; num_elems_ := num |}
| unwinds_open num saved target rest :
    num <> target ->
    unwinds num ((saved, target) :: rest) []
            {| array_len_ := (saved, target) :: rest; num_elems_ := num |}
| unwinds_close num saved rest evs r :
    unwinds saved rest evs r ->
    unwinds num ((saved, num) :: rest) (OnArrayEnd :: evs) r.

End Replier.

(** ** Command descriptors (CommandId, command_registry.h) *)

(** Modelled from the spec: the option bits [CO::...] are declared in
    command_registry.h, which is not among the sources; the specification
    lists the seven flags of the bit set.  They are distinct single bits;
    nothing below depends on the positions chosen. *)
Module CO.
Definition READONLY : N := 1.
Definition FAST : N := 2.
Definition WRITE : N := 4.
Definition LOADING : N := 8.
Definition ADMIN : N := 128.
Definition NOSCRIPT : N := 256.
Definition GLOBAL_TRANS : N := 4096.
End CO.

(** [mask & flag] used as a condition. *)
Definition has_flag (mask flag : N) : bool := negb (N.land mask flag =? 0)%N.

(** The handler bound to a descriptor: one of the five member functions
    registered in this file, or a handler of a command family
    (StringFamily, GenericFamily, ListFamily, ServerFamily), named by a tag
    and defined outside this file. *)
Inductive Handler : Type :=
| HQuit | HMulti | HEval | HEvalSha | HExec
| HFamily (tag : string).

Inductive Validator : Type :=
| VEval
| VFamily (tag : string).

Record CommandId : Type := CI {
  name : string;
  opt_mask : N;
  arity : Z;
  first_key_pos : Z;
  last_key_pos : Z;
  key_arg_step : Z;
  handler : Handler;
  validator : option Validator
}.

(** [CI{name, mask, arity, first, last, step}.HFUNC(h)] *)
Definition SetHandler (h : Handler) (c : CommandId) : CommandId :=
  CI (name c) (opt_mask c) (arity c) (first_key_pos c) (last_key_pos c)
     (key_arg_step c) h (validator c).

Definition SetValidator (v : Validator) (c : CommandId) : CommandId :=
  CI (name c) (opt_mask c) (arity c) (first_key_pos c) (last_key_pos c)
     (key_arg_step c) (handler c) (Some v).

(** main_service.cc:242 IsTransactional *)
Definition IsTransactional (c : CommandId) : bool :=
  if (0 <? first_key_pos c) || has_flag (opt_mask c) CO.GLOBAL_TRANS then true
  else if String.eqb (name c) "EVAL" || String.eqb (name c) "EVALSHA" then true
  else false.

(** ** Connection state (conn_context.h) *)

Inductive ExecState : Type := EXEC_INACTIVE | EXEC_COLLECT | EXEC_ERROR.

Definition exec_inactive (s : ExecState) : bool :=
  match s with EXEC_INACTIVE => true | _ => false end.

(** Modelled from the spec: the two bits of [ConnectionState::mask] that the
    dispatcher reads; conn_context.h is not among the sources. *)
Module ConnMask.
Definition REQ_AUTH : N := 1.
Definition AUTHENTICATED : N := 2.
End ConnMask.

Record StoredCmd : Type := {
  descr : CommandId;
  cmd : list string
}.

(** Queue entries can be compared (used to tell whether a handler changed
    the queue that Exec is walking). *)
#[global] Instance Handler_eq_dec : EqDecision Handler.
Proof. solve_decision. Defined.

#[global] Instance Validator_eq_dec : EqDecision Validator.
Proof. solve_decision. Defined.

#[global] Instance CommandId_eq_dec : EqDecision CommandId.
Proof. solve_decision. Defined.

#[global] Instance StoredCmd_eq_dec : EqDecision StoredCmd.
Proof. solve_decision. Defined.

Record ScriptInfo : Type := {
  keys : gset string;
  is_write : bool
}.

Record ConnectionState : Type := {
  db_index : Z;
  mask : N;
  exec_state : ExecState;
  exec_body : list StoredCmd;
  script_info : option ScriptInfo;
  memcache_flag : Z
}.

(** What this file tells a Transaction object: the command it was built
    for or switched to (SetExecCmd), and the last InitByArgs. *)
Record Transaction : Type := {
  tx_cid : CommandId;
  tx_init : option (Z * list string)
}.

Record DebugInfo : Type := {
  shards_count : Z;
  clock : Z;
  is_ooo : bool
}.

Inductive Protocol : Type := REDIS | MEMCACHE.

Record ConnectionContext : Type := {
  conn_state : ConnectionState;
  transaction : option Transaction;
  cid : option CommandId;
  last_command_debug : DebugInfo;
  protocol : Protocol
}.

(** Modelled from the spec: the process-wide state flag read through
    [ServerState::gstate()] (server_state.h is not among the sources). *)
Inductive GlobalState : Type := ACTIVE | LOADING | SHUTTING_DOWN.

(** The thread-local ServerState: the state flag, the master flag and the
    interpreter, of which the model keeps the function table (sha to body). *)
Record ServerState : Type := {
  gstate : GlobalState;
  is_master : bool;
  interpreter : gmap string string
}.

Record World : Type := {
  cntx : ConnectionContext;
  etl : ServerState;
  script_mgr : gmap string string
}.

(** Field updates. *)
Definition with_conn_state (f : ConnectionState -> ConnectionState)
  (c : ConnectionContext) : ConnectionContext :=
  {| conn_state := f (conn_state c); transaction := transaction c;
     cid := cid c; last_command_debug := last_command_debug c;
     protocol := protocol c |}.

Definition with_cntx (f : ConnectionContext -> ConnectionContext) (w : World)
  : World :=
  {| cntx := f (cntx w); etl := etl w; script_mgr := script_mgr w |}.

Definition set_exec_state (s : ExecState) (cs : ConnectionState)
  : ConnectionState :=
  {| db_index := db_index cs; mask := mask cs; exec_state := s;
     exec_body := exec_body cs; script_info := script_info cs;
     memcache_flag := memcache_flag cs |}.

Definition set_exec_body (b : list StoredCmd) (cs : ConnectionState)
  : ConnectionState :=
  {| db_index := db_index cs; mask := mask cs; exec_state := exec_state cs;
     exec_body := b; script_info := script_info cs;
     memcache_flag := memcache_flag cs |}.

Definition set_script_info (s : option ScriptInfo) (cs : ConnectionState)
  : ConnectionState :=
  {| db_index := db_index cs; mask := mask cs; exec_state := exec_state cs;
     exec_body := exec_body cs; script_info := s;
     memcache_flag := memcache_flag cs |}.

Definition set_memcache_flag (f : Z) (cs : ConnectionState)
  : ConnectionState :=
  {| db_index := db_index cs; mask := mask cs; exec_state := exec_state cs;
     exec_body := exec_body cs; script_info := script_info cs;
     memcache_flag := f |}.

Definition set_transaction (t : option Transaction) (c : ConnectionContext)
  : ConnectionContext :=
  {| conn_state := conn_state c; transaction := t; cid := cid c;
     last_command_debug := last_command_debug c; protocol := protocol c |}.

Definition set_cid (i : option CommandId) (c : ConnectionContext)
  : ConnectionContext :=
  {| conn_state := conn_state c; transaction := transaction c; cid := i;
     last_command_debug := last_command_debug c; protocol := protocol c |}.

Definition set_last_command_debug (d : DebugInfo) (c : ConnectionContext)
  : ConnectionContext :=
  {| conn_state := conn_state c; transaction := transaction c; cid := cid c;
     last_command_debug := d; protocol := protocol c |}.

Definition set_interpreter (i : gmap string string) (w : World) : World :=
  {| cntx := cntx w;
     etl := {| gstate := gstate (etl w); is_master := is_master (etl w);
               interpreter := i |};
     script_mgr := script_mgr w |}.

Definition set_script_mgr (m : gmap string string) (w : World) : World :=
  {| cntx := cntx w; etl := etl w; script_mgr := m |}.

(** Short names for the fields the dispatcher reads most. *)
Definition cstate (w : World) : ConnectionState := conn_state (cntx w).

(** ** Calls on collaborators *)

(** The reply-builder interface (reply_builder.h), as far as this file
    calls it; [SendDirect] and [SendClientError] belong to the Memcached
    builder, [CloseConnection] to the sink builder. *)
Inductive ReplyCall : Type :=
| SendError (str : string)
| SendStored
| SendOk
| SendSimpleString (str : string)
| SendMGetResponse (resp : list (option string))
| SendSimpleStrArr (arr : list string)
| SendNullArray
| SendStringArr (arr : list string)
| SendNull
| SendLong (val : Z)
| SendDouble (val : float)
| SendBulkString (str : string)
| StartArray (len : Z)
| SendDirect (str : string)
| SendClientError (str : string)
| CloseConnection.

Inductive TxCall : Type :=
| Schedule
| UnlockMulti
| SetExecCmd (c : CommandId)
| InitByArgs (db : Z) (args : list string).

Inductive RunResult : Type := RUN_OK | RUN_ERR.

Inductive AddResult : Type := ADD_OK | ALREADY_EXISTS | COMPILE_ERR.

Inductive InterpCall : Type :=
| Lock
| Unlock
| SetGlobalArray (global : string) (vals : list string)
| SetRedisFunc
| SerializeResult
| ResetStack.

(** One entry per call made, in program order.  [Invoke] marks the call of
    a command handler and is followed by what the handler did.
    [RunFunction sha inner res] is one interpreter run: [inner] is what the
    script's [redis.call]s did, each a [FromScript] holding the events of
    the nested dispatch, whose replies went to the InterpreterReplier. *)
Inductive Event : Type :=
| Reply (r : ReplyCall)
| Tx (t : TxCall)
| Interp (i : InterpCall)
| Invoke (c : CommandId) (args : list string)
| FromScript (args : list string) (inner : list Event)
| RunFunction (sha : string) (inner : list Event) (res : RunResult).

(** A terminating run of a script function, as seen from the host: it
    either finishes, or calls [redis.call] with an argv and goes on with
    what the explorer received.  A finished run carries the outcome, the
    error text, whether the result is safe to serialise (IsResultSafe) and
    the explorer callbacks SerializeResult will make. *)
Inductive Script : Type :=
| ScriptDone (res : RunResult) (error : string) (safe : bool)
             (value : list ExplorerEvent)
| ScriptCall (args : list string) (k : list ExplorerEvent -> Script).

(** ** The command monad *)

Inductive Failure : Type :=
| OutOfFuel
| CheckFailed (what : string)
| DCheckFailed (what : string)
| NullDeref (what : string)
| OutOfRange (what : string)
| Aborted (what : string)
| Undefined (what : string).

Inductive Result (A : Type) : Type :=
| Done (a : A) (w : World) (evs : list Event)
| Fail (f : Failure).
Arguments Done {A} a w evs.
Arguments Fail {A} f.

Definition Cmd (A : Type) : Type := World -> Result A.

Definition ret {A} (a : A) : Cmd A := fun w => Done a w [].

Definition bind {A B} (m : Cmd A) (k : A -> Cmd B) : Cmd B :=
  fun w =>
    match m w with
    | Fail f => Fail f
    | Done a w1 evs1 =>
        match k a w1 with
        | Fail f => Fail f
        | Done b w2 evs2 => Done b w2 (evs1 ++ evs2)
        end
    end.

Definition fail {A} (f : Failure) : Cmd A := fun _ => Fail f.
Definition get : Cmd World := fun w => Done w w [].
Definition modify (f : World -> World) : Cmd unit := fun w => Done tt (f w) [].
Definition emit (evs : list Event) : Cmd unit := fun w => Done tt w evs.

Declare Scope cmd_scope.
Delimit Scope cmd_scope with cmd.
Bind Scope cmd_scope with Cmd.
Notation "x <- m ;; k" := (bind m (fun x => k))
  (at level 100, m at next level, right associativity) : cmd_scope.
Notation "m ;; k" := (bind m (fun _ => k))
  (at level 100, right associativity) : cmd_scope.
Open Scope cmd_scope.

Definition send (r : ReplyCall) : Cmd unit := emit [Reply r].
Definition tx_call (t : TxCall) : Cmd unit := emit [Tx t].
Definition interp_call (i : InterpCall) : Cmd unit := emit [Interp i].

(** [CHECK(cond)]: aborts the process when the condition fails. *)
Definition CHECK (what : string) (cond : bool) : Cmd unit :=
  if cond then ret tt else fail (CheckFailed what).

(** Code outside this file, which returns or does not. *)
Definition foreign (what : string) (f : World -> option (World * list Event))
  : Cmd unit :=
  fun w =>
    match f w with
    | Some (w1, evs) => Done tt w1 evs
    | None => Fail (Aborted what)
    end.

Definition modify_conn (f : ConnectionState -> ConnectionState) : Cmd unit :=
  modify (with_cntx (with_conn_state f)).

Definition modify_cntx (f : ConnectionContext -> ConnectionContext) : Cmd unit :=
  modify (with_cntx f).

(** ** Collaborators defined outside this file

    What main_service.cc uses and does not define: the error texts of
    error.h, parsing of integers (absl), the command families with their
    handlers and validators, the Transaction queries, the interpreter and
    the base class of the reply builders. *)
Class Externals : Type := {
  (** whether DCHECKs are compiled in *)
  debug_build : bool;
  (** server/error.h *)
  kInvalidIntErr : string;
  kScriptNotFound : string;
  WrongNumArgsError : string -> string;
  (** GlobalState::Name *)
  GlobalState_Name : GlobalState -> string;
  (** absl::SimpleAtoi at int32_t and at uint32_t *)
  SimpleAtoi_int32 : string -> option Z;
  SimpleAtoi_uint32 : string -> option Z;
  (** the descriptors registered by StringFamily, GenericFamily, ListFamily
      and ServerFamily, in registration order *)
  family_commands : list CommandId;
  (** the validators and handlers of those commands, by tag; a validator
      returns its verdict and the replies it wrote, a handler the world it
      leaves and the calls it made, or nothing when it does not return *)
  family_validate : string -> list string -> World -> bool * list ReplyCall;
  family_invoke : string -> list string -> World -> option (World * list Event);
  (** transaction.h: DetermineKeys gives [start, end) *)
  DetermineKeys : CommandId -> list string -> nat * nat;
  unique_shard_cnt : Transaction -> Z;
  txid : Transaction -> Z;
  IsOOO : Transaction -> bool;
  (** [rb->GetError()] after a queued handler returned in the world [w],
      having made the calls [evs] *)
  GetError : World -> list Event -> bool;
  (** ServerFamily::StatsMC and gflags::VersionString *)
  StatsMC : string -> World -> option (World * list Event);
  VersionString : string;
  (** the initial value of ScriptInfo::is_write *)
  script_is_write : bool;
  (** the interpreter: the digest naming a body, the compile error of a
      body if it has one, and the run of a registered function *)
  lua_sha1 : string -> string;
  lua_compile_error : string -> option string;
  lua_run : gmap string string -> string -> list string -> list string -> Script;
  (** reply-builder methods that InterpreterReplier inherits unchanged *)
  replier_inherited : ReplyCall -> Replier.t -> list ExplorerEvent * Replier.t
}.

(** ** CommandRegistry *)

(** Modelled from the spec: [CommandRegistry::operator<<]
    (command_registry.cc is not among the sources).  The registry maps a
    name to its descriptor with unique keys: registering a name twice is
    refused. *)
Definition register (reg : option (gmap string CommandId)) (c : CommandId)
  : option (gmap string CommandId) :=
  match reg with
  | None => None
  | Some m =>
      match m !! name c with
      | Some _ => None
      | None => Some (<[name c := c]> m)
      end
  end.

(** main_service.cc:815-829 RegisterCommands *)
Definition kExecMask : N := N.lor (N.lor CO.LOADING CO.NOSCRIPT) CO.GLOBAL_TRANS.

Definition QUIT_cid : CommandId :=
  CI "QUIT" (N.lor CO.READONLY CO.FAST) 1 0 0 0 HQuit None.
Definition MULTI_cid : CommandId :=
  CI "MULTI" (N.lor (N.lor CO.NOSCRIPT CO.FAST) CO.LOADING) 1 0 0 0 HMulti None.
Definition EVAL_cid : CommandId :=
  CI "EVAL" CO.NOSCRIPT (-3) 0 0 0 HEval (Some VEval).
Definition EVALSHA_cid : CommandId :=
  CI "EVALSHA" CO.NOSCRIPT (-3) 0 0 0 HEvalSha (Some VEval).
Definition EXEC_cid : CommandId :=
  CI "EXEC" kExecMask 1 0 0 0 HExec None.

Definition service_commands : list CommandId :=
  [QUIT_cid; MULTI_cid; EVAL_cid; EVALSHA_cid; EXEC_cid].

Definition RegisterCommands `{Externals} : option (gmap string CommandId) :=
  foldl register (Some ∅) (service_commands ++ family_commands).

(** ** The Memcached parser's command (memcache_parser.h) *)

Module MemcacheParser.

(** The command types named by the switch of DispatchMC; [OTHER] stands
    for every type that reaches its [default] label. *)
Inductive CmdType : Type :=
| SET | ADD | REPLACE | APPEND | PREPEND
| GET | QUIT | STATS | VERSION
| DELETE | INCR | DECR
| OTHER.

Record Command : Type := {
  type : CmdType;
  key : string;
  keys_ext : list string;
  delta : Z;
  expire_ts : Z;
  flags : Z
}.

(** Modelled from the spec: [MemcacheParser::IsStoreCmd]; the store
    commands are those whose translation carries the value. *)
Definition IsStoreCmd (t : CmdType) : bool :=
  match t with
  | SET | ADD | REPLACE | APPEND | PREPEND => true
  | _ => false
  end.

(** Modelled from the spec: [type < MemcacheParser::QUIT], the read
    commands; of the types that get this far only GET is one (it
    translates to MGET with all its keys). *)
Definition before_QUIT (t : CmdType) : bool :=
  match t with
  | GET => true
  | _ => false
  end.

End MemcacheParser.

(** The arguments of EvalInternal. *)
Module EvalArgs.
Record t : Type := {
  sha : string;
  keys : list string;
  args : list string
}.
End EvalArgs.

(** ** The service *)

Section Service.

Context `{Ext : Externals}.

(** The registry member, built once by RegisterCommands. *)
Variable registry_ : gmap string CommandId.

(** The handler call [cid->Invoke(args, cntx)]. *)
Variable invoke : CommandId -> list string -> Cmd unit.

(** [DCHECK(cond)]: a CHECK in debug builds, nothing in release builds. *)
Definition DCHECK (what : string) (cond : bool) : Cmd unit :=
  if debug_build then
    (if cond then ret tt else fail (DCheckFailed what))
  else ret tt.

(** A method call through [cntx->transaction]. *)
Definition with_transaction (what : string) (k : Transaction -> Cmd unit)
  : Cmd unit :=
  w <- get ;;
  match transaction (cntx w) with
  | None => fail (NullDeref what)
  | Some t => k t
  end.

Definition transaction_SetExecCmd (c : CommandId) : Cmd unit :=
  with_transaction "SetExecCmd" (fun t =>
    tx_call (SetExecCmd c) ;;
    modify_cntx (set_transaction (Some {| tx_cid := c; tx_init := tx_init t |}))).

Definition transaction_InitByArgs (db : Z) (args : list string) : Cmd unit :=
  with_transaction "InitByArgs" (fun t =>
    tx_call (InitByArgs db args) ;;
    modify_cntx (set_transaction
                   (Some {| tx_cid := tx_cid t; tx_init := Some (db, args) |}))).

(** *** main_service.cc:254 EvalValidator *)
Definition EvalValidator (args : list string) : bool * list ReplyCall :=
  let num_keys_str := ArgS args 2 in
  match SimpleAtoi_int32 num_keys_str with
  | None => (false, [SendError kInvalidIntErr])
  | Some num_keys =>
      if num_keys <? 0 then (false, [SendError kInvalidIntErr])
      else if u64 (Z.of_nat (length args) - 3) <? u32 num_keys then
        (false, [SendError "Number of keys can't be greater than number of args"])
      else (true, [])
  end.

(** [cid->Validate(args, cntx)]: true when no validator is attached. *)
Definition Validate (c : CommandId) (args : list string) (w : World)
  : bool * list ReplyCall :=
  match validator c with
  | None => (true, [])
  | Some VEval => EvalValidator args
  | Some (VFamily tag) => family_validate tag args w
  end.

Definition is_trans_cmd (cmd_str : string) : bool :=
  String.eqb cmd_str "EXEC" || String.eqb cmd_str "MULTI".

Definition under_script (w : World) : bool :=
  bool_decide (is_Some (script_info (cstate w))).

Definition script_is_write_now (w : World) : bool :=
  match script_info (cstate w) with
  | Some si => is_write si
  | None => false
  end.

Definition wrong_arity (c : CommandId) (args : list string) : bool :=
  ((0 <? arity c) && negb (Z.of_nat (length args) =? arity c))
  || ((arity c <? 0) && (Z.of_nat (length args) <? - arity c)).

(** *** main_service.cc:350-408: the checks of DispatchCommand

    [args] has its first slot uppercased already.  The result is the
    replies written and the descriptor when every check passed; [None] is
    one of the error returns, taken while the [multi_error] cleanup is
    armed. *)
Definition checks (args : list string) (w : World)
  : list ReplyCall * option CommandId :=
  let cmd_str := ArgS args 0 in
  match registry_ !! cmd_str with
  | None => ([SendError ("unknown command `" +:+ cmd_str +:+ "`")], None)
  | Some c =>
    match gstate (etl w) with
    | LOADING | SHUTTING_DOWN =>
        ([SendError ("Can not execute during " +:+ GlobalState_Name (gstate (etl w)))],
         None)
    | ACTIVE =>
      let cmd_name := name c in
      if (N.land (mask (cstate w))
                 (N.lor ConnMask.REQ_AUTH ConnMask.AUTHENTICATED)
          =? ConnMask.REQ_AUTH)%N
         && negb (String.eqb cmd_name "AUTH")
      then ([SendError "-NOAUTH Authentication required."], None)
      else if under_script w && has_flag (opt_mask c) CO.NOSCRIPT
      then ([SendError "This Redis command is not allowed from script"], None)
      else
        let is_write_cmd :=
          has_flag (opt_mask c) CO.WRITE || (under_script w && script_is_write_now w) in
        let under_multi :=
          negb (exec_inactive (exec_state (cstate w))) && negb (is_trans_cmd cmd_str) in
        if negb (is_master (etl w)) && is_write_cmd
        then ([SendError "-READONLY You can't write against a read only replica."], None)
        else if wrong_arity c args
        then ([SendError (WrongNumArgsError cmd_str)], None)
        else if (key_arg_step c =? 2) && Nat.even (length args)
        then ([SendError (WrongNumArgsError cmd_str)], None)
        else
          let '(valid, written) := Validate c args w in
          if negb valid then (written, None)
          else if under_multi && has_flag (opt_mask c) CO.ADMIN
          then (written ++ [SendError "Can not run admin commands under transactions"], None)
          else if under_multi && String.eqb cmd_name "SELECT"
          then (written ++ [SendError "Can not call SELECT within a transaction"], None)
          else (written, Some c)
    end
  end.

(** *** main_service.cc:344-348: the [multi_error] cleanup *)
Definition poison (w : World) : World :=
  with_cntx (with_conn_state (fun cs =>
    if exec_inactive (exec_state cs) then cs else set_exec_state EXEC_ERROR cs)) w.

Definition multi_error : Cmd unit := modify poison.

(** *** main_service.cc:454-467: the handler call and what follows it

    [dist_trans] is the transaction built for this call, if one was.  The
    debug fields are read through it after the handler returned; the model
    reads the object the context still points to. *)
Definition call_handler (c : CommandId) (args : list string)
  (dist_trans : option Transaction) (script : bool) : Cmd unit :=
  modify_cntx (set_cid (Some c)) ;;
  emit [Invoke c args] ;;
  invoke c args ;;
  match dist_trans with
  | Some t0 =>
      w <- get ;;
      let t := default t0 (transaction (cntx w)) in
      modify_cntx (fun cx =>
        set_last_command_debug
          {| shards_count := shards_count (last_command_debug cx);
             clock := txid t; is_ooo := IsOOO t |} cx)
  | None => ret tt
  end ;;
  if negb script then modify_cntx (set_transaction None) else ret tt.

(** *** main_service.cc:412-452: queueing, or the transaction set-up *)
Definition run_checked (c : CommandId) (args : list string)
  (trans_cmd script : bool) : Cmd unit :=
  w <- get ;;
  if negb (exec_inactive (exec_state (cstate w))) && negb trans_cmd then
    modify_conn (fun cs =>
      set_exec_body (exec_body cs ++ [{| descr := c; cmd := args |}]) cs) ;;
    send (SendSimpleString "QUEUED")
  else if script then
    DCHECK "cntx->transaction" (bool_decide (is_Some (transaction (cntx w)))) ;;
    let '(first, last) := DetermineKeys c args in
    match script_info (cstate w) with
    | None => fail (NullDeref "script_info")
    | Some si =>
        if forallb (fun i => bool_decide (ArgS args i ∈ keys si))
                   (seq first (last - first))
        then
          transaction_SetExecCmd c ;;
          transaction_InitByArgs (db_index (cstate w)) args ;;
          call_handler c args None script
        else send (SendError "script tried accessing undeclared key")
    end
  else
    DCHECK "cntx->transaction == nullptr"
           (negb (bool_decide (is_Some (transaction (cntx w))))) ;;
    if IsTransactional c then
      let t := {| tx_cid := c; tx_init := None |} in
      modify_cntx (set_transaction (Some t)) ;;
      transaction_InitByArgs (db_index (cstate w)) args ;;
      w1 <- get ;;
      let t1 := default t (transaction (cntx w1)) in
      modify_cntx (fun cx =>
        set_last_command_debug
          {| shards_count := unique_shard_cnt t1;
             clock := clock (last_command_debug cx);
             is_ooo := is_ooo (last_command_debug cx) |} cx) ;;
      call_handler c args (Some t1) script
    else
      modify_cntx (set_transaction None) ;;
      call_handler c args None script.

Definition upper_first (args : list string) : list string :=
  match args with
  | [] => []
  | a :: rest => ToUpper a :: rest
  end.

(** *** main_service.cc:329 Service::DispatchCommand

    The DCHECK on the shard set's size concerns Init, which is outside the
    model. *)
Definition DispatchCommand (args : list string) : Cmd unit :=
  CHECK "!args.empty()" (negb (bool_decide (args = []))) ;;
  let args := upper_first args in
  let cmd_str := ArgS args 0 in
  w <- get ;;
  match checks args w with
  | (written, None) => emit (map Reply written) ;; multi_error
  | (written, Some c) =>
      emit (map Reply written) ;;
      run_checked c args (is_trans_cmd cmd_str) (under_script w)
  end.

(** *** main_service.cc:595 Service::Quit *)
Definition Quit (args : list string) : Cmd unit :=
  w <- get ;;
  match protocol (cntx w) with
  | REDIS => send SendOk
  | MEMCACHE => ret tt
  end ;;
  send CloseConnection.

(** *** main_service.cc:603 Service::Multi *)
Definition Multi (args : list string) : Cmd unit :=
  w <- get ;;
  if negb (exec_inactive (exec_state (cstate w))) then
    send (SendError "MULTI calls can not be nested")
  else
    modify_conn (set_exec_state EXEC_COLLECT) ;;
    send SendOk.

(** *** main_service.cc:755 Service::Exec

    The range-for of line 772 walks the queue in place: [whole] is the
    queue, [rest] what is left of it to visit.  A handler that changes the
    queue while the loop holds its iterators -- a queued EVAL whose script
    dispatches a command does, line 419 appending it to the very queue
    being walked, since exec_state stays EXEC_COLLECT until line 791 --
    leaves the next step of the loop undefined (a push_back or a clear
    invalidates the iterators): the model stops there with [Undefined].
    It tells a change by comparing the queue the handler left with the
    queue being walked.  The [break] of line 785 touches no iterator. *)
Fixpoint Exec_loop (whole rest : list StoredCmd) : Cmd unit :=
  match rest with
  | [] => ret tt
  | scmd :: rest' =>
      w <- get ;;
      transaction_SetExecCmd (descr scmd) ;;
      transaction_InitByArgs (db_index (cstate w)) (cmd scmd) ;;
      emit [Invoke (descr scmd) (cmd scmd)] ;;
      stop <- (fun w1 =>
                 match invoke (descr scmd) (cmd scmd) w1 with
                 | Fail f => Fail f
                 | Done _ w2 evs => Done (GetError w2 evs) w2 evs
                 end) ;;
      if stop : bool then ret tt
      else
        w2 <- get ;;
        if bool_decide (exec_body (cstate w2) = whole) then Exec_loop whole rest'
        else fail (Undefined "exec_body changed while EXEC iterates it")
  end.

Definition Exec (args : list string) : Cmd unit :=
  w <- get ;;
  match exec_state (cstate w) with
  | EXEC_INACTIVE => send (SendError "EXEC without MULTI")
  | EXEC_ERROR =>
      modify_conn (set_exec_state EXEC_INACTIVE) ;;
      modify_conn (set_exec_body []) ;;
      send (SendError "-EXECABORT Transaction discarded because of previous errors")
  | EXEC_COLLECT =>
      let body := exec_body (cstate w) in
      send (StartArray (u32 (Z.of_nat (length body)))) ;;
      match body with
      | [] => ret tt
      | _ :: _ =>
          Exec_loop body body ;;
          with_transaction "UnlockMulti" (fun _ => tx_call UnlockMulti)
      end ;;
      modify_conn (set_exec_state EXEC_INACTIVE) ;;
      modify_conn (set_exec_body [])
  end.

(** *** The InterpreterReplier behind [cntx->Inject(&replier)]

    While a replier is injected, every reply call of the nested dispatch
    is a method call on it. *)
Definition replier_call (r : ReplyCall) (st : Replier.t)
  : list ExplorerEvent * Replier.t :=
  match r with
  | SendError str => Replier.SendError str st
  | SendStored => Replier.SendStored st
  | SendSimpleString str => Replier.SendSimpleString str st
  | SendMGetResponse resp => Replier.SendMGetResponse resp st
  | SendSimpleStrArr arr => Replier.SendSimpleStrArr arr st
  | SendNullArray => Replier.SendNullArray st
  | SendStringArr arr => Replier.SendStringArr arr st
  | SendNull => Replier.SendNull st
  | SendLong val => Replier.SendLong val st
  | SendDouble val => Replier.SendDouble val st
  | SendBulkString str => Replier.SendBulkString str st
  | StartArray len => Replier.StartArray len st
  | SendOk | SendDirect _ | SendClientError _ | CloseConnection =>
      replier_inherited r st
  end.

Fixpoint replier_run (evs : list Event) (st : Replier.t)
  : list ExplorerEvent * Replier.t :=
  match evs with
  | [] => ([], st)
  | Reply r :: rest =>
      let '(out, st1) := replier_call r st in
      let '(out', st2) := replier_run rest st1 in
      (out ++ out', st2)
  | _ :: rest => replier_run rest st
  end.

(** *** main_service.cc:612 Service::CallFromScript

    The result is what the script's explorer received. *)
Definition CallFromScript (args : list string) : Cmd (list ExplorerEvent) :=
  w <- get ;;
  DCHECK "cntx->transaction" (bool_decide (is_Some (transaction (cntx w)))) ;;
  fun w1 =>
    match DispatchCommand args w1 with
    | Fail f => Fail f
    | Done _ w2 evs =>
        Done (fst (replier_run evs Replier.init)) w2 [FromScript args evs]
    end.

(** [interpreter->RunFunction(sha, &error)]: the script runs, every
    [redis.call] going through CallFromScript. *)
Fixpoint run_script (s : Script)
  : Cmd (RunResult * string * bool * list ExplorerEvent) :=
  match s with
  | ScriptDone res error safe value => ret (res, error, safe, value)
  | ScriptCall args k =>
      answer <- CallFromScript args ;;
      run_script (k answer)
  end.

Definition RunFunction_call (sha : string) (keys args : list string)
  : Cmd (RunResult * string * bool * list ExplorerEvent) :=
  fun w =>
    match run_script (lua_run (interpreter (etl w)) sha keys args) w with
    | Fail f => Fail f
    | Done r w1 inner => Done r w1 [RunFunction sha inner (fst (fst (fst r)))]
    end.

(** Modelled from the spec: [Interpreter::AddFunction] and
    [Interpreter::Exists] (interpreter.h is not among the sources).  A body
    is registered under its digest; the result is ALREADY_EXISTS for a
    digest already known, COMPILE_ERR with the error text for a body that
    does not compile, ADD_OK with the digest otherwise. *)
Definition interpreter_Exists (sha : string) (w : World) : bool :=
  bool_decide (is_Some (interpreter (etl w) !! sha)).

Definition AddFunction (body : string) : Cmd (AddResult * string) :=
  w <- get ;;
  let digest := lua_sha1 body in
  if interpreter_Exists digest w then ret (ALREADY_EXISTS, digest)
  else
    match lua_compile_error body with
    | Some err => ret (COMPILE_ERR, err)
    | None =>
        modify (set_interpreter (<[digest := body]> (interpreter (etl w)))) ;;
        ret (ADD_OK, digest)
    end.

(** The two CHECK_EQs after loading a cached body (lines 674-675 and
    704-705). *)
Definition load_cached (body sha : string) : Cmd unit :=
  r <- AddFunction body ;;
  CHECK "ADD_OK == AddFunction" (match fst r with ADD_OK => true | _ => false end) ;;
  CHECK "res == sha" (String.eqb (snd r) sha).

(** Lines 695-706: whether the interpreter has the function, after loading
    it from the script cache when it had not. *)
Definition find_function (sha : string) : Cmd bool :=
  w <- get ;;
  if interpreter_Exists sha w then ret true
  else
    match script_mgr w !! sha with
    | None => ret false
    | Some body => load_cached body sha ;; ret true
    end.

(** *** main_service.cc:84 EvalSerializer *)
Definition EvalSerializer (e : ExplorerEvent) : Cmd unit :=
  match e with
  | OnBool true => send (SendLong 1)
  | OnBool false => send SendNull
  | OnString str => send (SendBulkString str)
  | OnDouble d => send (SendDouble d)
  | OnInt val => send (SendLong val)
  | OnArrayStart _ => fail (CheckFailed "TBD")
  | OnArrayEnd => fail (CheckFailed "TBD")
  | OnNil => send SendNull
  | OnStatus str => send (SendSimpleString str)
  | OnError str => send (SendError str)
  end.

Fixpoint SerializeResult_to (value : list ExplorerEvent) : Cmd unit :=
  match value with
  | [] => ret tt
  | e :: rest => EvalSerializer e ;; SerializeResult_to rest
  end.

(** Lines 739-752: the reply after the run. *)
Definition reply_result (sha : string)
  (r : RunResult * string * bool * list ExplorerEvent) : Cmd unit :=
  let '(result, error, safe, value) := r in
  match result with
  | RUN_ERR =>
      send (SendError ("Error running script (call to " +:+ sha +:+ "): "
                       +:+ error)) ;;
      interp_call Unlock
  | RUN_OK =>
      (if negb safe then send (SendError "reached lua stack limit")
       else interp_call SerializeResult ;; SerializeResult_to value) ;;
      interp_call ResetStack ;;
      interp_call Unlock
  end.

(** *** main_service.cc:686 Service::EvalInternal

    The interpreter lock [lk] is released when the function returns. *)
Definition EvalInternal (eval_args : EvalArgs.t) : Cmd unit :=
  let sha := EvalArgs.sha eval_args in
  let keys := EvalArgs.keys eval_args in
  DCHECK "!eval_args.sha.empty()" (negb (String.eqb sha "")) ;;
  if negb (str_len sha =? 40) || negb (IsSHA sha) then
    send (SendError kScriptNotFound)
  else
    found <- find_function sha ;;
    if negb found then send (SendError kScriptNotFound)
    else
      w1 <- get ;;
      DCHECK "!cntx->conn_state.script_info" (negb (under_script w1)) ;;
      modify_conn (set_script_info
                     (Some {| keys := list_to_set keys;
                              is_write := script_is_write |})) ;;
      DCHECK "cntx->transaction" (bool_decide (is_Some (transaction (cntx w1)))) ;;
      (if bool_decide (keys = []) then ret tt
       else with_transaction "Schedule" (fun _ => tx_call Schedule)) ;;
      interp_call Lock ;;
      interp_call (SetGlobalArray "KEYS" keys) ;;
      interp_call (SetGlobalArray "ARGV" (EvalArgs.args eval_args)) ;;
      interp_call SetRedisFunc ;;
      r <- RunFunction_call sha keys (EvalArgs.args eval_args) ;;
      modify_conn (set_script_info None) ;;
      (if bool_decide (keys = []) then ret tt
       else with_transaction "UnlockMulti" (fun _ => tx_call UnlockMulti)) ;;
      reply_result sha r.

(** [args.subspan(pos, len)] and [args.subspan(pos)] of absl::Span: out of
    range when [pos] exceeds the size, otherwise at most [len] slots. *)
Definition subspan (args : list string) (pos : Z) (len : option Z)
  : Cmd (list string) :=
  if Z.of_nat (length args) <? pos then fail (OutOfRange "subspan")
  else
    let tail := drop (Z.to_nat pos) args in
    ret (match len with
         | Some n => take (Z.to_nat n) tail
         | None => tail
         end).

(** [CHECK(absl::SimpleAtoi(ArgS(args, 2), &num_keys))] at uint32_t. *)
Definition checked_num_keys (args : list string) : Cmd Z :=
  match SimpleAtoi_uint32 (ArgS args 2) with
  | Some n => ret n
  | None => fail (CheckFailed "absl::SimpleAtoi(num_keys)")
  end.

(** *** main_service.cc:622 Service::Eval *)
Definition Eval (args : list string) : Cmd unit :=
  num_keys <- checked_num_keys args ;;
  let body := StripAsciiWhitespace (ArgS args 1) in
  if String.eqb body "" then send SendNull
  else
    r <- AddFunction body ;;
    let '(add_result, result) := r in
    match add_result with
    | COMPILE_ERR => send (SendError result)
    | _ =>
        match add_result with
        | ADD_OK => modify (fun w => set_script_mgr (<[result := body]> (script_mgr w)) w)
        | _ => ret tt
        end ;;
        keys <- subspan args 3 (Some num_keys) ;;
        rest <- subspan args (u32 (3 + num_keys)) None ;;
        EvalInternal {| EvalArgs.sha := result; EvalArgs.keys := keys;
                        EvalArgs.args := rest |}
    end.

(** [ToLower(&args[1])] *)
Definition lower_second (args : list string) : list string :=
  match args with
  | a0 :: a1 :: rest => a0 :: ToLower a1 :: rest
  | _ => args
  end.

(** *** main_service.cc:654 Service::EvalSha *)
Definition EvalSha (args : list string) : Cmd unit :=
  num_keys <- checked_num_keys args ;;
  let args := lower_second args in
  let sha := ArgS args 1 in
  w <- get ;;
  found <- (if interpreter_Exists sha w then ret true
            else
              match (if str_len sha =? 40 then script_mgr w !! sha else None) with
              | None => ret false
              | Some body => load_cached body sha ;; ret true
              end) ;;
  if negb found then send (SendError kScriptNotFound)
  else
    keys <- subspan args 3 (Some num_keys) ;;
    rest <- subspan args (u32 (3 + num_keys)) None ;;
    EvalInternal {| EvalArgs.sha := sha; EvalArgs.keys := keys;
                    EvalArgs.args := rest |}.

(** The body behind each handler. *)
Definition run_handler (c : CommandId) (args : list string) : Cmd unit :=
  match handler c with
  | HQuit => Quit args
  | HMulti => Multi args
  | HEval => Eval args
  | HEvalSha => EvalSha args
  | HExec => Exec args
  | HFamily tag => foreign tag (family_invoke tag args)
  end.

End Service.

(** ** Tying the handlers to the dispatcher

    A handler may run handlers itself (Exec runs the queue, a script
    dispatches commands).  [InvokeN n] allows [n] levels of handlers inside
    handlers and stops with [OutOfFuel] beyond. *)
Fixpoint InvokeN `{Ext : Externals} (registry_ : gmap string CommandId)
  (fuel : nat) (c : CommandId) (args : list string) : Cmd unit :=
  match fuel with
  | O => fail OutOfFuel
  | S n => run_handler registry_ (InvokeN registry_ n) c args
  end.

Definition Dispatch `{Ext : Externals} (registry_ : gmap string CommandId)
  (fuel : nat) (args : list string) : Cmd unit :=
  DispatchCommand registry_ (InvokeN registry_ fuel) args.

(** ** main_service.cc:470 Service::DispatchMC *)

Section Memcache.

Context `{Ext : Externals}.
Variable registry_ : gmap string CommandId.
Variable invoke : CommandId -> list string -> Cmd unit.

(** Lines 480-524, the switch: the command name and the store option (an
    empty option is the zero-filled buffer), or the reply made on the
    spot. *)
Definition mc_switch (mc : MemcacheParser.Command)
  : (string * string) + Cmd unit :=
  match MemcacheParser.type mc with
  | MemcacheParser.REPLACE => inl ("SET", "XX")
  | MemcacheParser.SET => inl ("SET", "")
  | MemcacheParser.ADD => inl ("SET", "NX")
  | MemcacheParser.DELETE => inl ("DEL", "")
  | MemcacheParser.INCR => inl ("INCRBY", FastIntToBuffer (MemcacheParser.delta mc))
  | MemcacheParser.DECR => inl ("DECRBY", FastIntToBuffer (MemcacheParser.delta mc))
  | MemcacheParser.APPEND => inl ("APPEND", "")
  | MemcacheParser.PREPEND => inl ("PREPEND", "")
  | MemcacheParser.GET => inl ("MGET", "")
  | MemcacheParser.QUIT => inl ("QUIT", "")
  | MemcacheParser.STATS => inr (foreign "StatsMC" (StatsMC (MemcacheParser.key mc)))
  | MemcacheParser.VERSION =>
      inr (send (SendDirect ("VERSION " +:+ VersionString +:+ CRLF)))
  | MemcacheParser.OTHER => inr (send (SendClientError "bad command line format"))
  end.

Definition starts_with_SET (cmd_name : string) : bool :=
  String.eqb (substring 0 3 cmd_name) "SET".

Definition opt_slot (store_opt : string) : list string :=
  if String.eqb store_opt "" then [] else [store_opt].

(** Lines 526-556: the argv handed to DispatchCommand. *)
Definition mc_args (mc : MemcacheParser.Command) (value cmd_name store_opt : string)
  : list string :=
  [cmd_name]
  ++ (if String.eqb (MemcacheParser.key mc) "" then [] else [MemcacheParser.key mc])
  ++ (if MemcacheParser.IsStoreCmd (MemcacheParser.type mc) then
        [value]
        ++ opt_slot store_opt
        ++ (if negb (MemcacheParser.expire_ts mc =? 0) && starts_with_SET cmd_name
            then ["EX"; FastIntToBuffer (MemcacheParser.expire_ts mc)]
            else [])
      else if MemcacheParser.before_QUIT (MemcacheParser.type mc) then
        MemcacheParser.keys_ext mc
      else opt_slot store_opt).

Definition DispatchMC (mc : MemcacheParser.Command) (value : string) : Cmd unit :=
  match mc_switch mc with
  | inr reply => reply
  | inl (cmd_name, store_opt) =>
      (if MemcacheParser.IsStoreCmd (MemcacheParser.type mc) then
         modify_conn (set_memcache_flag (MemcacheParser.flags mc))
       else ret tt) ;;
      DispatchCommand registry_ invoke (mc_args mc value cmd_name store_opt) ;;
      modify_conn (set_memcache_flag 0)
  end.

End Memcache.

(** ** Conditions named by the properties below *)

(** The connection must authenticate and has not (line 362). *)
Definition auth_pending (w : World) : bool :=
  (N.land (mask (cstate w)) (N.lor ConnMask.REQ_AUTH ConnMask.AUTHENTICATED)
   =? ConnMask.REQ_AUTH)%N.

(** The checks that DispatchCommand makes before the arity check all pass:
    the server is neither loading nor shutting down, the connection is not
    waiting for AUTH (or the command is AUTH), the command is not a
    NOSCRIPT command under a script, and it is not a write on a replica. *)
Definition reaches_arity_check (c : CommandId) (w : World) : bool :=
  match gstate (etl w) with
  | ACTIVE =>
      negb ((N.land (mask (cstate w))
                    (N.lor ConnMask.REQ_AUTH ConnMask.AUTHENTICATED)
             =? ConnMask.REQ_AUTH)%N
            && negb (String.eqb (name c) "AUTH"))
      && negb (under_script w && has_flag (opt_mask c) CO.NOSCRIPT)
      && negb (negb (is_master (etl w))
               && (has_flag (opt_mask c) CO.WRITE
                   || (under_script w && script_is_write_now w)))
  | _ => false
  end.

(** The checks made before the NOSCRIPT check pass. *)
Definition reaches_script_check (c : CommandId) (w : World) : bool :=
  match gstate (etl w) with
  | ACTIVE =>
      negb ((N.land (mask (cstate w))
                    (N.lor ConnMask.REQ_AUTH ConnMask.AUTHENTICATED)
             =? ConnMask.REQ_AUTH)%N
            && negb (String.eqb (name c) "AUTH"))
  | _ => false
  end.

(** A string of exactly 40 hexadecimal digits. *)
Definition is_digest (s : string) : bool := (str_len s =? 40) && IsSHA s.

(** The script cache and the interpreter's function table hold bodies
    under their digests only (Eval and AddFunction are their writers). *)
Definition keyed_by_digest `{Externals} (m : gmap string string) : Prop :=
  forall k body, m !! k = Some body -> k = lua_sha1 body.

(** Every queued command carries the registry's descriptor for its name
    (the dispatcher queues what [registry_.Find] returned). *)
Definition queue_from_registry (reg : gmap string CommandId) (w : World) : Prop :=
  Forall (fun sc => reg !! name (descr sc) = Some (descr sc)) (exec_body (cstate w)).


(** The world in which EvalInternal starts the interpreter (line 715) and
    the one it is left in after the run (line 733). *)
Definition enter_script `{Externals} (keys : list string) (w : World) : World :=
  with_cntx (with_conn_state
    (set_script_info (Some {| keys := list_to_set keys;
                              is_write := script_is_write |}))) w.

Definition leave_script (w : World) : World :=
  with_cntx (with_conn_state (set_script_info None)) w.

(** The calls EvalInternal makes from the lock to the end of the run. *)
Definition run_calls (ea : EvalArgs.t) (inner : list Event) (res : RunResult)
  : list Event :=
  [Interp Lock;
   Interp (SetGlobalArray "KEYS" (EvalArgs.keys ea));
   Interp (SetGlobalArray "ARGV" (EvalArgs.args ea));
   Interp SetRedisFunc;
   RunFunction (EvalArgs.sha ea) inner res].

Definition when_keys (ea : EvalArgs.t) (t : TxCall) : list Event :=
  if bool_decide (EvalArgs.keys ea = []) then [] else [Tx t].

Definition is_tx (e : Event) : bool :=
  match e with
  | Tx _ => true
  | _ => false
  end.

(** What the properties on scripts take for granted about the command
    families: their descriptors carry their own handlers, and their
    handlers leave the connection's script context and MULTI queue alone. *)
Definition families_well_behaved `{Externals} : Prop :=
  (forall c, c ∈ family_commands -> exists tag, handler c = HFamily tag)
  /\ (forall tag args w w' evs,
        family_invoke tag args w = Some (w', evs) ->
        script_info (cstate w') = script_info (cstate w)
        /\ exec_body (cstate w') = exec_body (cstate w)).

(** The assertion of EvalInternal on its entry (line 710). *)
Definition script_info_assertion : Failure :=
  DCheckFailed "!cntx->conn_state.script_info".

(** [m], started in [w], does not stop on the assertion of line 710, and
    if it returns it leaves a world in [Q]. *)
Definition safe {A} (m : Cmd A) (w : World) (Q : World -> Prop) : Prop :=
  match m w with
  | Fail f => f <> script_info_assertion
  | Done _ w' _ => Q w'
  end.

(** The state of a connection between commands ([in_script = false]) or
    inside a script's [redis.call] ([in_script = true]). *)
Definition conn_inv (reg : gmap string CommandId) (in_script : bool) (w : World)
  : Prop :=
  queue_from_registry reg w /\ under_script w = in_script.

(** The handlers that start a script or run the queue are bound to
    NOSCRIPT commands only. *)
Definition handler_ok (c : CommandId) : Prop :=
  match handler c with
  | HEval | HEvalSha | HExec => has_flag (opt_mask c) CO.NOSCRIPT = true
  | _ => True
  end.

(** ** A small instance of the collaborators, to run the model on *)

Module Sample.

Definition parse_decimal (s : string) : option Z :=
  match NilEmpty.uint_of_string s with
  | Some u => Some (Z.of_N (N.of_uint u))
  | None => None
  end.

Definition families : list CommandId :=
  [ CI "SET" CO.WRITE (-3) 1 1 1 (HFamily "SET") None;
    CI "GET" (N.lor CO.READONLY CO.FAST) 2 1 1 1 (HFamily "GET") None;
    CI "SELECT" CO.FAST 2 0 0 0 (HFamily "SELECT") None ].

Definition invoke_family (tag : string) (args : list string) (w : World)
  : option (World * list Event) :=
  if String.eqb tag "GET" then Some (w, [Reply (SendBulkString "v")])
  else Some (w, [Reply SendOk]).

Definition digest_a : string := "aaaaaaaaaaaaaaaaaaaaaaaaaaaaaaaaaaaaaaaa".
Definition digest_b : string := "bbbbbbbbbbbbbbbbbbbbbbbbbbbbbbbbbbbbbbbb".

Definition sha1 (body : string) : string :=
  if String.eqb body "error('boom')" then digest_b else digest_a.

(** Every function reads its first key with GET; the one registered
    under [digest_b] then fails, the others return what GET answered. *)
Definition run (fns : gmap string string) (sha : string)
  (keys args : list string) : Script :=
  ScriptCall ("get" :: take 1 keys) (fun answer =>
    if String.eqb sha digest_b then ScriptDone RUN_ERR "boom" true []
    else ScriptDone RUN_OK "" true answer).

Definition ext : Externals := {|
  debug_build := true;
  kInvalidIntErr := "value is not an integer or out of range";
  kScriptNotFound := "-NOSCRIPT No matching script. Please use EVAL.";
  WrongNumArgsError := fun c => "wrong number of arguments for '" +:+ c +:+ "' command";
  GlobalState_Name := fun g =>
    match g with
    | ACTIVE => "ACTIVE"
    | LOADING => "LOADING"
    | SHUTTING_DOWN => "SHUTTING DOWN"
    end;
  SimpleAtoi_int32 := parse_decimal;
  SimpleAtoi_uint32 := parse_decimal;
  family_commands := families;
  family_validate := fun _ _ _ => (true, []);
  family_invoke := invoke_family;
  DetermineKeys := fun c args =>
    if 0 <? first_key_pos c then (Z.to_nat (first_key_pos c), S (Z.to_nat (last_key_pos c)))
    else (0%nat, 0%nat);
  unique_shard_cnt := fun _ => 1;
  txid := fun _ => 7;
  IsOOO := fun _ => false;
  GetError := fun _ _ => false;
  StatsMC := fun _ w => Some (w, [Reply (SendDirect "END")]);
  VersionString := "0.1";
  script_is_write := true;
  lua_sha1 := sha1;
  lua_compile_error := fun _ => None;
  lua_run := run;
  replier_inherited := fun r st =>
    match r with
    | SendOk => Replier.SendSimpleString "OK" st
    | _ => ([], st)
    end
|}.

Definition registry : gmap string CommandId :=
  Eval vm_compute in default ∅ (RegisterCommands (H := ext)).

Definition cs0 : ConnectionState := {|
  db_index := 0; mask := 0; exec_state := EXEC_INACTIVE; exec_body := [];
  script_info := None; memcache_flag := 0
|}.

Definition cx0 : ConnectionContext := {|
  conn_state := cs0; transaction := None; cid := None;
  last_command_debug := {| shards_count := 0; clock := 0; is_ooo := false |};
  protocol := REDIS
|}.

(** A fresh connection on an active master with nothing cached. *)
Definition w0 : World := {|
  cntx := cx0;
  etl := {| gstate := ACTIVE; is_master := true; interpreter := ∅ |};
  script_mgr := ∅
|}.

(** The same connection after MULTI. *)
Definition w_multi : World :=
  with_cntx (with_conn_state (set_exec_state EXEC_COLLECT)) w0.

(** The same connection while the server is loading. *)
Definition w_loading : World :=
  {| cntx := cntx w0;
     etl := {| gstate := LOADING; is_master := true; interpreter := ∅ |};
     script_mgr := ∅ |}.

(** A connection inside a script that declared the key x, its
    transaction in place. *)
Definition in_script (w : World) : World :=
  with_cntx (fun cx =>
    set_transaction (Some {| tx_cid := EVAL_cid; tx_init := None |})
      (with_conn_state
         (set_script_info (Some {| keys := {["x"]}; is_write := true |})) cx)) w.

(** A world whose interpreter knows the two sample functions. *)
Definition w_loaded : World :=
  set_interpreter (<[digest_b := "error('boom')"]> (<[digest_a := "return 1"]> ∅))
    (with_cntx (set_transaction (Some {| tx_cid := EVAL_cid; tx_init := None |})) w0).

End Sample.

(** ** Runs of several commands on one connection *)

Definition with_exec_state (s : ExecState) (w : World) : World :=
  with_cntx (with_conn_state (set_exec_state s)) w.

(** The connection after EXEC discarded its transaction (lines 763-764). *)
Definition discarded (w : World) : World :=
  with_cntx (with_conn_state (fun cs =>
    set_exec_body [] (set_exec_state EXEC_INACTIVE cs))) w.

(** The commands [cmds], dispatched one after the other. *)
Fixpoint dispatch_all `{Ext : Externals} (reg : gmap string CommandId)
  (fuel : nat) (cmds : list (list string)) : Cmd unit :=
  match cmds with
  | [] => ret tt
  | argv :: rest => Dispatch reg fuel argv ;; dispatch_all reg fuel rest
  end.

(** ** Notions used by the further properties *)

(** ** A reply as a tree

    What a command handler sends for one reply: a leaf, or StartArray(n)
    followed by the n items of the array. *)
Inductive ReplyItem : Type :=
| ItemNull
| ItemLong (val : Z)
| ItemDouble (val : float)
| ItemBulk (str : string)
| ItemSimple (str : string)
| ItemArray (items : list ReplyItem).

(** The reply-builder calls that send an item. *)
Fixpoint item_calls (t : ReplyItem) : list ReplyCall :=
  match t with
  | ItemNull => [SendNull]
  | ItemLong val => [SendLong val]
  | ItemDouble val => [SendDouble val]
  | ItemBulk str => [SendBulkString str]
  | ItemSimple str => [SendSimpleString str]
  | ItemArray items =>
      StartArray (Z.of_nat (length items)) :: flat_map item_calls items
  end.

(** The explorer callbacks that describe an item: an array is bracketed by
    OnArrayStart and OnArrayEnd; a simple string is a status at the top
    level and a string inside an array. *)
Fixpoint item_events (nested : bool) (t : ReplyItem) : list ExplorerEvent :=
  match t with
  | ItemNull => [OnNil]
  | ItemLong val => [OnInt val]
  | ItemDouble val => [OnDouble val]
  | ItemBulk str => [OnString str]
  | ItemSimple str => [if nested then OnString str else OnStatus str]
  | ItemArray items =>
      OnArrayStart (Z.of_nat (length items))
      :: flat_map (item_events true) items ++ [OnArrayEnd]
  end.

(** Every array length fits [unsigned]. *)
Fixpoint item_fits (t : ReplyItem) : bool :=
  match t with
  | ItemArray items =>
      (Z.of_nat (length items) <? 2 ^ 32) && forallb item_fits items
  | _ => true
  end.

(** The InterpreterReplier driven by a sequence of reply calls. *)
Definition replier_calls `{Externals} (calls : list ReplyCall) (st : Replier.t)
  : list ExplorerEvent * Replier.t :=
  replier_run (map Reply calls) st.

Definition has_frame (st : Replier.t) : bool :=
  match Replier.array_len_ st with
  | [] => false
  | _ :: _ => true
  end.

(** An item behaves like a leaf: its callbacks, then PostItem. *)
Definition delivered `{Externals} (t : ReplyItem) : Prop :=
  item_fits t = true ->
  forall st,
    replier_calls (item_calls t) st
    = (item_events (has_frame st) t ++ fst (Replier.PostItem st),
       snd (Replier.PostItem st)).


(** The two callbacks EvalSerializer does not implement. *)
Definition is_array_event (e : ExplorerEvent) : bool :=
  match e with
  | OnArrayStart _ | OnArrayEnd => true
  | _ => false
  end.

(** The connection with its MULTI queue replaced. *)
Definition with_queue (body : list StoredCmd) (w : World) : World :=
  with_cntx (with_conn_state (set_exec_body body)) w.

(** [argv] passes the checks of the dispatcher on [w] whatever is queued,
    and [sc] is what the dispatcher stores for it. *)
Definition queueable `{Externals} (reg : gmap string CommandId) (w : World)
  (argv : list string) (sc : StoredCmd) : Prop :=
  exists a rest,
    argv = a :: rest
    /\ is_trans_cmd (ToUpper a) = false
    /\ cmd sc = ToUpper a :: rest
    /\ forall q, checks reg (ToUpper a :: rest) (with_queue q w) = ([], Some (descr sc)).

(** * Properties *)

(** ** The command monad *)

Lemma bind_Done {A B} (m : Cmd A) (k : A -> Cmd B) w a w1 evs1 :
  m w = Done a w1 evs1 ->
  bind m k w =
    match k a w1 with
    | Fail f => Fail f
    | Done b w2 evs2 => Done b w2 (evs1 ++ evs2)
    end.
Proof. intros E. unfold bind. now rewrite E. Qed.

Lemma bind_Fail {A B} (m : Cmd A) (k : A -> Cmd B) w f :
  m w = Fail f -> bind m k w = Fail f.
Proof. intros E. unfold bind. now rewrite E. Qed.

Lemma bind_inv {A B} (m : Cmd A) (k : A -> Cmd B) w b w2 evs :
  bind m k w = Done b w2 evs ->
  exists a w1 evs1 evs2,
    m w = Done a w1 evs1 /\ k a w1 = Done b w2 evs2 /\ evs = evs1 ++ evs2.
Proof.
  unfold bind. destruct (m w) as [a w1 evs1|f]; [|discriminate].
  destruct (k a w1) as [b' w2' evs2|f] eqn:E; [|discriminate].
  intros [= -> -> <-]. eauto 8.
Qed.

Lemma bind_get {B} (k : World -> Cmd B) w : bind get k w = k w w.
Proof. unfold bind, get. destruct (k w w); reflexivity. Qed.

Lemma bind_ret {A B} (a : A) (k : A -> Cmd B) w : bind (ret a) k w = k a w.
Proof. unfold bind, ret. destruct (k a w); reflexivity. Qed.

Lemma bind_modify {B} (f : World -> World) (k : unit -> Cmd B) w :
  bind (modify f) k w = k tt (f w).
Proof. unfold bind, modify. destruct (k tt (f w)); reflexivity. Qed.

Lemma bind_emit {B} (evs : list Event) (k : unit -> Cmd B) w :
  bind (emit evs) k w =
    match k tt w with
    | Fail f => Fail f
    | Done b w2 evs2 => Done b w2 (evs ++ evs2)
    end.
Proof. reflexivity. Qed.

Lemma String_eqb_empty (s : string) : s <> EmptyString -> String.eqb s "" = false.
Proof. intros H. now apply String.eqb_neq. Qed.

(** ** InterpreterReplier *)

Lemma PostItem_loop_unwinds stack : forall num,
  Replier.unwinds num stack (fst (Replier.PostItem_loop num stack))
                  (snd (Replier.PostItem_loop num stack)).
Proof.
  induction stack as [|[saved target] rest IH]; intros num; simpl.
  - constructor.
  - destruct (Z.eqb_spec num target) as [->|Hne].
    + specialize (IH saved).
      destruct (Replier.PostItem_loop saved rest) as [evs r]. simpl in *.
      now constructor.
    + simpl. now constructor.
Qed.

(** The unwinding relation determines the events and the state left. *)
Lemma unwinds_deterministic num stack evs r :
  Replier.unwinds num stack evs r ->
  forall evs' r', Replier.unwinds num stack evs' r' -> evs = evs' /\ r = r'.
Proof.
  induction 1 as [num|num saved target rest Hne|num saved rest evs r _ IH];
    intros evs' r' H'; inversion H'; subst; try tauto.
  destruct (IH _ _ ltac:(eassumption)) as [-> ->]. tauto.
Qed.

(** One OnArrayEnd per frame popped, and the frame left on top, if any,
    is not full. *)
Lemma unwinds_pops num stack evs r :
  Replier.unwinds num stack evs r ->
  exists popped,
    stack = popped ++ Replier.array_len_ r
    /\ evs = map (fun _ => OnArrayEnd) popped
    /\ match Replier.array_len_ r with
       | [] => True
       | (_, target) :: _ => Replier.num_elems_ r <> target
       end.
Proof.
  induction 1 as [num|num saved target rest Hne|num saved rest evs r _ IH].
  - now exists [].
  - now exists [].
  - destruct IH as (popped & -> & -> & Htop).
    now exists ((saved, num) :: popped).
Qed.

(** C8: in InterpreterReplier, StartArray(0) emits OnArrayStart
    immediately followed by OnArrayEnd (and then counts the empty array as
    an item); StartArray(len) with len > 0 pushes the frame
    (num_elems_ + 1, len) and resets the counter to zero; every leaf writer
    emits its callback and then runs PostItem; and PostItem, with a frame on
    the stack, increments the counter and unwinds: while the counter equals
    the top frame's target an OnArrayEnd is emitted, the frame is popped,
    the counter becomes the saved one, and unwinding goes on with the
    enclosing frame. *)
Theorem InterpreterReplier_array_frames :
  (forall r,
     Replier.StartArray 0 r =
       (OnArrayStart 0 :: OnArrayEnd :: fst (Replier.PostItem r),
        snd (Replier.PostItem r)))
  /\ (forall len r, len <> 0 ->
        Replier.StartArray len r =
          ([OnArrayStart len],
           Replier.mk ((u32 (Replier.num_elems_ r + 1), len) :: Replier.array_len_ r) 0))
  /\ (forall r,
        Replier.SendNull r
        = (OnNil :: fst (Replier.PostItem r), snd (Replier.PostItem r)))
  /\ (forall val r,
        Replier.SendLong val r
        = (OnInt val :: fst (Replier.PostItem r), snd (Replier.PostItem r)))
  /\ (forall val r,
        Replier.SendDouble val r
        = (OnDouble val :: fst (Replier.PostItem r), snd (Replier.PostItem r)))
  /\ (forall str r,
        Replier.SendBulkString str r
        = (OnString str :: fst (Replier.PostItem r), snd (Replier.PostItem r)))
  /\ (forall str r, Replier.array_len_ r <> [] ->
        Replier.SendSimpleString str r
        = (OnString str :: fst (Replier.PostItem r), snd (Replier.PostItem r)))
  /\ (forall r, Replier.array_len_ r <> [] ->
        Replier.unwinds (u32 (Replier.num_elems_ r + 1)) (Replier.array_len_ r)
                        (fst (Replier.PostItem r)) (snd (Replier.PostItem r))).
Proof.
  repeat split.
  - intros r. unfold Replier.StartArray, Replier.after. simpl.
    now destruct (Replier.PostItem r).
  - intros len r Hlen. unfold Replier.StartArray.
    now destruct (Z.eqb_spec len 0).
  - intros r. unfold Replier.SendNull, Replier.after.
    now destruct (Replier.PostItem r).
  - intros val r. unfold Replier.SendLong, Replier.after.
    now destruct (Replier.PostItem r).
  - intros val r. unfold Replier.SendDouble, Replier.after.
    now destruct (Replier.PostItem r).
  - intros str r. unfold Replier.SendBulkString, Replier.after.
    now destruct (Replier.PostItem r).
  - intros str r Hne. unfold Replier.SendSimpleString, Replier.after.
    destruct (Replier.array_len_ r) eqn:E; [congruence|].
    now destruct (Replier.PostItem r).
  - intros r Hne. unfold Replier.PostItem.
    destruct (Replier.array_len_ r) as [|f rest] eqn:E; [congruence|].
    apply PostItem_loop_unwinds.
Qed.

(** Writing the third item of the inner array [[_, _, _]] that is itself
    the sixth item of its parent closes both. *)
Lemma InterpreterReplier_array_frames_witness :
  Replier.StartArray 3 (Replier.mk [(0, 6)] 5)
  = ([OnArrayStart 3], Replier.mk [(6, 3); (0, 6)] 0)
  /\ Replier.unwinds 3 [(6, 3); (0, 6)] [OnArrayEnd; OnArrayEnd] (Replier.mk [] 0).
Proof.
  destruct InterpreterReplier_array_frames as (_ & Hpush & _ & _ & _ & _ & _ & Hpost).
  split.
  - apply (Hpush 3 (Replier.mk [(0, 6)] 5)). discriminate.
  - apply (Hpost (Replier.mk [(6, 3); (0, 6)] 2)). discriminate.
Defined.

(** ** The Memcached adapter *)

(** The key slot exists only for a command that carries a key (line 528):
    a Command record of type REPLACE with an empty key, which no memcached
    command line produces, would give SET, value, XX. *)
Remark mc_args_without_key :
  let mc := {| MemcacheParser.type := MemcacheParser.REPLACE;
               MemcacheParser.key := ""; MemcacheParser.keys_ext := [];
               MemcacheParser.delta := 0; MemcacheParser.expire_ts := 0;
               MemcacheParser.flags := 0 |} in
  mc_args mc "v" "SET" "XX" = ["SET"; "v"; "XX"].
Proof. reflexivity. Qed.

(** C7: for a Memcached REPLACE command (it carries a key), DispatchMC
    synthesizes the argv SET, key, value, XX, followed by EX and the decimal
    expire timestamp exactly when that timestamp is not zero -- command
    name, key, value, store option, then the expiry pair -- and passes that
    argv to DispatchCommand (between storing the command's flags in
    memcache_flag and resetting them to zero). *)
Theorem DispatchMC_replace `{Ext : Externals} reg inv
  (mc : MemcacheParser.Command) (value : string) :
  MemcacheParser.type mc = MemcacheParser.REPLACE ->
  MemcacheParser.key mc <> "" ->
  let argv :=
    ["SET"; MemcacheParser.key mc; value; "XX"]
    ++ (if MemcacheParser.expire_ts mc =? 0 then []
        else ["EX"; FastIntToBuffer (MemcacheParser.expire_ts mc)]) in
  mc_switch mc = inl ("SET", "XX")
  /\ mc_args mc value "SET" "XX" = argv
  /\ DispatchMC reg inv mc value
     = (modify_conn (set_memcache_flag (MemcacheParser.flags mc)) ;;
        DispatchCommand reg inv argv ;;
        modify_conn (set_memcache_flag 0)).
Proof.
  intros Htype Hkey argv.
  assert (Hsw : mc_switch mc = inl ("SET", "XX")).
  { unfold mc_switch. now rewrite Htype. }
  assert (Hargs : mc_args mc value "SET" "XX" = argv).
  { unfold mc_args, argv. rewrite Htype, (String_eqb_empty _ Hkey).
    simpl. now destruct (MemcacheParser.expire_ts mc =? 0). }
  repeat split; [exact Hsw|exact Hargs|].
  unfold DispatchMC. rewrite Hsw, Hargs, Htype. reflexivity.
Qed.

Lemma DispatchMC_replace_witness :
  let mc := {| MemcacheParser.type := MemcacheParser.REPLACE;
               MemcacheParser.key := "k"; MemcacheParser.keys_ext := [];
               MemcacheParser.delta := 0; MemcacheParser.expire_ts := 30;
               MemcacheParser.flags := 5 |} in
  mc_args mc "v" "SET" "XX" = ["SET"; "k"; "v"; "XX"; "EX"; "30"].
Proof.
  intros mc.
  refine (proj1 (proj2 (DispatchMC_replace (Ext := Sample.ext) Sample.registry
                          (InvokeN (Ext := Sample.ext) Sample.registry 1)
                          mc "v" _ _))).
  - reflexivity.
  - discriminate.
Defined.

(** ** The dispatcher *)

Section Dispatcher.

Context `{Ext : Externals}.
Variable reg : gmap string CommandId.
Variable inv : CommandId -> list string -> Cmd unit.

Lemma poison_exec_state w :
  exec_state (cstate (poison w))
  = if exec_inactive (exec_state (cstate w)) then EXEC_INACTIVE else EXEC_ERROR.
Proof.
  unfold poison, cstate. simpl.
  destruct (exec_state (conn_state (cntx w))) eqn:E; simpl; congruence.
Qed.

Lemma poison_keeps w :
  transaction (cntx (poison w)) = transaction (cntx w)
  /\ exec_body (cstate (poison w)) = exec_body (cstate w)
  /\ script_info (cstate (poison w)) = script_info (cstate w).
Proof.
  unfold poison, cstate. simpl.
  destruct (exec_inactive (exec_state (conn_state (cntx w)))); repeat split.
Qed.

(** An error return: the replies are written and the cleanup runs. *)
Lemma DispatchCommand_rejected a rest w written :
  checks reg (ToUpper a :: rest) w = (written, None) ->
  DispatchCommand reg inv (a :: rest) w = Done tt (poison w) (map Reply written).
Proof.
  intros Hc. unfold DispatchCommand. simpl upper_first.
  unfold CHECK. simpl. rewrite bind_ret, bind_get, Hc.
  unfold bind, emit, multi_error, modify. now rewrite app_nil_r.
Qed.

(** The checks passed: the cleanup is cancelled and lines 412-467 run. *)
Lemma DispatchCommand_accepted a rest w written c :
  checks reg (ToUpper a :: rest) w = (written, Some c) ->
  DispatchCommand reg inv (a :: rest) w
  = (emit (map Reply written) ;;
     run_checked inv c (ToUpper a :: rest) (is_trans_cmd (ToUpper a)) (under_script w)) w.
Proof.
  intros Hc. unfold DispatchCommand. simpl upper_first.
  unfold CHECK. simpl. now rewrite bind_ret, bind_get, Hc.
Qed.

Lemma checks_unknown a rest w :
  reg !! ToUpper a = None ->
  checks reg (ToUpper a :: rest) w
  = ([SendError ("unknown command `" +:+ ToUpper a +:+ "`")], None).
Proof.
  intros H. unfold checks.
  change (ArgS (ToUpper a :: rest) 0) with (ToUpper a). now rewrite H.
Qed.

Lemma wrong_arity_spec c (args : list string) :
  wrong_arity c args = true <->
  (0 < arity c /\ Z.of_nat (length args) <> arity c)
  \/ (arity c < 0 /\ Z.of_nat (length args) < - arity c).
Proof.
  unfold wrong_arity.
  rewrite orb_true_iff, !andb_true_iff, negb_true_iff, Z.eqb_neq, !Z.ltb_lt.
  tauto.
Qed.

(** With a wrong argument count the checks end in an error return that
    writes one error; it is the wrong-arguments error when the earlier
    checks let the command through. *)
Lemma checks_wrong_arity a rest w c :
  reg !! ToUpper a = Some c ->
  wrong_arity c (ToUpper a :: rest) = true ->
  exists err,
    checks reg (ToUpper a :: rest) w = ([SendError err], None)
    /\ (reaches_arity_check c w = true -> err = WrongNumArgsError (ToUpper a)).
Proof.
  intros Hreg Har. unfold checks, reaches_arity_check.
  change (ArgS (ToUpper a :: rest) 0) with (ToUpper a). rewrite Hreg.
  destruct (gstate (etl w)); [|eexists; split; [reflexivity|discriminate]..].
  destruct ((N.land _ _ =? _)%N && _); [eexists; split; [reflexivity|discriminate]|].
  destruct (under_script w && has_flag _ _);
    [eexists; split; [reflexivity|discriminate]|].
  destruct (negb (is_master (etl w)) && _);
    [eexists; split; [reflexivity|discriminate]|].
  rewrite Har. eexists; split; reflexivity.
Qed.

(** With a wrong argument count the error written is that of the first
    check that fails, in the order of lines 354-387. *)
Lemma checks_wrong_arity_first a rest w c :
  reg !! ToUpper a = Some c ->
  wrong_arity c (ToUpper a :: rest) = true ->
  let no_auth := auth_pending w && negb (String.eqb (name c) "AUTH") in
  let no_script := under_script w && has_flag (opt_mask c) CO.NOSCRIPT in
  let read_only :=
    negb (is_master (etl w))
    && (has_flag (opt_mask c) CO.WRITE || (under_script w && script_is_write_now w)) in
  exists err,
    checks reg (ToUpper a :: rest) w = ([SendError err], None)
    /\ (reaches_arity_check c w = true -> err = WrongNumArgsError (ToUpper a))
    /\ (gstate (etl w) <> ACTIVE ->
        err = "Can not execute during " +:+ GlobalState_Name (gstate (etl w)))
    /\ (gstate (etl w) = ACTIVE -> no_auth = true ->
        err = "-NOAUTH Authentication required.")
    /\ (gstate (etl w) = ACTIVE -> no_auth = false -> no_script = true ->
        err = "This Redis command is not allowed from script")
    /\ (gstate (etl w) = ACTIVE -> no_auth = false -> no_script = false ->
        read_only = true ->
        err = "-READONLY You can't write against a read only replica.")
    /\ (gstate (etl w) = ACTIVE -> no_auth = false -> no_script = false ->
        read_only = false ->
        reaches_arity_check c w = true).
Proof.
  intros Hreg Har. cbv zeta. unfold checks, reaches_arity_check, auth_pending.
  change (ArgS (ToUpper a :: rest) 0) with (ToUpper a). rewrite Hreg.
  destruct (gstate (etl w)) eqn:Eg.
  2,3: eexists; split; [reflexivity|];
       repeat split; try discriminate; try congruence; reflexivity.
  destruct ((N.land _ _ =? _)%N && _) eqn:Ea.
  { eexists; split; [reflexivity|]. repeat split; try discriminate; congruence. }
  destruct (under_script w && has_flag _ _) eqn:Es.
  { eexists; split; [reflexivity|]. repeat split; try discriminate; congruence. }
  destruct (negb (is_master (etl w)) && _) eqn:Er.
  { eexists; split; [reflexivity|]. repeat split; try discriminate; congruence. }
  rewrite Har. eexists; split; [reflexivity|].
  repeat split; try discriminate; try congruence; reflexivity.
Qed.

End Dispatcher.

(** C6, as stated, fails on the quoting: the name is put between
    backquotes, not single quotes. *)
Lemma unknown_command_is_backquoted :
  DispatchCommand (Ext := Sample.ext) Sample.registry
    (InvokeN (Ext := Sample.ext) Sample.registry 1) ["DOESNOTEXIST"] Sample.w_multi
  = Done tt (poison Sample.w_multi)
         [Reply (SendError "unknown command `DOESNOTEXIST`")]
  /\ "unknown command `DOESNOTEXIST`" <> "unknown command 'DOESNOTEXIST'".
Proof. split; [vm_compute; reflexivity|discriminate]. Qed.

(** C6, amended: for every argv whose uppercased first element is absent
    from the registry, DispatchCommand writes the error
    unknown command `NAME` -- the uppercased name between backquotes -- and
    returns without calling any handler (having run the cleanup that
    poisons an open MULTI). *)
Theorem unknown_command `{Ext : Externals} reg inv a rest w :
  reg !! ToUpper a = None ->
  DispatchCommand reg inv (a :: rest) w
  = Done tt (poison w)
         [Reply (SendError ("unknown command `" +:+ ToUpper a +:+ "`"))].
Proof.
  intros H. now rewrite (DispatchCommand_rejected _ _ _ _ _ _ (checks_unknown _ _ _ _ H)).
Qed.

Lemma unknown_command_witness :
  DispatchCommand (Ext := Sample.ext) Sample.registry
    (InvokeN (Ext := Sample.ext) Sample.registry 1) ["ping"; "x"] Sample.w0
  = Done tt (poison Sample.w0) [Reply (SendError "unknown command `PING`")].
Proof.
  apply (unknown_command (Ext := Sample.ext) Sample.registry _ "ping" ["x"] Sample.w0).
  vm_compute. reflexivity.
Defined.

(** C3, as stated, fails where an earlier check rejects the command: while
    the server is loading, QUIT with two arguments gets the loading error,
    not the wrong-arguments error. *)
Lemma wrong_arity_while_loading :
  Sample.registry !! "QUIT" = Some QUIT_cid
  /\ arity QUIT_cid = 1
  /\ DispatchCommand (Ext := Sample.ext) Sample.registry
       (InvokeN (Ext := Sample.ext) Sample.registry 1) ["QUIT"; "now"] Sample.w_loading
     = Done tt Sample.w_loading [Reply (SendError "Can not execute during LOADING")]
  /\ "Can not execute during LOADING"
     <> WrongNumArgsError (Externals := Sample.ext) "QUIT".
Proof. repeat split; try (vm_compute; reflexivity). discriminate. Qed.

(** C3, amended: for every registered command and every argv whose length
    differs from a positive arity, or is below the absolute value of a
    negative arity, DispatchCommand writes exactly one error and does not
    call the handler; the error is the canonical wrong-number-of-arguments
    error whenever the checks made before the arity check pass (server
    neither loading nor shutting down, authentication not pending unless
    the command is AUTH, not a NOSCRIPT command under a script, not a write
    on a replica); otherwise it is the error of the first of those checks
    that fails: Can not execute during <state> while loading or shutting
    down, else -NOAUTH when authentication is pending, else the
    not-allowed-from-script error for a NOSCRIPT command under a script,
    else -READONLY for a write on a replica.  One of the five cases always
    applies. *)
Theorem wrong_arity_rejected `{Ext : Externals} reg inv a rest w c :
  reg !! ToUpper a = Some c ->
  (0 < arity c /\ Z.of_nat (length (a :: rest)) <> arity c)
  \/ (arity c < 0 /\ Z.of_nat (length (a :: rest)) < - arity c) ->
  let no_auth := auth_pending w && negb (String.eqb (name c) "AUTH") in
  let no_script := under_script w && has_flag (opt_mask c) CO.NOSCRIPT in
  let read_only :=
    negb (is_master (etl w))
    && (has_flag (opt_mask c) CO.WRITE || (under_script w && script_is_write_now w)) in
  exists err,
    DispatchCommand reg inv (a :: rest) w = Done tt (poison w) [Reply (SendError err)]
    /\ (reaches_arity_check c w = true -> err = WrongNumArgsError (ToUpper a))
    /\ (gstate (etl w) <> ACTIVE ->
        err = "Can not execute during " +:+ GlobalState_Name (gstate (etl w)))
    /\ (gstate (etl w) = ACTIVE -> no_auth = true ->
        err = "-NOAUTH Authentication required.")
    /\ (gstate (etl w) = ACTIVE -> no_auth = false -> no_script = true ->
        err = "This Redis command is not allowed from script")
    /\ (gstate (etl w) = ACTIVE -> no_auth = false -> no_script = false ->
        read_only = true ->
        err = "-READONLY You can't write against a read only replica.")
    /\ (gstate (etl w) = ACTIVE -> no_auth = false -> no_script = false ->
        read_only = false ->
        reaches_arity_check c w = true).
Proof.
  intros Hreg Har.
  assert (Har' : wrong_arity c (ToUpper a :: rest) = true)
    by now apply wrong_arity_spec.
  destruct (checks_wrong_arity_first reg a rest w c Hreg Har') as (err & Hc & Herr).
  exists err. split; [|exact Herr].
  now rewrite (DispatchCommand_rejected _ _ _ _ _ _ Hc).
Qed.

Lemma wrong_arity_rejected_witness :
  exists err,
    DispatchCommand (Ext := Sample.ext) Sample.registry
      (InvokeN (Ext := Sample.ext) Sample.registry 1) ["get"] Sample.w0
    = Done tt (poison Sample.w0) [Reply (SendError err)]
    /\ err = WrongNumArgsError (Externals := Sample.ext) (ToUpper "get").
Proof.
  destruct (wrong_arity_rejected (Ext := Sample.ext) Sample.registry
              (InvokeN (Ext := Sample.ext) Sample.registry 1) "get" [] Sample.w0
              (CI "GET" 3 2 1 1 1 (HFamily "GET") None))
    as (err & Hd & He & _).
  - vm_compute. reflexivity.
  - left. simpl. lia.
  - exists err. split; [exact Hd|]. apply He. reflexivity.
Defined.

(** ** The registry built by RegisterCommands *)

Section Registry.

Context `{Ext : Externals}.

Lemma register_None l : foldl register None l = None.
Proof. induction l; simpl; auto. Qed.

Lemma register_fold l : forall m reg,
  foldl register (Some m) l = Some reg ->
  m ⊆ reg
  /\ forall k c, reg !! k = Some c -> m !! k = Some c \/ (c ∈ l /\ name c = k).
Proof.
  induction l as [|d l IH]; intros m reg H; simpl in H.
  - injection H as <-. split; [reflexivity|auto].
  - destruct (m !! name d) eqn:E; [now rewrite register_None in H|].
    destruct (IH _ _ H) as [Hsub Hel]. split.
    + etransitivity; [|exact Hsub]. now apply insert_subseteq.
    + intros k c Hk. destruct (Hel k c Hk) as [Hin|[Hin Hn]].
      * rewrite lookup_insert in Hin. case_decide as Hd.
        -- injection Hin as <-. right. split; [left|congruence].
        -- now left.
      * right. split; [now right|exact Hn].
Qed.

(** The five commands of this file keep their descriptors, whatever the
    families register. *)
Lemma RegisterCommands_service reg c :
  RegisterCommands = Some reg ->
  c ∈ service_commands ->
  reg !! name c = Some c.
Proof.
  unfold RegisterCommands. rewrite foldl_app.
  destruct (foldl register (Some ∅) service_commands) as [m|] eqn:E;
    [|now rewrite register_None].
  intros H Hc. apply register_fold in H as [Hsub _].
  eapply lookup_weaken; [|exact Hsub].
  vm_compute in E. injection E as <-.
  unfold service_commands in Hc.
  repeat (apply elem_of_cons in Hc as [->|Hc]; [vm_compute; reflexivity|]).
  now apply elem_of_nil in Hc.
Qed.

(** Every registered descriptor is one of the five or a family's, and is
    registered under its own name. *)
Lemma RegisterCommands_lookup reg k c :
  RegisterCommands = Some reg ->
  reg !! k = Some c ->
  name c = k /\ (c ∈ service_commands \/ c ∈ family_commands).
Proof.
  unfold RegisterCommands. intros H Hk.
  apply register_fold in H as [_ Hel].
  destruct (Hel k c Hk) as [Hin|[Hin Hn]]; [now rewrite lookup_empty in Hin|].
  split; [exact Hn|]. now apply elem_of_app in Hin.
Qed.

End Registry.

Lemma is_trans_cmd_spec s :
  is_trans_cmd s = true <-> s = "EXEC" \/ s = "MULTI".
Proof.
  unfold is_trans_cmd. rewrite orb_true_iff, !String.eqb_eq. tauto.
Qed.

(** For MULTI and EXEC the outcome of the checks does not depend on the
    MULTI state: the ADMIN and SELECT rejections are for other commands. *)
Lemma checks_trans_cmd `{Ext : Externals} reg a rest w s :
  RegisterCommands = Some reg ->
  is_trans_cmd (ToUpper a) = true ->
  checks reg (ToUpper a :: rest) (with_exec_state s w)
  = checks reg (ToUpper a :: rest) w.
Proof.
  intros Hreg Ht. unfold checks.
  change (ArgS (ToUpper a :: rest) 0) with (ToUpper a). rewrite Ht.
  assert (Hc : exists c, reg !! ToUpper a = Some c /\ validator c = None).
  { apply is_trans_cmd_spec in Ht as [-> | ->].
    - exists EXEC_cid. split; [|reflexivity].
      apply (RegisterCommands_service reg EXEC_cid Hreg). set_solver.
    - exists MULTI_cid. split; [|reflexivity].
      apply (RegisterCommands_service reg MULTI_cid Hreg). set_solver. }
  destruct Hc as (c & -> & Hv).
  unfold Validate. rewrite Hv. rewrite !andb_false_r. reflexivity.
Qed.

(** C2, as stated, fails: MULTI with a surplus argument, sent while the
    connection collects a transaction, takes the wrong-arity error return
    and the cleanup turns EXEC_COLLECT into EXEC_ERROR. *)
Lemma MULTI_poisons_exec_state :
  let w' := with_exec_state EXEC_ERROR Sample.w_multi in
  is_trans_cmd (ToUpper "MULTI") = true
  /\ exec_state (cstate Sample.w_multi) = EXEC_COLLECT
  /\ DispatchCommand (Ext := Sample.ext) Sample.registry
       (InvokeN (Ext := Sample.ext) Sample.registry 1) ["MULTI"; "now"] Sample.w_multi
     = Done tt w' [Reply (SendError "wrong number of arguments for 'MULTI' command")]
  /\ exec_state (cstate w') = EXEC_ERROR.
Proof. repeat split; vm_compute; reflexivity. Qed.

(** C2, amended: on every error-return path of DispatchCommand's checks,
    for every command name, MULTI and EXEC included, the deferred hook
    leaves exec_state at EXEC_INACTIVE if it was EXEC_INACTIVE and sets it
    to EXEC_ERROR otherwise.  What sets MULTI and EXEC apart is only that
    the outcome of their checks does not depend on exec_state: the ADMIN and
    SELECT rejections made under MULTI never apply to them. *)
Theorem error_return_poisons `{Ext : Externals} reg inv a rest w written :
  checks reg (ToUpper a :: rest) w = (written, None) ->
  DispatchCommand reg inv (a :: rest) w = Done tt (poison w) (map Reply written)
  /\ exec_state (cstate (poison w))
     = (if exec_inactive (exec_state (cstate w)) then EXEC_INACTIVE else EXEC_ERROR)
  /\ (RegisterCommands = Some reg -> is_trans_cmd (ToUpper a) = true ->
      forall s, checks reg (ToUpper a :: rest) (with_exec_state s w) = (written, None)).
Proof.
  intros Hc. split; [now apply DispatchCommand_rejected|].
  split; [apply poison_exec_state|].
  intros Hreg Ht s. now rewrite checks_trans_cmd.
Qed.

Lemma error_return_poisons_witness :
  DispatchCommand (Ext := Sample.ext) Sample.registry
    (InvokeN (Ext := Sample.ext) Sample.registry 1) ["exec"; "now"] Sample.w_multi
  = Done tt (poison Sample.w_multi)
      (map Reply [SendError "wrong number of arguments for 'EXEC' command"])
  /\ exec_state (cstate (poison Sample.w_multi)) = EXEC_ERROR.
Proof.
  destruct (error_return_poisons (Ext := Sample.ext) Sample.registry
              (InvokeN (Ext := Sample.ext) Sample.registry 1) "exec" ["now"]
              Sample.w_multi [SendError "wrong number of arguments for 'EXEC' command"])
    as (H1 & H2 & _).
  - vm_compute. reflexivity.
  - split; [exact H1|exact H2].
Defined.

(** ** The transaction pointer *)

Ltac bind_inv_in H :=
  repeat match type of H with
         | bind _ _ _ = Done _ _ _ =>
             apply bind_inv in H;
             let E := fresh "E" in
             destruct H as (? & ? & ? & ? & E & H & ?)
         end.

Lemma DCHECK_inv `{Ext : Externals} what cond w a w' evs :
  DCHECK what cond w = Done a w' evs -> w' = w.
Proof.
  unfold DCHECK. destruct debug_build; [|now intros [= _ <- _]].
  destruct cond; [now intros [= _ <- _]|discriminate].
Qed.

Ltac bind_inv_all :=
  repeat match goal with
         | H : bind _ _ _ = Done _ _ _ |- _ =>
             apply bind_inv in H;
             let E := fresh "E" in
             destruct H as (? & ? & ? & ? & E & H & ?)
         end.

(** Inversion of the state-only and log-only commands. *)
Ltac cmd_inj :=
  repeat match goal with
         | H : modify _ _ = Done _ _ _ |- _ => inversion H; subst; clear H
         | H : modify_cntx _ _ = Done _ _ _ |- _ => inversion H; subst; clear H
         | H : modify_conn _ _ = Done _ _ _ |- _ => inversion H; subst; clear H
         | H : emit _ _ = Done _ _ _ |- _ => inversion H; subst; clear H
         | H : send _ _ = Done _ _ _ |- _ => inversion H; subst; clear H
         | H : tx_call _ _ = Done _ _ _ |- _ => inversion H; subst; clear H
         | H : interp_call _ _ = Done _ _ _ |- _ => inversion H; subst; clear H
         | H : ret _ _ = Done _ _ _ |- _ => inversion H; subst; clear H
         | H : get _ = Done _ _ _ |- _ => inversion H; subst; clear H
         end.

Section TransactionPointer.

Context `{Ext : Externals}.
Variable reg : gmap string CommandId.
Variable inv : CommandId -> list string -> Cmd unit.

Lemma under_script_None w : script_info (cstate w) = None -> under_script w = false.
Proof. unfold under_script. now intros ->. Qed.

Lemma under_script_Some w si : script_info (cstate w) = Some si -> under_script w = true.
Proof. unfold under_script. now intros ->. Qed.

(** Outside a script the last act of the dispatcher is to null the
    pointer (line 465), whatever the handler did. *)
Lemma call_handler_clears c args dt w w' evs :
  call_handler inv c args dt false w = Done tt w' evs ->
  transaction (cntx w') = None.
Proof.
  unfold call_handler. intros H. bind_inv_in H.
  simpl in H. injection H as <- _. reflexivity.
Qed.

Lemma run_checked_clears c args trans w w' evs :
  transaction (cntx w) = None ->
  run_checked inv c args trans false w = Done tt w' evs ->
  transaction (cntx w') = None.
Proof.
  intros Ht H. unfold run_checked in H. rewrite bind_get in H.
  destruct (negb (exec_inactive (exec_state (cstate w))) && negb trans).
  - bind_inv_in H. injection H as <- _. injection E as _ <- _. exact Ht.
  - simpl in H. bind_inv_in H.
    destruct (IsTransactional c).
    + bind_inv_in H. now apply call_handler_clears in H.
    + bind_inv_in H. now apply call_handler_clears in H.
Qed.

End TransactionPointer.

(** C9: on a connection that is not executing a script (script_info
    absent), if ctx.transaction is null when DispatchCommand is entered then
    it is null again when DispatchCommand returns, on every path: the error
    returns, the QUEUED path, and the execution of a non-transactional or a
    transactional command (whose freshly built transaction is installed and
    then nulled out), whatever the handler does. *)
Theorem transaction_null_after_dispatch `{Ext : Externals} reg inv args w w' evs :
  script_info (cstate w) = None ->
  transaction (cntx w) = None ->
  DispatchCommand reg inv args w = Done tt w' evs ->
  transaction (cntx w') = None.
Proof.
  intros Hs Ht H. destruct args as [|a rest]; [discriminate|].
  destruct (checks reg (ToUpper a :: rest) w) as [written [c|]] eqn:Hc.
  - rewrite (DispatchCommand_accepted _ _ _ _ _ _ _ Hc) in H.
    rewrite (under_script_None _ Hs) in H.
    apply bind_inv in H as (? & w1 & ? & ? & E & H & _).
    injection E as _ <- _. now apply run_checked_clears in H.
  - rewrite (DispatchCommand_rejected _ _ _ _ _ _ Hc) in H.
    injection H as <- _. now rewrite (proj1 (poison_keeps w)).
Qed.

(** A transactional command (SET has a key) run to its end on a fresh
    connection. *)
Lemma transaction_null_after_dispatch_witness :
  exists w' evs,
    Dispatch (Ext := Sample.ext) Sample.registry 1 ["set"; "k"; "v"] Sample.w0
    = Done tt w' evs
    /\ transaction (cntx w') = None.
Proof.
  eexists _, _. split.
  - vm_compute. reflexivity.
  - eapply (transaction_null_after_dispatch (Ext := Sample.ext) Sample.registry
              (InvokeN (Ext := Sample.ext) Sample.registry 1) ["set"; "k"; "v"] Sample.w0).
    + reflexivity.
    + reflexivity.
    + vm_compute. reflexivity.
Defined.

(** ** MULTI / EXEC *)

Section MultiExec.

Context `{Ext : Externals}.
Variable reg : gmap string CommandId.

(** What the checks established when they let a command through. *)
Lemma checks_accepts args w written c :
  checks reg args w = (written, Some c) ->
  reg !! ArgS args 0 = Some c
  /\ gstate (etl w) = ACTIVE
  /\ under_script w && has_flag (opt_mask c) CO.NOSCRIPT = false.
Proof.
  unfold checks. destruct (reg !! ArgS args 0) as [c'|]; [|discriminate].
  destruct (gstate (etl w)); [|discriminate..].
  destruct ((N.land _ _ =? _)%N && _); [discriminate|].
  destruct (under_script w && has_flag _ _) eqn:Es; [discriminate|].
  destruct (negb (is_master (etl w)) && _); [discriminate|].
  destruct (wrong_arity c' args); [discriminate|].
  destruct ((key_arg_step c' =? 2) && _); [discriminate|].
  destruct (Validate c' args w) as [valid wr].
  destruct (negb valid); [discriminate|].
  destruct (_ && has_flag (opt_mask c') CO.ADMIN); [discriminate|].
  destruct (_ && (name c' =? "SELECT")%string); [discriminate|].
  intros [= _ <-]. auto.
Qed.

(** Exec on a poisoned transaction (lines 762-766): the state is reset,
    the queue cleared, the abort error written; no handler is called. *)
Lemma Exec_aborts inv exec_args w :
  exec_state (cstate w) = EXEC_ERROR ->
  Exec inv exec_args w
  = Done tt (discarded w)
      [Reply (SendError "-EXECABORT Transaction discarded because of previous errors")].
Proof.
  intros H. unfold Exec. rewrite bind_get, H. reflexivity.
Qed.

Lemma Multi_nested args w :
  exec_state (cstate w) = EXEC_ERROR ->
  Multi args w = Done tt w [Reply (SendError "MULTI calls can not be nested")].
Proof.
  intros H. unfold Multi. rewrite bind_get, H. reflexivity.
Qed.

(** A poisoned transaction stays poisoned until EXEC: other commands are
    rejected or queued, and MULTI refuses to nest. *)
Lemma Dispatch_keeps_EXEC_ERROR fuel argv w w' evs :
  RegisterCommands = Some reg ->
  exec_state (cstate w) = EXEC_ERROR ->
  ToUpper (ArgS argv 0) <> "EXEC" ->
  Dispatch reg fuel argv w = Done tt w' evs ->
  exec_state (cstate w') = EXEC_ERROR.
Proof.
  intros Hreg Hs Hne H. unfold Dispatch in H.
  destruct argv as [|a rest]; [discriminate|].
  change (ArgS (a :: rest) 0) with a in Hne.
  destruct (checks reg (ToUpper a :: rest) w) as [written [c|]] eqn:Hc.
  - rewrite (DispatchCommand_accepted _ _ _ _ _ _ _ Hc) in H.
    apply bind_inv in H as (? & w1 & ? & ? & E & H & _).
    injection E as _ <- _.
    apply checks_accepts in Hc as (Hl & _ & Hns).
    change (ArgS (ToUpper a :: rest) 0) with (ToUpper a) in Hl.
    unfold run_checked in H. rewrite bind_get, Hs in H.
    destruct (is_trans_cmd (ToUpper a)) eqn:Et; simpl in H.
    + apply is_trans_cmd_spec in Et as [Et|Et]; [contradiction|].
      rewrite Et in Hl.
      pose proof (RegisterCommands_service reg MULTI_cid Hreg ltac:(set_solver)) as Hm.
      change (name MULTI_cid) with "MULTI" in Hm. rewrite Hm in Hl.
      injection Hl as <-.
      rewrite andb_false_iff in Hns. destruct Hns as [Hns|Hns]; [|discriminate].
      rewrite Hns in H. bind_inv_in H.
      change (IsTransactional MULTI_cid) with false in H. cbv iota in H.
      bind_inv_in H. unfold call_handler in H. bind_inv_in H.
      apply DCHECK_inv in E as ->. cmd_inj.
      destruct fuel as [|n]; [discriminate|].
      match goal with
      | Hi : InvokeN _ _ _ _ _ = Done _ _ _ |- _ =>
          simpl in Hi; rewrite Multi_nested in Hi by exact Hs;
          injection Hi as _ <- _
      end.
      simpl in H. cmd_inj. exact Hs.
    + bind_inv_in H. injection H as <- _. injection E as _ <- _. exact Hs.
  - rewrite (DispatchCommand_rejected _ _ _ _ _ _ Hc) in H.
    injection H as <- _. now rewrite poison_exec_state, Hs.
Qed.

Lemma dispatch_all_keeps_EXEC_ERROR fuel between : forall w w' evs,
  RegisterCommands = Some reg ->
  exec_state (cstate w) = EXEC_ERROR ->
  Forall (fun argv => ToUpper (ArgS argv 0) <> "EXEC") between ->
  dispatch_all reg fuel between w = Done tt w' evs ->
  exec_state (cstate w') = EXEC_ERROR.
Proof.
  induction between as [|argv between IH]; intros w w' evs Hreg Hs Hb H.
  - injection H as <- _. exact Hs.
  - simpl in H. bind_inv_in H. destruct x.
    apply Forall_cons in Hb as [Ha Hb].
    eapply IH; [exact Hreg| |exact Hb|exact H].
    eapply Dispatch_keeps_EXEC_ERROR; eauto.
Qed.

End MultiExec.

Section ExecDispatch.

Context `{Ext : Externals}.
Variable reg : gmap string CommandId.

(** EXEC passes the checks on an active server, for a connection that is
    not waiting for AUTH and not inside a script. *)
Lemma checks_EXEC w :
  RegisterCommands = Some reg ->
  gstate (etl w) = ACTIVE ->
  auth_pending w = false ->
  script_info (cstate w) = None ->
  checks reg ["EXEC"] w = ([], Some EXEC_cid).
Proof.
  intros Hreg Hg Ha Hs.
  pose proof (RegisterCommands_service reg EXEC_cid Hreg ltac:(set_solver)) as Hm.
  change (name EXEC_cid) with "EXEC" in Hm.
  unfold checks. change (ArgS ["EXEC"] 0) with "EXEC".
  unfold auth_pending in Ha.
  rewrite Hm, Hg, Ha, (under_script_None _ Hs).
  change (has_flag (opt_mask EXEC_cid) CO.WRITE) with false.
  change (is_trans_cmd "EXEC") with true.
  rewrite !andb_false_r. reflexivity.
Qed.

(** The whole dispatch of EXEC on a poisoned transaction. *)
Lemma Dispatch_EXEC_aborts fuel a w :
  RegisterCommands = Some reg ->
  ToUpper a = "EXEC" ->
  exec_state (cstate w) = EXEC_ERROR ->
  gstate (etl w) = ACTIVE ->
  auth_pending w = false ->
  script_info (cstate w) = None ->
  transaction (cntx w) = None ->
  exists w',
    Dispatch reg (S fuel) [a] w
    = Done tt w'
        [Tx (InitByArgs (db_index (cstate w)) ["EXEC"]);
         Invoke EXEC_cid ["EXEC"];
         Reply (SendError "-EXECABORT Transaction discarded because of previous errors")]
    /\ exec_state (cstate w') = EXEC_INACTIVE
    /\ exec_body (cstate w') = []
    /\ transaction (cntx w') = None.
Proof.
  intros Hreg Ha Hs Hg Hp Hsc Ht.
  unfold Dispatch.
  rewrite (DispatchCommand_accepted reg _ a [] w [] EXEC_cid)
    by (rewrite Ha; now apply checks_EXEC).
  rewrite Ha, (under_script_None _ Hsc).
  change (is_trans_cmd "EXEC") with true.
  unfold run_checked. simpl map. rewrite bind_emit, bind_get, andb_false_r.
  unfold DCHECK. rewrite Ht.
  change (IsTransactional EXEC_cid) with true. 
  eexists. split.
  - assert (Hx : forall w1, exec_state (cstate w1) = EXEC_ERROR ->
              run_handler reg (InvokeN reg fuel) EXEC_cid ["EXEC"] w1
              = Done tt (discarded w1)
                  [Reply (SendError "-EXECABORT Transaction discarded because of previous errors")]).
    { intros w1 H1. unfold run_handler. simpl handler. cbv iota.
      now apply Exec_aborts. }
    unfold call_handler.
    destruct debug_build; simpl; unfold bind; simpl; rewrite Hx by exact Hs;
      simpl; reflexivity.
  - simpl. repeat split.
Qed.

End ExecDispatch.

(** C1: if a command dispatched while exec_state is EXEC_COLLECT takes an
    error return of the checks made before queueing (unknown command, bad
    arity, failed validator, ADMIN or SELECT under MULTI, ...), exec_state
    becomes EXEC_ERROR; it stays EXEC_ERROR through whatever is dispatched
    before the next EXEC; and that EXEC replies
    -EXECABORT Transaction discarded because of previous errors, resets
    exec_state to EXEC_INACTIVE and clears exec_body without calling a
    queued handler -- the Exec handler does so in any such state, and so
    does the dispatch of EXEC that reaches it (the only handler called is
    EXEC's own). *)
Theorem EXECABORT_after_failed_enqueue `{Ext : Externals} reg fuel a rest w written :
  RegisterCommands = Some reg ->
  exec_state (cstate w) = EXEC_COLLECT ->
  checks reg (ToUpper a :: rest) w = (written, None) ->
  Dispatch reg fuel (a :: rest) w = Done tt (poison w) (map Reply written)
  /\ exec_state (cstate (poison w)) = EXEC_ERROR
  /\ forall between w2 evs,
       Forall (fun argv => ToUpper (ArgS argv 0) <> "EXEC") between ->
       dispatch_all reg fuel between (poison w) = Done tt w2 evs ->
       exec_state (cstate w2) = EXEC_ERROR
       /\ (forall inv exec_args,
             Exec inv exec_args w2
             = Done tt (discarded w2)
                 [Reply (SendError "-EXECABORT Transaction discarded because of previous errors")]
             /\ exec_state (cstate (discarded w2)) = EXEC_INACTIVE
             /\ exec_body (cstate (discarded w2)) = [])
       /\ (forall e,
             ToUpper e = "EXEC" ->
             gstate (etl w2) = ACTIVE ->
             auth_pending w2 = false ->
             script_info (cstate w2) = None ->
             transaction (cntx w2) = None ->
             exists w3,
               Dispatch reg (S fuel) [e] w2
               = Done tt w3
                   [Tx (InitByArgs (db_index (cstate w2)) ["EXEC"]);
                    Invoke EXEC_cid ["EXEC"];
                    Reply (SendError "-EXECABORT Transaction discarded because of previous errors")]
               /\ exec_state (cstate w3) = EXEC_INACTIVE
               /\ exec_body (cstate w3) = []).
Proof.
  intros Hreg Hs Hc.
  assert (Hp : exec_state (cstate (poison w)) = EXEC_ERROR)
    by now rewrite poison_exec_state, Hs.
  split; [now apply DispatchCommand_rejected|]. split; [exact Hp|].
  intros between w2 evs Hb Hrun.
  assert (H2 : exec_state (cstate w2) = EXEC_ERROR)
    by (eapply dispatch_all_keeps_EXEC_ERROR; eauto).
  split; [exact H2|]. split.
  - intros inv exec_args. split; [now apply Exec_aborts|]. split; reflexivity.
  - intros e He Hg Ha Hsc Ht.
    destruct (Dispatch_EXEC_aborts reg fuel e w2 Hreg He H2 Hg Ha Hsc Ht)
      as (w3 & Hd & H3 & H4 & _).
    now exists w3.
Qed.

(** MULTI, an unknown command, then SET (queued) and a nested MULTI
    (refused), then EXEC. *)
Lemma EXECABORT_after_failed_enqueue_witness :
  Dispatch (Ext := Sample.ext) Sample.registry 1 ["doesnotexist"] Sample.w_multi
  = Done tt (poison Sample.w_multi)
      (map Reply [SendError "unknown command `DOESNOTEXIST`"])
  /\ exists w2 evs w3,
       dispatch_all (Ext := Sample.ext) Sample.registry 1
         [["set"; "k"; "v"]; ["multi"]] (poison Sample.w_multi) = Done tt w2 evs
       /\ Dispatch (Ext := Sample.ext) Sample.registry 2 ["exec"] w2
          = Done tt w3
              [Tx (InitByArgs (db_index (cstate w2)) ["EXEC"]);
               Invoke EXEC_cid ["EXEC"];
               Reply (SendError "-EXECABORT Transaction discarded because of previous errors")]
       /\ exec_state (cstate w3) = EXEC_INACTIVE
       /\ exec_body (cstate w3) = [].
Proof.
  destruct (EXECABORT_after_failed_enqueue (Ext := Sample.ext) Sample.registry 1
              "doesnotexist" [] Sample.w_multi
              [SendError "unknown command `DOESNOTEXIST`"])
    as (H1 & _ & H3).
  - vm_compute. reflexivity.
  - reflexivity.
  - vm_compute. reflexivity.
  - split; [exact H1|].
    destruct (dispatch_all (Ext := Sample.ext) Sample.registry 1
                [["set"; "k"; "v"]; ["multi"]] (poison Sample.w_multi))
      as [[] w2 evs|f] eqn:E; [|vm_compute in E; discriminate].
    destruct (H3 [["set"; "k"; "v"]; ["multi"]] w2 evs) as (_ & _ & H5).
    + repeat constructor; vm_compute; discriminate.
    + exact E.
    + assert (Hw : w2 = with_cntx (with_conn_state
                      (set_exec_body [{| descr := CI "SET" 4 (-3) 1 1 1 (HFamily "SET") None;
                                         cmd := ["SET"; "k"; "v"] |}]))
                      (with_cntx (set_cid (Some MULTI_cid)) (poison Sample.w_multi))).
      { vm_compute in E. injection E as <- _. vm_compute. reflexivity. }
      destruct (H5 "exec") as (w3 & Hd & Hst & Hbody).
      * vm_compute. reflexivity.
      * rewrite Hw. reflexivity.
      * rewrite Hw. reflexivity.
      * rewrite Hw. reflexivity.
      * rewrite Hw. reflexivity.
      * exists w2, evs, w3. auto.
Defined.

(** ** Scripts: the digest check *)

Section Digest.

Context `{Ext : Externals}.
Variable reg : gmap string CommandId.
Variable inv : CommandId -> list string -> Cmd unit.


Lemma DCHECK_true what w : DCHECK what true w = Done tt w [].
Proof. unfold DCHECK. now destruct debug_build. Qed.

Lemma ArgS_lower_second args : ArgS (lower_second args) 1 = ToLower (ArgS args 1).
Proof. now destruct args as [|a0 [|a1 rest]]. Qed.



(** AddFunction keeps the function table keyed by digests. *)
Lemma AddFunction_keyed body w r w' evs :
  keyed_by_digest (interpreter (etl w)) ->
  AddFunction body w = Done r w' evs ->
  keyed_by_digest (interpreter (etl w')) /\ script_mgr w' = script_mgr w.
Proof.
  intros Hk H. unfold AddFunction in H. rewrite bind_get in H.
  destruct (interpreter_Exists (lua_sha1 body) w); [now injection H as _ <- _|].
  destruct (lua_compile_error body); [now injection H as _ <- _|].
  rewrite bind_modify in H. injection H as _ <- _. split; [|reflexivity].
  intros k b. simpl. rewrite lookup_insert. case_decide as Hd.
  - intros [= <-]. now symmetry.
  - apply Hk.
Qed.






End Digest.



(** ** Scripts: the lock lifecycle around the run *)

Section ScriptRun.

Context `{Ext : Externals}.
Variable reg : gmap string CommandId.
Variable inv : CommandId -> list string -> Cmd unit.

Lemma SerializeResult_to_replies value : forall w w' evs,
  SerializeResult_to value w = Done tt w' evs ->
  w' = w /\ Forall (fun e => is_tx e = false) evs.
Proof.
  induction value as [|e value IH]; intros w w' evs H; simpl in H.
  - inversion H; subst. split; [reflexivity|constructor].
  - bind_inv_in H. destruct x.
    destruct (IH _ _ _ H) as [-> Hf].
    assert (x0 = w /\ Forall (fun e => is_tx e = false) x1) as [-> H1].
    { destruct e as [[]| | | | | | | |]; simpl in E; try discriminate;
        inversion E; subst; (split; [reflexivity|repeat constructor]). }
    subst evs. split; [reflexivity|]. now apply Forall_app.
Qed.

(** The reply after the run makes no call on the transaction; after a
    failed run it is the error reply, then the release of the lock. *)
Lemma reply_result_calls sha r w :
  (forall w' evs, reply_result sha r w = Done tt w' evs ->
     w' = w /\ Forall (fun e => is_tx e = false) evs)
  /\ (forall error safe value, r = (RUN_ERR, error, safe, value) ->
        reply_result sha r w
        = Done tt w
            [Reply (SendError ("Error running script (call to " +:+ sha +:+ "): "
                               +:+ error));
             Interp Unlock]).
Proof.
  split.
  - intros w' evs H. destruct r as [[[result error] safe] value].
    unfold reply_result in H. destruct result.
    + destruct safe; simpl negb in H; cbv iota in H; bind_inv_all; cmd_inj.
      * repeat match goal with u : unit |- _ => destruct u end.
        match goal with
        | Hs : SerializeResult_to _ _ = Done _ _ _ |- _ =>
            apply SerializeResult_to_replies in Hs as [-> Hf]
        end.
        split; [reflexivity|].
        repeat (apply Forall_app; split); try (repeat constructor); exact Hf.
      * split; [reflexivity|repeat constructor].
    + bind_inv_in H. cmd_inj. split; [reflexivity|repeat constructor].
  - intros error safe value ->. reflexivity.
Qed.

Lemma with_transaction_call what t w tx :
  transaction (cntx w) = Some tx ->
  with_transaction what (fun _ => tx_call t) w = Done tt w [Tx t].
Proof. intros H. unfold with_transaction. now rewrite bind_get, H. Qed.

Lemma when_keys_call ea what t w :
  (EvalArgs.keys ea <> [] -> is_Some (transaction (cntx w))) ->
  (if bool_decide (EvalArgs.keys ea = []) then ret tt
   else with_transaction what (fun _ => tx_call t)) w
  = Done tt w (when_keys ea t).
Proof.
  intros H. unfold when_keys. case_bool_decide as Hk; [reflexivity|].
  destruct (H Hk) as [tx Htx]. now apply with_transaction_call with tx.
Qed.

Lemma DCHECK_holds what cond w : cond = true -> DCHECK what cond w = Done tt w [].
Proof. intros ->. apply DCHECK_true. Qed.

End ScriptRun.

(** With a digest that is unknown to the interpreter and to the script
    cache EvalInternal returns at its lookup (line 700), before any of the
    calls below. *)
Remark EvalInternal_unknown_digest :
  EvalInternal (Ext := Sample.ext) Sample.registry
    (InvokeN (Ext := Sample.ext) Sample.registry 1)
    {| EvalArgs.sha := "cccccccccccccccccccccccccccccccccccccccc";
       EvalArgs.keys := ["x"]; EvalArgs.args := [] |} Sample.w_loaded
  = Done tt Sample.w_loaded
      [Reply (SendError (kScriptNotFound (Externals := Sample.ext)))].
Proof. vm_compute. reflexivity. Qed.

(** C4: in an EvalInternal call that runs the script (the digest is 40
    hexadecimal digits and the function is known or loaded from the cache),
    transaction.Schedule() is called if and only if the declared KEYS list
    is non-empty, before the interpreter is locked; when the run returns,
    on the RUN_OK as on the RUN_ERR outcome, transaction.UnlockMulti() is
    called exactly once if KEYS is non-empty (and not at all otherwise),
    right after the run and before anything is replied -- in particular
    before the run-error reply.  The calls made by EvalInternal itself are
    exactly: Schedule when KEYS is non-empty, the lock, the two globals, the
    redis hook, the run, UnlockMulti when KEYS is non-empty, then the reply,
    which makes no transaction call; the commands the script dispatches are
    recorded inside the run. *)
Theorem EvalInternal_schedule_unlock `{Ext : Externals} reg inv ea w w1 r w2 inner :
  EvalArgs.sha ea <> "" ->
  is_digest (EvalArgs.sha ea) = true ->
  find_function (EvalArgs.sha ea) w = Done true w1 [] ->
  script_info (cstate w1) = None ->
  is_Some (transaction (cntx w1)) ->
  run_script reg inv
    (lua_run (interpreter (etl w1)) (EvalArgs.sha ea) (EvalArgs.keys ea)
             (EvalArgs.args ea))
    (enter_script (EvalArgs.keys ea) w1) = Done r w2 inner ->
  (EvalArgs.keys ea <> [] -> is_Some (transaction (cntx w2))) ->
  EvalInternal reg inv ea w
  = (emit (when_keys ea Schedule
           ++ run_calls ea inner (fst (fst (fst r)))
           ++ when_keys ea UnlockMulti) ;;
     reply_result (EvalArgs.sha ea) r) (leave_script w2)
  /\ (when_keys ea Schedule = [Tx Schedule] <-> EvalArgs.keys ea <> [])
  /\ (when_keys ea Schedule = [] <-> EvalArgs.keys ea = [])
  /\ (when_keys ea UnlockMulti = [Tx UnlockMulti] <-> EvalArgs.keys ea <> [])
  /\ (forall w3 w4 tail,
        reply_result (EvalArgs.sha ea) r w3 = Done tt w4 tail ->
        Forall (fun e => is_tx e = false) tail)
  /\ (forall error safe value w3,
        r = (RUN_ERR, error, safe, value) ->
        reply_result (EvalArgs.sha ea) r w3
        = Done tt w3
            [Reply (SendError ("Error running script (call to "
                               +:+ EvalArgs.sha ea +:+ "): " +:+ error));
             Interp Unlock]).
Proof.
  intros Hne Hd Hfind Hsc Htx Hrun Htx2.
  repeat split.
  - unfold EvalInternal.
    rewrite (String_eqb_empty _ Hne). simpl negb.
    unfold bind at 1. rewrite DCHECK_true.
    unfold is_digest in Hd. apply andb_true_iff in Hd as [Hl Hx].
    rewrite Hl, Hx. change (negb true || negb true) with false. cbv iota.
    rewrite (bind_Done _ _ _ _ _ _ Hfind). cbn [negb]. cbv iota.
    rewrite bind_get.
    rewrite (bind_Done _ _ w1 tt w1 [])
      by (apply DCHECK_holds; now rewrite (under_script_None _ Hsc)).
    unfold modify_conn at 1. rewrite bind_modify.
    fold (enter_script (EvalArgs.keys ea) w1).
    rewrite (bind_Done _ _ _ tt (enter_script (EvalArgs.keys ea) w1) [])
      by (apply DCHECK_holds; destruct Htx as [t Ht]; now rewrite Ht).
    rewrite (bind_Done _ _ _ _ _ _
               (when_keys_call ea "Schedule" Schedule
                  (enter_script (EvalArgs.keys ea) w1) (fun _ => Htx))).
    unfold interp_call at 1 2 3 4. rewrite !bind_emit.
    assert (Hcall : RunFunction_call reg inv (EvalArgs.sha ea) (EvalArgs.keys ea)
                      (EvalArgs.args ea) (enter_script (EvalArgs.keys ea) w1)
                    = Done r w2 [RunFunction (EvalArgs.sha ea) inner (fst (fst (fst r)))]).
    { unfold RunFunction_call.
      change (interpreter (etl (enter_script (EvalArgs.keys ea) w1)))
        with (interpreter (etl w1)).
      now rewrite Hrun. }
    rewrite (bind_Done _ _ _ _ _ _ Hcall).
    unfold modify_conn at 1. rewrite bind_modify. fold (leave_script w2).
    rewrite (bind_Done _ _ _ _ _ _
               (when_keys_call ea "UnlockMulti" UnlockMulti (leave_script w2) Htx2)).
    destruct (reply_result (EvalArgs.sha ea) r (leave_script w2)) as [[] w4 tail|f];
      [|reflexivity].
    unfold run_calls. simpl. rewrite <- ?app_assoc. reflexivity.
  - unfold when_keys. case_bool_decide; [discriminate|auto].
  - unfold when_keys. case_bool_decide; [congruence|auto].
  - unfold when_keys. case_bool_decide; [auto|discriminate].
  - unfold when_keys. case_bool_decide; [auto|congruence].
  - unfold when_keys. case_bool_decide; [discriminate|auto].
  - unfold when_keys. case_bool_decide; [congruence|auto].
  - intros w3 w4 tail H. now apply (reply_result_calls _ r w3) in H.
  - intros error safe value w3 Hr.
    now apply (proj2 (reply_result_calls (EvalArgs.sha ea) r w3) error safe value).
Qed.

(** A script with one key that fails: Schedule, the run, UnlockMulti, and
    only then the error reply. *)
Lemma EvalInternal_schedule_unlock_witness :
  let ea := {| EvalArgs.sha := Sample.digest_b; EvalArgs.keys := ["x"];
               EvalArgs.args := [] |} in
  when_keys ea Schedule = [Tx Schedule]
  /\ exists w' inner,
       EvalInternal (Ext := Sample.ext) Sample.registry
         (InvokeN (Ext := Sample.ext) Sample.registry 1) ea Sample.w_loaded
       = Done tt w'
           [Tx Schedule; Interp Lock; Interp (SetGlobalArray "KEYS" ["x"]);
            Interp (SetGlobalArray "ARGV" []); Interp SetRedisFunc;
            RunFunction Sample.digest_b inner RUN_ERR; Tx UnlockMulti;
            Reply (SendError
                     "Error running script (call to bbbbbbbbbbbbbbbbbbbbbbbbbbbbbbbbbbbbbbbb): boom");
            Interp Unlock].
Proof.
  intros ea.
  destruct (run_script (Ext := Sample.ext) Sample.registry
              (InvokeN (Ext := Sample.ext) Sample.registry 1)
              (lua_run (Externals := Sample.ext) (interpreter (etl Sample.w_loaded))
                 (EvalArgs.sha ea) (EvalArgs.keys ea) (EvalArgs.args ea))
              (enter_script (H := Sample.ext) (EvalArgs.keys ea) Sample.w_loaded))
    as [r w2 inner|f] eqn:E; [|vm_compute in E; discriminate].
  destruct (EvalInternal_schedule_unlock (Ext := Sample.ext) Sample.registry
              (InvokeN (Ext := Sample.ext) Sample.registry 1)
              ea Sample.w_loaded Sample.w_loaded r w2 inner)
    as (H1 & H2 & _).
  - discriminate.
  - vm_compute. reflexivity.
  - vm_compute. reflexivity.
  - reflexivity.
  - eexists. reflexivity.
  - exact E.
  - intros _. vm_compute in E. injection E as _ <- _. eexists. reflexivity.
  - split; [apply H2; discriminate|].
    rewrite H1. vm_compute in E. injection E as <- <- <-.
    eexists _, _. vm_compute. reflexivity.
Defined.

(** ** Scripts do not nest *)

Section Safe.

Lemma safe_bind {A B} (m : Cmd A) (k : A -> Cmd B) w (Q1 Q : World -> Prop) :
  safe m w Q1 ->
  (forall a w1, Q1 w1 -> safe (k a) w1 Q) ->
  safe (bind m k) w Q.
Proof.
  unfold safe, bind. intros Hm Hk.
  destruct (m w) as [a w1 evs1|f]; [|exact Hm].
  specialize (Hk a w1 Hm). now destruct (k a w1).
Qed.

Lemma safe_get {B} (k : World -> Cmd B) w Q :
  safe (k w) w Q -> safe (bind get k) w Q.
Proof. unfold safe. now rewrite bind_get. Qed.

Lemma safe_ret {A} (a : A) w (Q : World -> Prop) : Q w -> safe (ret a) w Q.
Proof. now unfold safe. Qed.

Lemma safe_modify f w (Q : World -> Prop) : Q (f w) -> safe (modify f) w Q.
Proof. now unfold safe. Qed.

Lemma safe_emit evs w (Q : World -> Prop) : Q w -> safe (emit evs) w Q.
Proof. now unfold safe. Qed.

Lemma safe_fail {A} f w (Q : World -> Prop) :
  f <> script_info_assertion -> safe (@fail A f) w Q.
Proof. now unfold safe. Qed.

Lemma safe_weaken {A} (m : Cmd A) w (Q Q' : World -> Prop) :
  safe m w Q -> (forall w', Q w' -> Q' w') -> safe m w Q'.
Proof. unfold safe. destruct (m w); auto. Qed.

Lemma safe_CHECK what cond w (Q : World -> Prop) :
  Q w -> safe (CHECK what cond) w Q.
Proof. unfold safe, CHECK. destruct cond; [auto|discriminate]. Qed.

Lemma safe_foreign what f w (Q : World -> Prop) :
  (forall w' evs, f w = Some (w', evs) -> Q w') -> safe (foreign what f) w Q.
Proof.
  unfold safe, foreign. intros H. destruct (f w) as [[w' evs]|]; [eauto|discriminate].
Qed.

Context `{Ext : Externals}.

(** A DCHECK other than the one of line 710. *)
Lemma safe_DCHECK what cond w (Q : World -> Prop) :
  what <> "!cntx->conn_state.script_info" ->
  Q w -> safe (DCHECK what cond) w Q.
Proof.
  unfold safe, DCHECK, script_info_assertion. intros Hw HQ.
  destruct debug_build; [|exact HQ]. destruct cond; [exact HQ|congruence].
Qed.

(** The DCHECK of line 710 where its condition holds. *)
Lemma safe_DCHECK_holds what w (Q : World -> Prop) :
  Q w -> safe (DCHECK what true) w Q.
Proof. unfold safe. now rewrite DCHECK_true. Qed.

End Safe.

(** One step of a safety proof that keeps the invariant [I]. *)
Ltac safe_step I :=
  lazymatch goal with
  | |- safe (bind get _) _ _ => apply safe_get
  | |- safe (bind _ _) _ _ => apply safe_bind with (Q1 := I); [|intros ? ? ?]
  | |- safe (ret _) _ _ => apply safe_ret
  | |- safe (modify _) _ _ => apply safe_modify
  | |- safe (modify_cntx _) _ _ => apply safe_modify
  | |- safe (modify_conn _) _ _ => apply safe_modify
  | |- safe (emit _) _ _ => apply safe_emit
  | |- safe (send _) _ _ => apply safe_emit
  | |- safe (tx_call _) _ _ => apply safe_emit
  | |- safe (interp_call _) _ _ => apply safe_emit
  | |- safe (fail _) _ _ => apply safe_fail; discriminate
  | |- safe (CHECK _ _) _ _ => apply safe_CHECK
  | |- safe (DCHECK _ _) _ _ => apply safe_DCHECK; [discriminate|]
  end.

Section NoNesting.

Context `{Ext : Externals}.
Variable reg : gmap string CommandId.
Hypothesis Hreg : RegisterCommands = Some reg.
Hypothesis Hfam : families_well_behaved.

Lemma conn_inv_same b w w' :
  exec_body (cstate w') = exec_body (cstate w) ->
  script_info (cstate w') = script_info (cstate w) ->
  conn_inv reg b w -> conn_inv reg b w'.
Proof.
  unfold conn_inv, queue_from_registry, under_script.
  now intros -> ->.
Qed.

Lemma registry_wf k c : reg !! k = Some c -> name c = k /\ handler_ok c.
Proof.
  intros H. destruct (RegisterCommands_lookup reg k c Hreg H) as [Hn [Hs|Hf]].
  - split; [exact Hn|]. unfold service_commands in Hs.
    repeat (apply elem_of_cons in Hs as [->|Hs]; [now vm_compute|]).
    now apply elem_of_nil in Hs.
  - split; [exact Hn|]. destruct (proj1 Hfam c Hf) as [tag Ht].
    unfold handler_ok. now rewrite Ht.
Qed.

Ltac same :=
  first [eassumption
        |eapply conn_inv_same; [reflexivity|reflexivity|eassumption]].

Lemma safe_with_transaction what k w (Q : World -> Prop) :
  (forall t, safe (k t) w Q) -> safe (with_transaction what k) w Q.
Proof.
  intros H. unfold with_transaction. apply safe_get.
  destruct (transaction (cntx w)); [apply H|]. apply safe_fail. discriminate.
Qed.

Lemma safe_SetExecCmd c b w :
  conn_inv reg b w -> safe (transaction_SetExecCmd c) w (conn_inv reg b).
Proof.
  intros Hi. apply safe_with_transaction. intros t.
  safe_step (conn_inv reg b); repeat safe_step (conn_inv reg b); same.
Qed.

Lemma safe_InitByArgs db args b w :
  conn_inv reg b w -> safe (transaction_InitByArgs db args) w (conn_inv reg b).
Proof.
  intros Hi. apply safe_with_transaction. intros t.
  safe_step (conn_inv reg b); repeat safe_step (conn_inv reg b); same.
Qed.

Lemma safe_call_handler inv c args dt script b w :
  conn_inv reg b w ->
  (forall w1, conn_inv reg b w1 -> safe (inv c args) w1 (conn_inv reg b)) ->
  safe (call_handler inv c args dt script) w (conn_inv reg b).
Proof.
  intros Hi Hinv. unfold call_handler.
  safe_step (conn_inv reg b); [safe_step (conn_inv reg b); same|].
  safe_step (conn_inv reg b); [safe_step (conn_inv reg b); assumption|].
  safe_step (conn_inv reg b); [now apply Hinv|].
  safe_step (conn_inv reg b).
  - destruct dt; repeat safe_step (conn_inv reg b); same.
  - destruct (negb script); safe_step (conn_inv reg b); same.
Qed.

Lemma safe_run_checked inv c args trans b w :
  conn_inv reg b w ->
  reg !! name c = Some c ->
  (forall w1, conn_inv reg b w1 -> safe (inv c args) w1 (conn_inv reg b)) ->
  safe (run_checked inv c args trans b) w (conn_inv reg b).
Proof.
  intros Hi Hc Hinv. unfold run_checked. apply safe_get.
  destruct (negb (exec_inactive (exec_state (cstate w))) && negb trans).
  { safe_step (conn_inv reg b); [|safe_step (conn_inv reg b); assumption].
    safe_step (conn_inv reg b). destruct Hi as [Hq Hs]. split; [|exact Hs].
    unfold queue_from_registry in *. simpl.
    apply Forall_app. split; [exact Hq|]. now repeat constructor. }
  destruct b.
  - safe_step (conn_inv reg true); [safe_step (conn_inv reg true); assumption|].
    destruct (DetermineKeys c args) as [first last].
    destruct (script_info (cstate w)); [|safe_step (conn_inv reg true)].
    destruct (forallb _ _); [|safe_step (conn_inv reg true); assumption].
    safe_step (conn_inv reg true); [now apply safe_SetExecCmd|].
    safe_step (conn_inv reg true); [now apply safe_InitByArgs|].
    now apply safe_call_handler.
  - safe_step (conn_inv reg false); [safe_step (conn_inv reg false); assumption|].
    destruct (IsTransactional c).
    + safe_step (conn_inv reg false); [safe_step (conn_inv reg false); same|].
      safe_step (conn_inv reg false); [now apply safe_InitByArgs|].
      apply safe_get.
      safe_step (conn_inv reg false); [safe_step (conn_inv reg false); same|].
      now apply safe_call_handler.
    + safe_step (conn_inv reg false); [safe_step (conn_inv reg false); same|].
      now apply safe_call_handler.
Qed.

Lemma poison_conn_inv b w : conn_inv reg b w -> conn_inv reg b (poison w).
Proof.
  destruct (poison_keeps w) as (_ & Hb & Hs).
  now apply conn_inv_same.
Qed.

(** The dispatcher keeps the connection invariant and never trips the
    assertion, provided the handlers it may call do: any registered handler
    between commands, the handlers of commands without NOSCRIPT inside a
    script. *)
Lemma safe_DispatchCommand inv b args w :
  conn_inv reg b w ->
  (forall c a w1,
     reg !! name c = Some c ->
     (b = true -> has_flag (opt_mask c) CO.NOSCRIPT = false) ->
     conn_inv reg b w1 -> safe (inv c a) w1 (conn_inv reg b)) ->
  safe (DispatchCommand reg inv args) w (conn_inv reg b).
Proof.
  intros Hi Hinv. destruct args as [|a rest].
  { unfold safe. simpl. discriminate. }
  destruct (checks reg (ToUpper a :: rest) w) as [written [c|]] eqn:Hc.
  - unfold safe. rewrite (DispatchCommand_accepted _ _ _ _ _ _ _ Hc).
    fold (safe (emit (map Reply written) ;;
                run_checked inv c (ToUpper a :: rest) (is_trans_cmd (ToUpper a))
                  (under_script w)) w (conn_inv reg b)).
    apply checks_accepts in Hc as (Hl & _ & Hns).
    change (ArgS (ToUpper a :: rest) 0) with (ToUpper a) in Hl.
    destruct (registry_wf _ _ Hl) as [Hn _].
    safe_step (conn_inv reg b); [safe_step (conn_inv reg b); assumption|].
    rewrite (proj2 Hi) in *.
    apply safe_run_checked; [assumption|now rewrite Hn|].
    intros w2 Hw2. apply Hinv; [now rewrite Hn| |assumption].
    intros ->. exact Hns.
  - unfold safe. rewrite (DispatchCommand_rejected _ _ _ _ _ _ Hc).
    now apply poison_conn_inv.
Qed.

End NoNesting.

(** [m ;; k] where [m] re-establishes [I]; the world after [m] is named. *)
Tactic Notation "seq" constr(I) "as" ident(x) ident(w) ident(H) :=
  apply safe_bind with (Q1 := I); [|intros x w H].

Section NoNestingHandlers.

Context `{Ext : Externals}.
Variable reg : gmap string CommandId.
Hypothesis Hreg : RegisterCommands = Some reg.
Hypothesis Hfam : families_well_behaved.
Variable inv : CommandId -> list string -> Cmd unit.

(** What the handlers called from a handler are known to do. *)
Hypothesis inv_between : forall c a w,
  reg !! name c = Some c ->
  conn_inv reg false w -> safe (inv c a) w (conn_inv reg false).
Hypothesis inv_in_script : forall c a w,
  reg !! name c = Some c ->
  has_flag (opt_mask c) CO.NOSCRIPT = false ->
  conn_inv reg true w -> safe (inv c a) w (conn_inv reg true).

Local Abbreviation N := (conn_inv reg false).
Local Abbreviation S := (conn_inv reg true).

Lemma safe_logged evs b w : conn_inv reg b w -> safe (emit evs) w (conn_inv reg b).
Proof. intros H. now apply safe_emit. Qed.

Lemma safe_CallFromScript args w :
  S w -> safe (CallFromScript reg inv args) w S.
Proof.
  intros Hi. unfold CallFromScript. apply safe_get.
  seq S as x w1 H1; [apply safe_DCHECK; [discriminate|exact Hi]|].
  pose proof (safe_DispatchCommand reg Hreg Hfam inv true args w1 H1) as Hd.
  unfold safe in *.
  destruct (DispatchCommand reg inv args w1); apply Hd; intros;
    apply inv_in_script; auto.
Qed.

Lemma safe_run_script s : forall w, S w -> safe (run_script reg inv s) w S.
Proof.
  induction s as [res error ok value|args k IH]; intros w Hi; simpl.
  - now apply safe_ret.
  - seq S as answer w1 H1; [now apply safe_CallFromScript|].
    now apply IH.
Qed.

Lemma safe_RunFunction_call sha (ks args : list string) w :
  S w -> safe (RunFunction_call reg inv sha ks args) w S.
Proof.
  intros Hi. unfold RunFunction_call.
  pose proof (safe_run_script (lua_run (interpreter (etl w)) sha ks args) w Hi) as Hs.
  unfold safe in *. now destruct (run_script _ _ _ w).
Qed.

Lemma safe_AddFunction body b w :
  conn_inv reg b w -> safe (AddFunction body) w (conn_inv reg b).
Proof.
  intros Hi. unfold AddFunction. apply safe_get.
  destruct (interpreter_Exists _ w); [now apply safe_ret|].
  destruct (lua_compile_error body); [now apply safe_ret|].
  seq (conn_inv reg b) as x w1 H1; [apply safe_modify; exact Hi|].
  now apply safe_ret.
Qed.

Lemma safe_load_cached body sha b w :
  conn_inv reg b w -> safe (load_cached body sha) w (conn_inv reg b).
Proof.
  intros Hi. unfold load_cached.
  seq (conn_inv reg b) as r w1 H1; [now apply safe_AddFunction|].
  seq (conn_inv reg b) as x w2 H2; now apply safe_CHECK.
Qed.

Lemma safe_find_function sha b w :
  conn_inv reg b w -> safe (find_function sha) w (conn_inv reg b).
Proof.
  intros Hi. unfold find_function. apply safe_get.
  destruct (interpreter_Exists sha w); [now apply safe_ret|].
  destruct (script_mgr w !! sha); [|now apply safe_ret].
  seq (conn_inv reg b) as x w1 H1; [now apply safe_load_cached|].
  now apply safe_ret.
Qed.

Lemma safe_EvalSerializer e b w :
  conn_inv reg b w -> safe (EvalSerializer e) w (conn_inv reg b).
Proof.
  intros Hi.
  destruct e as [[]| | | | | | | |]; simpl;
    first [now apply safe_logged | apply safe_fail; discriminate].
Qed.

Lemma safe_SerializeResult_to value b : forall w,
  conn_inv reg b w -> safe (SerializeResult_to value) w (conn_inv reg b).
Proof.
  induction value as [|e value IH]; intros w Hi; simpl.
  - now apply safe_ret.
  - seq (conn_inv reg b) as x w1 H1; [now apply safe_EvalSerializer|now apply IH].
Qed.

Lemma safe_reply_result sha r b w :
  conn_inv reg b w -> safe (reply_result sha r) w (conn_inv reg b).
Proof.
  intros Hi. destruct r as [[[result error] ok] value]. unfold reply_result.
  destruct result.
  - seq (conn_inv reg b) as x w1 H1.
    + destruct (negb ok); [now apply safe_logged|].
      seq (conn_inv reg b) as x w1 H1; [now apply safe_logged|].
      now apply safe_SerializeResult_to.
    + seq (conn_inv reg b) as y w2 H2; now apply safe_logged.
  - seq (conn_inv reg b) as x w1 H1; now apply safe_logged.
Qed.

Lemma safe_when_keys (ks : list string) what t b w :
  conn_inv reg b w ->
  safe (if bool_decide (ks = []) then ret tt
        else with_transaction what (fun _ => tx_call t)) w (conn_inv reg b).
Proof.
  intros Hi. destruct (bool_decide (ks = [])); [now apply safe_ret|].
  apply safe_with_transaction. intros _. now apply safe_logged.
Qed.

(** EvalInternal entered between commands: the assertion of line 710
    holds, the script runs with script_info present, and script_info is
    absent again at the end. *)
Lemma safe_EvalInternal ea w : N w -> safe (EvalInternal reg inv ea) w N.
Proof.
  intros Hi. unfold EvalInternal.
  seq N as x w1 H1; [apply safe_DCHECK; [discriminate|exact Hi]|].
  destruct (negb _ || negb _); [now apply safe_logged|].
  seq N as found w2 H2; [now apply safe_find_function|].
  destruct (negb found); [now apply safe_logged|].
  apply safe_get. rewrite (proj2 H2). cbn [negb].
  seq N as x3 w3 H3; [now apply safe_DCHECK_holds|].
  seq S as x4 w4 H4.
  { apply safe_modify. destruct H3 as [Hq _]. split; [exact Hq|reflexivity]. }
  seq S as x5 w5 H5; [apply safe_DCHECK; [discriminate|exact H4]|].
  seq S as x6 w6 H6; [now apply safe_when_keys|].
  seq S as x7 w7 H7; [now apply safe_logged|].
  seq S as x8 w8 H8; [now apply safe_logged|].
  seq S as x9 w9 H9; [now apply safe_logged|].
  seq S as x10 w10 H10; [now apply safe_logged|].
  seq S as r w11 H11; [now apply safe_RunFunction_call|].
  seq N as x12 w12 H12.
  { apply safe_modify. destruct H11 as [Hq _]. split; [exact Hq|reflexivity]. }
  seq N as x13 w13 H13; [now apply safe_when_keys|].
  now apply safe_reply_result.
Qed.

Lemma safe_subspan args pos len b w :
  conn_inv reg b w -> safe (subspan args pos len) w (conn_inv reg b).
Proof.
  intros Hi. unfold subspan.
  destruct (_ <? pos); [apply safe_fail; discriminate|now apply safe_ret].
Qed.

Lemma safe_checked_num_keys args b w :
  conn_inv reg b w -> safe (checked_num_keys args) w (conn_inv reg b).
Proof.
  intros Hi. unfold checked_num_keys.
  destruct (SimpleAtoi_uint32 _); [now apply safe_ret|apply safe_fail; discriminate].
Qed.

Lemma safe_eval_tail sha args num_keys w :
  N w ->
  safe (ks <- subspan args 3 (Some num_keys) ;;
        rest <- subspan args (u32 (3 + num_keys)) None ;;
        EvalInternal reg inv {| EvalArgs.sha := sha; EvalArgs.keys := ks;
                                EvalArgs.args := rest |}) w N.
Proof.
  intros Hi.
  seq N as ks w1 H1; [now apply safe_subspan|].
  seq N as rest w2 H2; [now apply safe_subspan|].
  now apply safe_EvalInternal.
Qed.

Lemma safe_Eval args w : N w -> safe (Eval reg inv args) w N.
Proof.
  intros Hi. unfold Eval.
  seq N as num_keys w1 H1; [now apply safe_checked_num_keys|].
  destruct (String.eqb _ ""); [now apply safe_logged|].
  seq N as r w2 H2; [now apply safe_AddFunction|].
  destruct r as [add_result result].
  destruct add_result; [| |now apply safe_logged].
  - seq N as x w3 H3; [apply safe_modify; exact H2|].
    now apply safe_eval_tail.
  - seq N as x w3 H3; [now apply safe_ret|].
    now apply safe_eval_tail.
Qed.

Lemma safe_EvalSha args w : N w -> safe (EvalSha reg inv args) w N.
Proof.
  intros Hi. unfold EvalSha.
  seq N as num_keys w1 H1; [now apply safe_checked_num_keys|].
  apply safe_get.
  seq N as found w2 H2.
  { destruct (interpreter_Exists _ w1); [now apply safe_ret|].
    destruct (if _ =? 40 then _ else _); [|now apply safe_ret].
    seq N as x w2 H2; [now apply safe_load_cached|].
    now apply safe_ret. }
  destruct (negb found); [now apply safe_logged|].
  now apply safe_eval_tail.
Qed.

Lemma safe_Exec_loop whole body : forall w,
  Forall (fun sc => reg !! name (descr sc) = Some (descr sc)) body ->
  N w -> safe (Exec_loop inv whole body) w N.
Proof.
  induction body as [|scmd body IH]; intros w Hb Hi; simpl.
  - now apply safe_ret.
  - apply Forall_cons in Hb as [Hs Hb]. apply safe_get.
    seq N as x1 w1 H1; [now apply safe_SetExecCmd|].
    seq N as x2 w2 H2; [now apply safe_InitByArgs|].
    seq N as x3 w3 H3; [now apply safe_logged|].
    seq N as stop w4 H4.
    + pose proof (inv_between (descr scmd) (cmd scmd) w3 Hs H3) as Hh.
      unfold safe in *. now destruct (inv (descr scmd) (cmd scmd) w3).
    + destruct stop; [now apply safe_ret|]. apply safe_get.
      case_bool_decide; [now apply IH|]. now apply safe_fail.
Qed.

Lemma safe_discard w :
  N w ->
  safe (modify_conn (set_exec_state EXEC_INACTIVE) ;;
        modify_conn (set_exec_body [])) w N.
Proof.
  intros [Hq Hs].
  seq N as x w1 H1; apply safe_modify.
  - split; [exact Hq|exact Hs].
  - split; [constructor|exact (proj2 H1)].
Qed.

Lemma safe_Exec args w : N w -> safe (Exec inv args) w N.
Proof.
  intros Hi. unfold Exec. apply safe_get.
  destruct (exec_state (cstate w)).
  - now apply safe_logged.
  - seq N as x1 w1 H1; [now apply safe_logged|].
    seq N as x2 w2 H2; [|now apply safe_discard].
    destruct (exec_body (cstate w)) as [|sc body] eqn:Eb; [now apply safe_ret|].
    seq N as x3 w3 H3.
    + apply safe_Exec_loop; [|assumption].
      destruct Hi as [Hq _]. unfold queue_from_registry in Hq. now rewrite Eb in Hq.
    + apply safe_with_transaction. intros _. now apply safe_logged.
  - seq N as x1 w1 H1.
    { apply safe_modify. destruct Hi as [Hq Hs]. split; assumption. }
    seq N as x2 w2 H2; [|now apply safe_logged].
    apply safe_modify. split; [constructor|exact (proj2 H1)].
Qed.

Lemma safe_Quit args b w : conn_inv reg b w -> safe (Quit args) w (conn_inv reg b).
Proof.
  intros Hi. unfold Quit. apply safe_get.
  seq (conn_inv reg b) as x w1 H1; [|now apply safe_logged].
  destruct (protocol (cntx w)); [now apply safe_logged|now apply safe_ret].
Qed.

Lemma safe_Multi args b w : conn_inv reg b w -> safe (Multi args) w (conn_inv reg b).
Proof.
  intros Hi. unfold Multi. apply safe_get.
  destruct (negb _); [now apply safe_logged|].
  seq (conn_inv reg b) as x w1 H1; [|now apply safe_logged].
  apply safe_modify. destruct Hi as [Hq Hs]. split; assumption.
Qed.

Lemma safe_family tag args b w :
  conn_inv reg b w -> safe (foreign tag (family_invoke tag args)) w (conn_inv reg b).
Proof.
  intros Hi. apply safe_foreign. intros w' evs H.
  destruct (proj2 Hfam tag args w w' evs H) as [Hs Hb].
  now apply (conn_inv_same reg b w w').
Qed.

Lemma safe_run_handler_between c args w :
  N w -> safe (run_handler reg inv c args) w N.
Proof.
  intros Hi. unfold run_handler. destruct (handler c).
  - now apply safe_Quit.
  - now apply safe_Multi.
  - now apply safe_Eval.
  - now apply safe_EvalSha.
  - now apply safe_Exec.
  - now apply safe_family.
Qed.

Lemma safe_run_handler_in_script c args w :
  handler_ok c ->
  has_flag (opt_mask c) CO.NOSCRIPT = false ->
  S w -> safe (run_handler reg inv c args) w S.
Proof.
  intros Hok Hns Hi. unfold run_handler, handler_ok in *.
  destruct (handler c); try congruence.
  - now apply safe_Quit.
  - now apply safe_Multi.
  - now apply safe_family.
Qed.

End NoNestingHandlers.

Section NoNestingFuel.

Context `{Ext : Externals}.
Variable reg : gmap string CommandId.
Hypothesis Hreg : RegisterCommands = Some reg.
Hypothesis Hfam : families_well_behaved.

(** Whatever the depth allowed, a registered handler keeps the connection
    invariant: script_info is absent after a handler that was entered
    without it, and a handler the dispatcher lets a script call leaves the
    script context in place. *)
Lemma safe_InvokeN fuel :
  (forall c a w,
     reg !! name c = Some c ->
     conn_inv reg false w -> safe (InvokeN reg fuel c a) w (conn_inv reg false))
  /\ (forall c a w,
        reg !! name c = Some c ->
        has_flag (opt_mask c) CO.NOSCRIPT = false ->
        conn_inv reg true w -> safe (InvokeN reg fuel c a) w (conn_inv reg true)).
Proof.
  induction fuel as [|n [IHb IHs]].
  - split; intros; apply safe_fail; discriminate.
  - split.
    + intros c a w Hc Hi. simpl.
      now apply safe_run_handler_between.
    + intros c a w Hc Hns Hi. simpl.
      apply safe_run_handler_in_script; auto.
      now destruct (registry_wf reg Hreg Hfam _ _ Hc).
Qed.

Lemma safe_Dispatch fuel args w :
  queue_from_registry reg w ->
  safe (Dispatch reg fuel args) w (conn_inv reg (under_script w)).
Proof.
  intros Hq. unfold Dispatch.
  destruct (safe_InvokeN fuel) as [Hb Hs].
  apply safe_DispatchCommand; auto.
  - now split.
  - intros c a w1 Hc Hns Hi. destruct (under_script w) eqn:Eu.
    + apply Hs; auto.
    + now apply Hb.
Qed.

End NoNestingFuel.

(** The NOSCRIPT check answers before the handler is reached; while the
    server is loading, an earlier check answers first. *)
Remark EVAL_in_script_while_loading :
  DispatchCommand (Ext := Sample.ext) Sample.registry
    (InvokeN (Ext := Sample.ext) Sample.registry 1) ["EVAL"; "return 1"; "0"]
    (Sample.in_script Sample.w_loading)
  = Done tt (Sample.in_script Sample.w_loading)
      [Reply (SendError "Can not execute during LOADING")].
Proof. vm_compute. reflexivity. Qed.

(** C10: EVAL and EVALSHA are registered with the NOSCRIPT option, so a
    redis.call of EVAL or EVALSHA issued from within a running script
    (script_info present) is rejected by the dispatcher before reaching the
    handler -- with This Redis command is not allowed from script, once the
    dispatch is past the loading/shutdown and authentication checks that
    come first; consequently the assertion of EvalInternal that script_info
    is absent on entry never fails, in any dispatch at any depth of handlers
    calling handlers, and scripts do not nest: a dispatch made from a script
    returns with the script context still in place, one made between
    commands with none.  (The command families are taken not to touch
    script_info or the MULTI queue, and the queue to hold registry
    descriptors.) *)
Theorem scripts_do_not_nest `{Ext : Externals} reg :
  RegisterCommands = Some reg ->
  (reg !! "EVAL" = Some EVAL_cid /\ reg !! "EVALSHA" = Some EVALSHA_cid
   /\ has_flag (opt_mask EVAL_cid) CO.NOSCRIPT = true
   /\ has_flag (opt_mask EVALSHA_cid) CO.NOSCRIPT = true)
  /\ (forall inv a rest w,
        ToUpper a = "EVAL" \/ ToUpper a = "EVALSHA" ->
        script_info (cstate w) <> None ->
        exists err,
          DispatchCommand reg inv (a :: rest) w
          = Done tt (poison w) [Reply (SendError err)]
          /\ (gstate (etl w) = ACTIVE -> auth_pending w = false ->
              err = "This Redis command is not allowed from script"))
  /\ (families_well_behaved ->
      forall fuel args w,
        queue_from_registry reg w ->
        Dispatch reg fuel args w <> Fail script_info_assertion
        /\ forall w' evs,
             Dispatch reg fuel args w = Done tt w' evs ->
             queue_from_registry reg w'
             /\ (script_info (cstate w') = None <-> script_info (cstate w) = None)).
Proof.
  intros Hreg.
  pose proof (RegisterCommands_service reg EVAL_cid Hreg ltac:(set_solver)) as He.
  pose proof (RegisterCommands_service reg EVALSHA_cid Hreg ltac:(set_solver)) as Hs.
  change (name EVAL_cid) with "EVAL" in He.
  change (name EVALSHA_cid) with "EVALSHA" in Hs.
  split; [repeat split; assumption|]. split.
  - intros inv a rest w Ha Hsc.
    assert (Hc : exists c, reg !! ToUpper a = Some c
                           /\ has_flag (opt_mask c) CO.NOSCRIPT = true
                           /\ String.eqb (name c) "AUTH" = false).
    { destruct Ha as [-> | ->]; eexists; (split; [eassumption|split; reflexivity]). }
    destruct Hc as (c & Hl & Hn & Hauth).
    assert (Hu : under_script w = true).
    { destruct (script_info (cstate w)) as [si|] eqn:E; [|congruence].
      now apply under_script_Some with si. }
    assert (Hchk : exists err,
               checks reg (ToUpper a :: rest) w = ([SendError err], None)
               /\ (gstate (etl w) = ACTIVE -> auth_pending w = false ->
                   err = "This Redis command is not allowed from script")).
    { unfold checks, auth_pending.
      change (ArgS (ToUpper a :: rest) 0) with (ToUpper a). rewrite Hl.
      destruct (gstate (etl w)); [|eexists; split; [reflexivity|discriminate]..].
      rewrite Hauth. cbn [negb]. rewrite andb_true_r.
      destruct (N.land _ _ =? _)%N; [eexists; split; [reflexivity|discriminate]|].
      rewrite Hu, Hn. eexists; split; reflexivity. }
    destruct Hchk as (err & Hchk & Herr). exists err. split; [|exact Herr].
    now rewrite (DispatchCommand_rejected _ _ _ _ _ _ Hchk).
  - intros Hfam fuel args w Hq.
    pose proof (safe_Dispatch reg Hreg Hfam fuel args w Hq) as Hsafe.
    unfold safe in Hsafe. split.
    + intros Hf. rewrite Hf in Hsafe. congruence.
    + intros w' evs Hd. rewrite Hd in Hsafe. destruct Hsafe as [Hq' Hu].
      split; [exact Hq'|].
      unfold under_script in Hu.
      destruct (script_info (cstate w')), (script_info (cstate w));
        simpl in Hu; split; intros; congruence.
Qed.

Lemma Sample_families_well_behaved : families_well_behaved (H := Sample.ext).
Proof.
  split.
  - intros c Hc. simpl in Hc. unfold Sample.families in Hc.
    repeat (apply elem_of_cons in Hc as [->|Hc]; [eexists; reflexivity|]).
    now apply elem_of_nil in Hc.
  - intros tag args w w' evs H. simpl in H. unfold Sample.invoke_family in H.
    destruct (String.eqb tag "GET"); injection H as <- _; split; reflexivity.
Qed.

(** EVAL called from a script is turned away; EVAL sent by the client,
    whose script reads a key with GET, runs without tripping the
    assertion and leaves no script context behind. *)
Lemma scripts_do_not_nest_witness :
  (exists err,
     DispatchCommand (Ext := Sample.ext) Sample.registry
       (InvokeN (Ext := Sample.ext) Sample.registry 1) ["eval"; "return 1"; "0"]
       (Sample.in_script Sample.w0)
     = Done tt (poison (Sample.in_script Sample.w0)) [Reply (SendError err)]
     /\ err = "This Redis command is not allowed from script")
  /\ Dispatch (Ext := Sample.ext) Sample.registry 3 ["eval"; "return 1"; "1"; "x"]
       Sample.w0 <> Fail script_info_assertion.
Proof.
  destruct (scripts_do_not_nest (Ext := Sample.ext) Sample.registry)
    as (_ & Hreject & Hsafe).
  - vm_compute. reflexivity.
  - split.
    + destruct (Hreject (InvokeN (Ext := Sample.ext) Sample.registry 1)
                  "eval" ["return 1"; "0"] (Sample.in_script Sample.w0))
        as (err & Hd & Herr).
      * left. vm_compute. reflexivity.
      * discriminate.
      * exists err. split; [exact Hd|]. apply Herr; reflexivity.
    + apply (Hsafe Sample_families_well_behaved 3%nat
               ["eval"; "return 1"; "1"; "x"] Sample.w0).
      constructor.
Defined.

(** * Further properties of the code *)

(** * Further properties *)

(** ** InterpreterReplier: whole replies *)

Section ReplierTree.

Context `{Ext : Externals}.

Lemma replier_run_app evs1 : forall evs2 st,
  replier_run (evs1 ++ evs2) st
  = let '(out1, st1) := replier_run evs1 st in
    let '(out2, st2) := replier_run evs2 st1 in
    (out1 ++ out2, st2).
Proof.
  induction evs1 as [|e evs1 IH]; intros evs2 st; simpl.
  - now destruct (replier_run evs2 st).
  - destruct e; try apply IH.
    destruct (replier_call r st) as [out st1]. rewrite IH.
    destruct (replier_run evs1 st1) as [out1 st2].
    destruct (replier_run evs2 st2) as [out2 st3].
    now rewrite app_assoc.
Qed.

Lemma replier_calls_app calls1 calls2 st :
  replier_calls (calls1 ++ calls2) st
  = let '(out1, st1) := replier_calls calls1 st in
    let '(out2, st2) := replier_calls calls2 st1 in
    (out1 ++ out2, st2).
Proof. unfold replier_calls. rewrite map_app. apply replier_run_app. Qed.

Lemma replier_calls_one r st :
  replier_calls [r] st = replier_call r st.
Proof.
  unfold replier_calls. simpl. destruct (replier_call r st) as [out st1].
  now rewrite app_nil_r.
Qed.

Lemma replier_calls_cons r calls st :
  replier_calls (r :: calls) st
  = let '(out1, st1) := replier_call r st in
    let '(out2, st2) := replier_calls calls st1 in
    (out1 ++ out2, st2).
Proof. reflexivity. Qed.

Lemma PostItem_as_loop st :
  Replier.PostItem st
  = Replier.PostItem_loop (u32 (Replier.num_elems_ st + 1)) (Replier.array_len_ st).
Proof. unfold Replier.PostItem. now destruct (Replier.array_len_ st). Qed.

Lemma u32_small z : 0 <= z < 2 ^ 32 -> u32 z = z.
Proof. intros H. unfold u32. now apply Z.mod_small. Qed.

(** The items of an array, sent into its open frame [(saved, n)] that
    holds [k] items already: the frame stays open until the n-th item,
    which closes it and unwinds. *)
Lemma children_delivered saved n stack items :
  Forall delivered items ->
  forallb item_fits items = true ->
  n < 2 ^ 32 ->
  forall k,
    0 <= k -> k + Z.of_nat (length items) <= n ->
    replier_calls (flat_map item_calls items)
      (Replier.mk ((saved, n) :: stack) k)
    = if (0 <? Z.of_nat (length items)) && (k + Z.of_nat (length items) =? n)
      then (flat_map (item_events true) items
              ++ OnArrayEnd :: fst (Replier.PostItem_loop saved stack),
            snd (Replier.PostItem_loop saved stack))
      else (flat_map (item_events true) items,
            Replier.mk ((saved, n) :: stack) (k + Z.of_nat (length items))).
Proof.
  intros Hd. induction Hd as [|x items Hx Hitems IH]; intros Hfit Hn k Hk Hlen.
  - simpl. rewrite Z.add_0_r. reflexivity.
  - simpl in Hfit. apply andb_true_iff in Hfit as [Hfx Hfr].
    cbn [flat_map]. rewrite replier_calls_app, (Hx Hfx).
    cbn [length] in *. rewrite Nat2Z.inj_succ in *.
    change (has_frame (Replier.mk ((saved, n) :: stack) k)) with true.
    rewrite PostItem_as_loop. cbn [Replier.num_elems_ Replier.array_len_].
    rewrite u32_small by lia. cbn [Replier.PostItem_loop].
    replace (0 <? Z.succ (Z.of_nat (length items))) with true
      by (symmetry; apply Z.ltb_lt; lia).
    cbn [andb].
    destruct (Z.eqb_spec (k + 1) n) as [Heq|Hne].
    + assert (Hnil : items = []) by (destruct items; [reflexivity|simpl in Hlen; lia]).
      subst items. cbn [length flat_map] in *.
      destruct (Replier.PostItem_loop saved stack) as [out st'] eqn:El.
      cbn [fst snd]. unfold replier_calls. simpl.
      destruct (Z.eqb_spec (k + Z.succ (Z.of_nat 0)) n); [|simpl in *; lia].
      now rewrite !app_nil_r.
    + cbn [fst snd]. rewrite (IH Hfr Hn (k + 1)) by lia.
      replace (k + 1 + Z.of_nat (length items)) with (k + Z.succ (Z.of_nat (length items)))
        by lia.
      destruct (0 <? Z.of_nat (length items)) eqn:E0; cbn [andb].
      * destruct (_ =? n); rewrite app_nil_r; [now rewrite <- app_assoc|reflexivity].
      * apply Z.ltb_ge in E0.
        assert (items = []) as ->
          by (destruct items; [reflexivity|cbn [length] in E0; lia]).
        cbn [length flat_map] in *.
        destruct (Z.eqb_spec (k + Z.succ (Z.of_nat 0)) n); [simpl in *; lia|].
        unfold replier_calls. simpl. now rewrite !app_nil_r.
Qed.

Lemma ReplyItem_nested_ind (P : ReplyItem -> Prop) :
  P ItemNull -> (forall val, P (ItemLong val)) -> (forall val, P (ItemDouble val)) ->
  (forall str, P (ItemBulk str)) -> (forall str, P (ItemSimple str)) ->
  (forall items, Forall P items -> P (ItemArray items)) ->
  forall t, P t.
Proof.
  intros Hnull Hlong Hdouble Hbulk Hsimple Harray.
  fix IH 1. intros t. destruct t as [|val|val|str|str|items].
  - exact Hnull.
  - apply Hlong.
  - apply Hdouble.
  - apply Hbulk.
  - apply Hsimple.
  - apply Harray. induction items as [|x items IHl]; constructor.
    + apply IH.
    + exact IHl.
Qed.

Lemma every_item_delivered t : delivered t.
Proof.
  induction t as [| | | | |items IH] using ReplyItem_nested_ind; intros Hfit st;
    cbn [item_calls item_events].
  - rewrite replier_calls_one. simpl. unfold Replier.SendNull, Replier.after.
    now destruct (Replier.PostItem st).
  - rewrite replier_calls_one. simpl. unfold Replier.SendLong, Replier.after.
    now destruct (Replier.PostItem st).
  - rewrite replier_calls_one. simpl. unfold Replier.SendDouble, Replier.after.
    now destruct (Replier.PostItem st).
  - rewrite replier_calls_one. simpl. unfold Replier.SendBulkString, Replier.after.
    now destruct (Replier.PostItem st).
  - rewrite replier_calls_one. simpl.
    unfold Replier.SendSimpleString, Replier.after, has_frame.
    destruct (Replier.array_len_ st); now destruct (Replier.PostItem st).
  - cbn [item_fits] in Hfit. apply andb_true_iff in Hfit as [Hn Hfit].
    apply Z.ltb_lt in Hn.
    rewrite replier_calls_cons.
    cbn [replier_call]. unfold Replier.StartArray.
    destruct (Z.eqb_spec (Z.of_nat (length items)) 0) as [H0|H0].
    + assert (items = []) as -> by (destruct items; [reflexivity|simpl in H0; lia]).
      unfold Replier.after. simpl. destruct (Replier.PostItem st) as [out st'].
      unfold replier_calls. simpl. now rewrite app_nil_r.
    + rewrite (children_delivered _ _ _ _ IH Hfit Hn 0) by lia.
      replace (0 <? Z.of_nat (length items)) with true
        by (symmetry; apply Z.ltb_lt; lia).
      rewrite Z.add_0_l, Z.eqb_refl. cbn [andb].
      rewrite PostItem_as_loop.
      destruct (Replier.PostItem_loop _ (Replier.array_len_ st)) as [out st'].
      cbn [fst snd]. simpl. now rewrite <- app_assoc.
Qed.

End ReplierTree.

(** X1: a well-formed reply -- a leaf, or StartArray(n) followed by n
    well-formed items, every n below 2^32 -- sent to an InterpreterReplier
    reaches the explorer as the item's own tree, every OnArrayStart(n)
    closed by its OnArrayEnd after exactly n items.  Inside an open array
    the reply then counts as one item of the enclosing frame (PostItem); on
    a fresh replier, as CallFromScript creates it, the explorer receives
    exactly the tree and the replier is left with an empty stack and one
    element counted. *)
Theorem replier_delivers_reply_tree `{Ext : Externals} (t : ReplyItem) :
  item_fits t = true ->
  (forall st,
     has_frame st = true ->
     replier_calls (item_calls t) st
     = (item_events true t ++ fst (Replier.PostItem st),
        snd (Replier.PostItem st)))
  /\ replier_calls (item_calls t) Replier.init
     = (item_events false t, Replier.mk [] 1).
Proof.
  intros Hfit. split.
  - intros st Hf. rewrite (every_item_delivered t Hfit). now rewrite Hf.
  - rewrite (every_item_delivered t Hfit). simpl. now rewrite app_nil_r.
Qed.

Lemma replier_delivers_reply_tree_witness :
  replier_calls (H := Sample.ext)
    (item_calls (ItemArray [ItemLong 1; ItemArray [ItemBulk "a"; ItemNull];
                            ItemArray []]))
    Replier.init
  = ([OnArrayStart 3; OnInt 1; OnArrayStart 2; OnString "a"; OnNil; OnArrayEnd;
      OnArrayStart 0; OnArrayEnd; OnArrayEnd],
     Replier.mk [] 1).
Proof.
  apply (replier_delivers_reply_tree (Ext := Sample.ext)
           (ItemArray [ItemLong 1; ItemArray [ItemBulk "a"; ItemNull]; ItemArray []])).
  reflexivity.
Defined.

(** X2: inside an open array, SendStringArr and SendNullArray count as
    two items, not one: each runs PostItem at the end of SendSimpleStrArr
    and once more itself (lines 192-200), where SendSimpleStrArr and
    SendBulkString count one.  So an array announced with two items is
    closed by a single SendStringArr, whose own OnArrayEnd is followed at
    once by the OnArrayEnd of the enclosing array. *)
Theorem SendStringArr_counts_twice (arr : list string) saved n stack k :
  0 <= k ->
  k + 2 < n ->
  n < 2 ^ 32 ->
  let st := Replier.mk ((saved, n) :: stack) k in
  let inner := OnArrayStart (Z.of_nat (length arr)) :: map OnString arr ++ [OnArrayEnd] in
  Replier.SendStringArr arr st = (inner, Replier.mk ((saved, n) :: stack) (k + 2))
  /\ Replier.SendNullArray st
     = ([OnArrayStart 0; OnArrayEnd], Replier.mk ((saved, n) :: stack) (k + 2))
  /\ Replier.SendSimpleStrArr arr st
     = (inner, Replier.mk ((saved, n) :: stack) (k + 1))
  /\ (forall str,
        Replier.SendBulkString str st
        = ([OnString str], Replier.mk ((saved, n) :: stack) (k + 1)))
  /\ (forall st0,
        Replier.SendStringArr arr (snd (Replier.StartArray 2 st0))
        = (inner ++ OnArrayEnd
             :: fst (Replier.PostItem_loop (u32 (Replier.num_elems_ st0 + 1))
                       (Replier.array_len_ st0)),
           snd (Replier.PostItem_loop (u32 (Replier.num_elems_ st0 + 1))
                  (Replier.array_len_ st0)))).
Proof.
  intros Hk Hn Hb st inner.
  assert (H1 : Replier.PostItem st = ([], Replier.mk ((saved, n) :: stack) (k + 1))).
  { unfold Replier.PostItem, st. cbn [Replier.array_len_ Replier.num_elems_].
    rewrite u32_small by lia. cbn [Replier.PostItem_loop].
    now destruct (Z.eqb_spec (k + 1) n); [lia|]. }
  assert (H2 : Replier.PostItem (Replier.mk ((saved, n) :: stack) (k + 1))
               = ([], Replier.mk ((saved, n) :: stack) (k + 2))).
  { unfold Replier.PostItem. cbn [Replier.array_len_ Replier.num_elems_].
    rewrite u32_small by lia. cbn [Replier.PostItem_loop].
    replace (k + 1 + 1) with (k + 2) by lia.
    now destruct (Z.eqb_spec (k + 2) n); [lia|]. }
  split; [|split; [|split; [|split]]].
  - unfold Replier.SendStringArr, Replier.SendSimpleStrArr, Replier.after.
    rewrite H1, H2. subst inner. cbn [app]. now rewrite !app_nil_r.
  - unfold Replier.SendNullArray, Replier.SendSimpleStrArr, Replier.after.
    rewrite H1, H2. reflexivity.
  - unfold Replier.SendSimpleStrArr, Replier.after. rewrite H1.
    subst inner. now rewrite !app_nil_r.
  - intros str. unfold Replier.SendBulkString, Replier.after. now rewrite H1.
  - intros st0.
    unfold Replier.SendStringArr, Replier.SendSimpleStrArr, Replier.after,
      Replier.StartArray, Replier.PostItem.
    cbn -[u32 Z.pow]. change (u32 (0 + 1)) with 1. cbn -[u32 Z.pow].
    change (u32 (1 + 1)) with 2. cbn -[u32 Z.pow].
    destruct (Replier.PostItem_loop (u32 (Replier.num_elems_ st0 + 1))
                (Replier.array_len_ st0)) as [o s0].
    cbn [fst snd]. subst inner. now rewrite <- ?app_assoc, ?app_nil_r.
Qed.

Lemma SendStringArr_counts_twice_witness :
  Replier.SendStringArr ["a"; "b"] (Replier.mk [(1, 3)] 0)
  = ([OnArrayStart 2; OnString "a"; OnString "b"; OnArrayEnd], Replier.mk [(1, 3)] 2).
Proof.
  apply (SendStringArr_counts_twice ["a"; "b"] 1 3 [] 0); lia.
Defined.

(** ** The dispatcher: what is refused, queued and run *)

Section DispatcherMore.

Context `{Ext : Externals}.
Variable reg : gmap string CommandId.
Variable inv : CommandId -> list string -> Cmd unit.

Lemma not_inactive s : s <> EXEC_INACTIVE -> exec_inactive s = false.
Proof. now destruct s. Qed.

(** The error returns of the checks write one error unless a validator
    wrote more. *)
Lemma checks_loading a rest w :
  gstate (etl w) <> ACTIVE ->
  exists err,
    checks reg (ToUpper a :: rest) w = ([SendError err], None)
    /\ (forall c, reg !! ToUpper a = Some c ->
        err = "Can not execute during " +:+ GlobalState_Name (gstate (etl w))).
Proof.
  intros Hg. unfold checks. change (ArgS (ToUpper a :: rest) 0) with (ToUpper a).
  destruct (reg !! ToUpper a) as [c|]; [|eexists; split; [reflexivity|discriminate]].
  destruct (gstate (etl w)) eqn:E; [congruence| |];
    (eexists; split; [reflexivity|reflexivity]).
Qed.

Lemma checks_unauthenticated a rest w :
  auth_pending w = true ->
  (forall c, reg !! ToUpper a = Some c -> name c <> "AUTH") ->
  exists err,
    checks reg (ToUpper a :: rest) w = ([SendError err], None)
    /\ (forall c, reg !! ToUpper a = Some c -> gstate (etl w) = ACTIVE ->
        err = "-NOAUTH Authentication required.").
Proof.
  intros Ha Hn. unfold checks, auth_pending in *.
  change (ArgS (ToUpper a :: rest) 0) with (ToUpper a).
  destruct (reg !! ToUpper a) as [c|]; [|eexists; split; [reflexivity|discriminate]].
  destruct (gstate (etl w)); [|eexists; split; [reflexivity|discriminate]..].
  rewrite Ha. specialize (Hn c eq_refl). apply String.eqb_neq in Hn. rewrite Hn.
  eexists; split; reflexivity.
Qed.

Lemma checks_replica a rest w c :
  reg !! ToUpper a = Some c ->
  is_master (etl w) = false ->
  has_flag (opt_mask c) CO.WRITE || (under_script w && script_is_write_now w) = true ->
  exists err,
    checks reg (ToUpper a :: rest) w = ([SendError err], None)
    /\ (reaches_script_check c w = true ->
        under_script w && has_flag (opt_mask c) CO.NOSCRIPT = false ->
        err = "-READONLY You can't write against a read only replica.").
Proof.
  intros Hc Hm Hw. unfold checks, reaches_script_check.
  change (ArgS (ToUpper a :: rest) 0) with (ToUpper a). rewrite Hc.
  destruct (gstate (etl w)); [|eexists; split; [reflexivity|discriminate]..].
  destruct ((N.land _ _ =? _)%N && _); [eexists; split; [reflexivity|discriminate]|].
  destruct (under_script w && has_flag _ CO.NOSCRIPT);
    [eexists; split; [reflexivity|discriminate]|].
  rewrite Hm, Hw. eexists; split; reflexivity.
Qed.

Lemma DispatchCommand_queues a rest w written c :
  checks reg (ToUpper a :: rest) w = (written, Some c) ->
  exec_state (cstate w) <> EXEC_INACTIVE ->
  is_trans_cmd (ToUpper a) = false ->
  DispatchCommand reg inv (a :: rest) w
  = Done tt
      (with_queue (exec_body (cstate w) ++ [{| descr := c; cmd := ToUpper a :: rest |}]) w)
      (map Reply written ++ [Reply (SendSimpleString "QUEUED")]).
Proof.
  intros Hc Hs Ht.
  rewrite (DispatchCommand_accepted _ _ _ _ _ _ _ Hc), Ht.
  unfold run_checked. rewrite bind_emit, bind_get.
  rewrite (not_inactive _ Hs). reflexivity.
Qed.

End DispatcherMore.

(** X3: while a transaction is being collected (exec_state not
    EXEC_INACTIVE), a command other than MULTI and EXEC that passes the
    checks is not run: it is appended to the end of exec_body with its argv
    (the name uppercased), the reply is QUEUED, and nothing else changes --
    exec_state, the transaction pointer and the current command stay as they
    were and the handler is not called. *)
Theorem queued_under_multi `{Ext : Externals} reg inv a rest w written c :
  checks reg (ToUpper a :: rest) w = (written, Some c) ->
  exec_state (cstate w) <> EXEC_INACTIVE ->
  is_trans_cmd (ToUpper a) = false ->
  let w' := with_queue
              (exec_body (cstate w) ++ [{| descr := c; cmd := ToUpper a :: rest |}]) w in
  DispatchCommand reg inv (a :: rest) w
  = Done tt w' (map Reply written ++ [Reply (SendSimpleString "QUEUED")])
  /\ exec_state (cstate w') = exec_state (cstate w)
  /\ transaction (cntx w') = transaction (cntx w)
  /\ cid (cntx w') = cid (cntx w).
Proof.
  intros Hc Hs Ht w'. split; [|repeat split].
  now apply DispatchCommand_queues.
Qed.

Lemma queued_under_multi_witness :
  exists w',
    DispatchCommand (Ext := Sample.ext) Sample.registry
      (InvokeN (Ext := Sample.ext) Sample.registry 1) ["set"; "k"; "v"] Sample.w_multi
    = Done tt w' (map Reply [] ++ [Reply (SendSimpleString "QUEUED")])
    /\ exec_state (cstate w') = exec_state (cstate Sample.w_multi).
Proof.
  destruct (queued_under_multi (Ext := Sample.ext) Sample.registry
              (InvokeN (Ext := Sample.ext) Sample.registry 1)
              "set" ["k"; "v"] Sample.w_multi []
              (CI "SET" 4 (-3) 1 1 1 (HFamily "SET") None))
    as (H1 & H2 & _).
  - vm_compute. reflexivity.
  - discriminate.
  - reflexivity.
  - eexists. split; [exact H1|exact H2].
Defined.

(** X4: while the global state is LOADING or SHUTTING_DOWN every dispatch
    is an error return: one error is written, no handler runs, nothing is
    queued.  For a registered command the error is
    Can not execute during <state>, whatever its option mask -- the
    LOADING option of MULTI and EXEC is not consulted. *)
Theorem nothing_runs_while_loading `{Ext : Externals} reg inv a rest w :
  gstate (etl w) <> ACTIVE ->
  exists err,
    DispatchCommand reg inv (a :: rest) w = Done tt (poison w) [Reply (SendError err)]
    /\ (forall c, reg !! ToUpper a = Some c ->
        err = "Can not execute during " +:+ GlobalState_Name (gstate (etl w))).
Proof.
  intros Hg. destruct (checks_loading reg a rest w Hg) as (err & Hc & He).
  exists err. split; [|exact He].
  now rewrite (DispatchCommand_rejected _ _ _ _ _ _ Hc).
Qed.

Lemma nothing_runs_while_loading_witness :
  exists err,
    DispatchCommand (Ext := Sample.ext) Sample.registry
      (InvokeN (Ext := Sample.ext) Sample.registry 1) ["multi"] Sample.w_loading
    = Done tt (poison Sample.w_loading) [Reply (SendError err)]
    /\ (forall c, Sample.registry !! ToUpper "multi" = Some c ->
        err = "Can not execute during "
              +:+ GlobalState_Name (Externals := Sample.ext) (gstate (etl Sample.w_loading))).
Proof.
  apply (nothing_runs_while_loading (Ext := Sample.ext) Sample.registry
           (InvokeN (Ext := Sample.ext) Sample.registry 1) "multi" [] Sample.w_loading).
  discriminate.
Defined.

(** X5: on a connection that must authenticate and has not (REQ_AUTH set,
    AUTHENTICATED clear) no command but AUTH gets past the dispatcher: every
    other dispatch is an error return, and for a registered command on an
    active server the error is -NOAUTH Authentication required. *)
Theorem only_AUTH_before_authentication `{Ext : Externals} reg inv a rest w :
  auth_pending w = true ->
  (forall c, reg !! ToUpper a = Some c -> name c <> "AUTH") ->
  exists err,
    DispatchCommand reg inv (a :: rest) w = Done tt (poison w) [Reply (SendError err)]
    /\ (forall c, reg !! ToUpper a = Some c -> gstate (etl w) = ACTIVE ->
        err = "-NOAUTH Authentication required.").
Proof.
  intros Ha Hn.
  destruct (checks_unauthenticated reg a rest w Ha Hn) as (err & Hc & He).
  exists err. split; [|exact He].
  now rewrite (DispatchCommand_rejected _ _ _ _ _ _ Hc).
Qed.

Lemma only_AUTH_before_authentication_witness :
  let w := with_cntx (with_conn_state (fun cs =>
             {| db_index := db_index cs; mask := ConnMask.REQ_AUTH;
                exec_state := exec_state cs; exec_body := exec_body cs;
                script_info := script_info cs; memcache_flag := memcache_flag cs |}))
             Sample.w0 in
  exists err,
    DispatchCommand (Ext := Sample.ext) Sample.registry
      (InvokeN (Ext := Sample.ext) Sample.registry 1) ["get"; "k"] w
    = Done tt (poison w) [Reply (SendError err)]
    /\ (forall c, Sample.registry !! ToUpper "get" = Some c -> gstate (etl w) = ACTIVE ->
        err = "-NOAUTH Authentication required.").
Proof.
  intros w.
  apply (only_AUTH_before_authentication (Ext := Sample.ext) Sample.registry
           (InvokeN (Ext := Sample.ext) Sample.registry 1) "get" ["k"] w).
  - reflexivity.
  - intros c Hc. vm_compute in Hc. injection Hc as <-. discriminate.
Defined.

(** X6: on a replica (is_master false) a command with the WRITE option,
    and any command dispatched from a script flagged as writing, is never
    run nor queued: the dispatch is an error return, and the error is
    -READONLY You can't write against a read only replica. when the checks
    before it pass. *)
Theorem replica_refuses_writes `{Ext : Externals} reg inv a rest w c :
  reg !! ToUpper a = Some c ->
  is_master (etl w) = false ->
  has_flag (opt_mask c) CO.WRITE || (under_script w && script_is_write_now w) = true ->
  exists err,
    DispatchCommand reg inv (a :: rest) w = Done tt (poison w) [Reply (SendError err)]
    /\ (reaches_script_check c w = true ->
        under_script w && has_flag (opt_mask c) CO.NOSCRIPT = false ->
        err = "-READONLY You can't write against a read only replica.").
Proof.
  intros Hc Hm Hw.
  destruct (checks_replica reg a rest w c Hc Hm Hw) as (err & Hk & He).
  exists err. split; [|exact He].
  now rewrite (DispatchCommand_rejected _ _ _ _ _ _ Hk).
Qed.

Lemma replica_refuses_writes_witness :
  let w := {| cntx := cntx Sample.w0;
              etl := {| gstate := ACTIVE; is_master := false; interpreter := ∅ |};
              script_mgr := ∅ |} in
  exists err,
    DispatchCommand (Ext := Sample.ext) Sample.registry
      (InvokeN (Ext := Sample.ext) Sample.registry 1) ["set"; "k"; "v"] w
    = Done tt (poison w) [Reply (SendError err)]
    /\ err = "-READONLY You can't write against a read only replica.".
Proof.
  intros w.
  destruct (replica_refuses_writes (Ext := Sample.ext) Sample.registry
              (InvokeN (Ext := Sample.ext) Sample.registry 1) "set" ["k"; "v"] w
              (CI "SET" 4 (-3) 1 1 1 (HFamily "SET") None))
    as (err & Hd & He).
  - vm_compute. reflexivity.
  - reflexivity.
  - reflexivity.
  - exists err. split; [exact Hd|]. apply He; reflexivity.
Defined.

Section DispatcherRun.

Context `{Ext : Externals}.
Variable reg : gmap string CommandId.
Variable inv : CommandId -> list string -> Cmd unit.

Lemma bind_unfold {A B} (m : Cmd A) (k : A -> Cmd B) w :
  bind m k w
  = match m w with
    | Fail f => Fail f
    | Done a w1 evs1 =>
        match k a w1 with
        | Fail f => Fail f
        | Done b w2 evs2 => Done b w2 (evs1 ++ evs2)
        end
    end.
Proof. reflexivity. Qed.

Lemma not_queued st name :
  st = EXEC_INACTIVE \/ is_trans_cmd name = true ->
  negb (exec_inactive st) && negb (is_trans_cmd name) = false.
Proof. intros [-> | ->]; [reflexivity|apply andb_false_r]. Qed.

Lemma undeclared_key_found (ks : gset string) args first last i :
  (first <= i < last)%nat ->
  ArgS args i ∉ ks ->
  forallb (fun i => bool_decide (ArgS args i ∈ ks)) (seq first (last - first)) = false.
Proof.
  intros Hi Hk. apply not_true_is_false. intros E.
  rewrite forallb_forall in E. specialize (E i).
  rewrite in_seq in E. apply bool_decide_eq_true in E; [contradiction|lia].
Qed.

Lemma DCHECK_release what cond w :
  (debug_build = true -> cond = true) -> DCHECK what cond w = Done tt w [].
Proof.
  intros H. unfold DCHECK. destruct debug_build; [|reflexivity].
  now rewrite (H eq_refl).
Qed.

End DispatcherRun.

(** X7: on a connection that is not collecting a transaction
    (exec_state EXEC_INACTIVE, so that the command is not queued), a command
    dispatched from a script that passes the checks and names a key (an
    argument at a position of DetermineKeys' range) the script did not
    declare is refused with script tried accessing undeclared key: the
    handler does not run, the script's transaction is not re-targeted (no
    SetExecCmd, no InitByArgs) and the connection is left exactly as it
    was. *)
Theorem script_undeclared_key `{Ext : Externals} reg inv a rest w written c si
    first last i :
  checks reg (ToUpper a :: rest) w = (written, Some c) ->
  script_info (cstate w) = Some si ->
  exec_state (cstate w) = EXEC_INACTIVE ->
  (debug_build = true -> is_Some (transaction (cntx w))) ->
  DetermineKeys c (ToUpper a :: rest) = (first, last) ->
  (first <= i < last)%nat ->
  ArgS (ToUpper a :: rest) i ∉ keys si ->
  DispatchCommand reg inv (a :: rest) w
  = Done tt w (map Reply written
               ++ [Reply (SendError "script tried accessing undeclared key")]).
Proof.
  intros Hc Hs Hq Ht Hk Hi Hn.
  rewrite (DispatchCommand_accepted _ _ _ _ _ _ _ Hc), (under_script_Some _ _ Hs).
  unfold run_checked. rewrite bind_emit, bind_get, (not_queued _ _ (or_introl Hq)).
  erewrite bind_Done
    by (apply DCHECK_release; intros D; apply bool_decide_eq_true; auto).
  rewrite Hk, Hs, (undeclared_key_found _ _ _ _ _ Hi Hn). reflexivity.
Qed.

Lemma script_undeclared_key_witness :
  DispatchCommand (Ext := Sample.ext) Sample.registry
    (InvokeN (Ext := Sample.ext) Sample.registry 1) ["get"; "y"]
    (Sample.in_script Sample.w0)
  = Done tt (Sample.in_script Sample.w0)
      (map Reply [] ++ [Reply (SendError "script tried accessing undeclared key")]).
Proof.
  apply (script_undeclared_key (Ext := Sample.ext) Sample.registry
           (InvokeN (Ext := Sample.ext) Sample.registry 1) "get" ["y"]
           (Sample.in_script Sample.w0) []
           (CI "GET" (N.lor CO.READONLY CO.FAST) 2 1 1 1 (HFamily "GET") None)
           {| keys := {["x"]}; is_write := true |} 1 2 1).
  - vm_compute. reflexivity.
  - reflexivity.
  - reflexivity.
  - intros _. eexists. reflexivity.
  - reflexivity.
  - lia.
  - apply (bool_decide_unpack _). vm_compute. exact I.
Defined.


(** X8: outside a script, a command that passes the checks and is not
    queued has its handler called once, with the argv whose name is
    uppercased, on a connection whose cid is the command and whose
    transaction pointer is a fresh transaction for that command initialised
    with the connection's db_index and the argv when the command is
    transactional, and null when it is not; the connection state itself is
    untouched before the call.  A handler that does not return stops the
    dispatch; after one that returns the pointer is reset and nothing of the
    connection state is changed by the dispatcher. *)
Theorem handler_call_outside_script `{Ext : Externals} reg inv a rest w written c :
  checks reg (ToUpper a :: rest) w = (written, Some c) ->
  script_info (cstate w) = None ->
  transaction (cntx w) = None ->
  exec_state (cstate w) = EXEC_INACTIVE \/ is_trans_cmd (ToUpper a) = true ->
  let args := ToUpper a :: rest in
  let pre := if IsTransactional c
             then [Tx (InitByArgs (db_index (cstate w)) args)] else [] in
  exists w_call finish,
    cstate w_call = cstate w /\ etl w_call = etl w /\ script_mgr w_call = script_mgr w
    /\ cid (cntx w_call) = Some c
    /\ transaction (cntx w_call)
       = (if IsTransactional c
          then Some {| tx_cid := c; tx_init := Some (db_index (cstate w), args) |}
          else None)
    /\ DispatchCommand reg inv (a :: rest) w
       = match inv c args w_call with
         | Fail f => Fail f
         | Done _ w2 evs =>
             Done tt (finish w2) (map Reply written ++ pre ++ Invoke c args :: evs)
         end
    /\ (forall w2,
        transaction (cntx (finish w2)) = None
        /\ cid (cntx (finish w2)) = cid (cntx w2)
        /\ cstate (finish w2) = cstate w2 /\ etl (finish w2) = etl w2
        /\ script_mgr (finish w2) = script_mgr w2).
Proof.
  intros Hc Hs Ht Hq args pre. subst pre.
  rewrite (DispatchCommand_accepted _ _ _ _ _ _ _ Hc), (under_script_None _ Hs).
  fold args. unfold run_checked. rewrite bind_emit, bind_get, (not_queued _ _ Hq).
  cbn [negb]. cbv iota.
  erewrite bind_Done by (apply DCHECK_holds; now rewrite Ht).
  destruct (IsTransactional c) eqn:Etx.
  - unfold modify_cntx at 1. rewrite bind_modify.
    unfold transaction_InitByArgs, with_transaction.
    erewrite (bind_Done (bind get _)).
    2:{ rewrite bind_get. cbn [cntx with_cntx transaction set_transaction].
        unfold tx_call, modify_cntx. rewrite bind_emit. unfold modify. reflexivity. }
    rewrite bind_get. unfold modify_cntx at 1. rewrite bind_modify.
    unfold call_handler. unfold modify_cntx at 1. rewrite bind_modify, bind_emit.
    rewrite (bind_unfold (inv c args)).
    match goal with |- context [inv c args ?W] => set (wc := W) end.
    exists wc.
    eexists (fun w2 => with_cntx (set_transaction None) (with_cntx _ w2)).
    do 5 (split; [reflexivity|]).
    split.
    + destruct (inv c args wc) as [[] wh evh|f]; [|reflexivity].
      cbv [bind get modify_cntx modify ret negb]. cbn [app].
      rewrite ?app_nil_r. reflexivity.
    + intros w2; repeat split; reflexivity.
  - unfold modify_cntx at 1. rewrite bind_modify.
    unfold call_handler. unfold modify_cntx at 1. rewrite bind_modify, bind_emit.
    rewrite (bind_unfold (inv c args)).
    match goal with |- context [inv c args ?W] => set (wc := W) end.
    exists wc, (with_cntx (set_transaction None)).
    do 4 (split; [reflexivity|]).
    split; [reflexivity|].
    split.
    + destruct (inv c args wc) as [[] wh evh|f]; [|reflexivity].
      rewrite bind_ret. cbn [negb]. unfold modify_cntx, modify.
      cbn [app]. rewrite ?app_nil_r. reflexivity.
    + intros w2; repeat split; reflexivity.
Qed.

Lemma handler_call_outside_script_witness :
  exists w_call,
    cid (cntx w_call)
    = Some (CI "GET" (N.lor CO.READONLY CO.FAST) 2 1 1 1 (HFamily "GET") None)
    /\ transaction (cntx w_call)
       = Some {| tx_cid := CI "GET" (N.lor CO.READONLY CO.FAST) 2 1 1 1
                             (HFamily "GET") None;
                 tx_init := Some (0, ["GET"; "k"]) |}.
Proof.
  destruct (handler_call_outside_script (Ext := Sample.ext) Sample.registry
              (InvokeN (Ext := Sample.ext) Sample.registry 1) "get" ["k"]
              Sample.w0 []
              (CI "GET" (N.lor CO.READONLY CO.FAST) 2 1 1 1 (HFamily "GET") None))
    as (w_call & _ & _ & _ & _ & Hcid & Htx & _).
  - vm_compute. reflexivity.
  - reflexivity.
  - reflexivity.
  - left. reflexivity.
  - exists w_call. split; [exact Hcid|exact Htx].
Defined.


(** X9: under a script, on a connection that is not collecting a
    transaction (exec_state EXEC_INACTIVE, so that the command is not
    queued), a command that passes the checks and touches only declared keys
    runs inside the script's transaction: the dispatcher re-targets that
    transaction (SetExecCmd with the command, then InitByArgs with the
    connection's db_index and the argv), sets cid and calls the handler
    once; after the handler it changes nothing -- the transaction pointer
    is not reset and last_command_debug is not written. *)
Theorem handler_call_under_script `{Ext : Externals} reg inv a rest w written c si
    t first last :
  checks reg (ToUpper a :: rest) w = (written, Some c) ->
  script_info (cstate w) = Some si ->
  transaction (cntx w) = Some t ->
  exec_state (cstate w) = EXEC_INACTIVE ->
  DetermineKeys c (ToUpper a :: rest) = (first, last) ->
  (forall i, (first <= i < last)%nat -> ArgS (ToUpper a :: rest) i ∈ keys si) ->
  let args := ToUpper a :: rest in
  let pre := [Tx (SetExecCmd c); Tx (InitByArgs (db_index (cstate w)) args)] in
  exists w_call,
    cstate w_call = cstate w /\ etl w_call = etl w /\ script_mgr w_call = script_mgr w
    /\ cid (cntx w_call) = Some c
    /\ transaction (cntx w_call)
       = Some {| tx_cid := c; tx_init := Some (db_index (cstate w), args) |}
    /\ last_command_debug (cntx w_call) = last_command_debug (cntx w)
    /\ DispatchCommand reg inv (a :: rest) w
       = match inv c args w_call with
         | Fail f => Fail f
         | Done _ w2 evs => Done tt w2 (map Reply written ++ pre ++ Invoke c args :: evs)
         end.
Proof.
  intros Hc Hs Ht Hq Hk Hall args pre.
  rewrite (DispatchCommand_accepted _ _ _ _ _ _ _ Hc), (under_script_Some _ _ Hs).
  fold args. unfold run_checked. rewrite bind_emit, bind_get, (not_queued _ _ (or_introl Hq)).
  erewrite bind_Done by (apply DCHECK_holds; rewrite Ht; now apply bool_decide_eq_true).
  fold args in Hk. rewrite Hk, Hs.
  replace (forallb _ _) with true.
  2:{ symmetry. apply forallb_forall. intros i Hi. apply in_seq in Hi.
      apply bool_decide_eq_true, Hall. lia. }
  unfold transaction_SetExecCmd, transaction_InitByArgs, with_transaction.
  erewrite (bind_Done (bind get _)).
  2:{ rewrite bind_get, Ht. unfold tx_call, modify_cntx.
      rewrite bind_emit. unfold modify. reflexivity. }
  erewrite (bind_Done (bind get _)).
  2:{ rewrite bind_get. cbn [cntx with_cntx transaction set_transaction].
      unfold tx_call, modify_cntx. rewrite bind_emit. unfold modify. reflexivity. }
  unfold call_handler. unfold modify_cntx at 1. rewrite bind_modify, bind_emit.
  rewrite (bind_unfold (inv c args)).
  match goal with |- context [inv c args ?W] => set (wc := W) end.
  exists wc. repeat split; try reflexivity.
  destruct (inv c args wc) as [[] wh evh|f]; [|reflexivity].
  rewrite bind_ret. cbn [negb]. unfold ret. cbn [app].
  now rewrite !app_nil_r.
Qed.

Lemma handler_call_under_script_witness :
  exists w_call,
    transaction (cntx w_call)
    = Some {| tx_cid := CI "GET" (N.lor CO.READONLY CO.FAST) 2 1 1 1
                          (HFamily "GET") None;
              tx_init := Some (0, ["GET"; "x"]) |}
    /\ last_command_debug (cntx w_call)
       = last_command_debug (cntx (Sample.in_script Sample.w0)).
Proof.
  destruct (handler_call_under_script (Ext := Sample.ext) Sample.registry
              (InvokeN (Ext := Sample.ext) Sample.registry 1) "get" ["x"]
              (Sample.in_script Sample.w0) []
              (CI "GET" (N.lor CO.READONLY CO.FAST) 2 1 1 1 (HFamily "GET") None)
              {| keys := {["x"]}; is_write := true |}
              {| tx_cid := EVAL_cid; tx_init := None |} 1 2)
    as (w_call & _ & _ & _ & _ & Htx & Hdbg & _).
  - vm_compute. reflexivity.
  - reflexivity.
  - reflexivity.
  - reflexivity.
  - reflexivity.
  - intros i Hi. assert (i = 1%nat) as -> by lia.
    apply (bool_decide_unpack _). vm_compute. exact I.
  - exists w_call. split; [exact Htx|exact Hdbg].
Defined.

(** ** The command name is matched without regard to case *)

Lemma ascii_toupper_idempotent c : ascii_toupper (ascii_toupper c) = ascii_toupper c.
Proof. destruct c as [[] [] [] [] [] [] [] []]; reflexivity. Qed.

Lemma ToUpper_idempotent s : ToUpper (ToUpper s) = ToUpper s.
Proof.
  unfold ToUpper. induction s as [|c s IH]; [reflexivity|].
  cbn [string_map]. now rewrite ascii_toupper_idempotent, IH.
Qed.

Lemma ascii_toupper_tolower c : ascii_toupper (ascii_tolower c) = ascii_toupper c.
Proof. destruct c as [[] [] [] [] [] [] [] []]; reflexivity. Qed.

Lemma ToUpper_ToLower s : ToUpper (ToLower s) = ToUpper s.
Proof.
  unfold ToUpper, ToLower. induction s as [|c s IH]; [reflexivity|].
  cbn [string_map]. now rewrite ascii_toupper_tolower, IH.
Qed.

Lemma DispatchCommand_upper `{Ext : Externals} reg inv a rest :
  DispatchCommand reg inv (a :: rest)
  = DispatchCommand reg inv (ToUpper a :: rest).
Proof.
  unfold DispatchCommand. cbn [upper_first]. now rewrite ToUpper_idempotent.
Qed.

(** X10: the dispatcher looks at the command name only after uppercasing
    it in place: two argvs whose names differ in ASCII case only and whose
    other arguments are equal are dispatched identically (same replies,
    same handler call, same failure), and so are a name, its uppercase and
    its lowercase form.  The other arguments are not case-folded by the
    dispatcher. *)
Theorem command_name_case_insensitive `{Ext : Externals} reg inv a a' rest w :
  ToUpper a = ToUpper a' ->
  DispatchCommand reg inv (a :: rest) w = DispatchCommand reg inv (a' :: rest) w
  /\ DispatchCommand reg inv (ToUpper a :: rest) w = DispatchCommand reg inv (a :: rest) w
  /\ DispatchCommand reg inv (ToLower a :: rest) w = DispatchCommand reg inv (a :: rest) w.
Proof.
  intros E. repeat split.
  - now rewrite (DispatchCommand_upper _ _ a), (DispatchCommand_upper _ _ a'), E.
  - now rewrite <- DispatchCommand_upper.
  - now rewrite (DispatchCommand_upper _ _ (ToLower a)), ToUpper_ToLower,
      <- DispatchCommand_upper.
Qed.

Lemma command_name_case_insensitive_witness :
  DispatchCommand (Ext := Sample.ext) Sample.registry
    (InvokeN (Ext := Sample.ext) Sample.registry 1) ["gEt"; "k"] Sample.w0
  = DispatchCommand (Ext := Sample.ext) Sample.registry
      (InvokeN (Ext := Sample.ext) Sample.registry 1) ["Get"; "k"] Sample.w0.
Proof.
  apply (command_name_case_insensitive (Ext := Sample.ext) Sample.registry
           (InvokeN (Ext := Sample.ext) Sample.registry 1) "gEt" "Get" ["k"] Sample.w0).
  reflexivity.
Defined.

(** ** EXEC *)

Section ExecMore.

Context `{Ext : Externals}.
Variable inv : CommandId -> list string -> Cmd unit.







Lemma Exec_ends args w w' evs :
  exec_state (cstate w) <> EXEC_INACTIVE ->
  Exec inv args w = Done tt w' evs ->
  exec_state (cstate w') = EXEC_INACTIVE /\ exec_body (cstate w') = [].
Proof.
  intros Hs H. unfold Exec in H. rewrite bind_get in H.
  destruct (exec_state (cstate w)); [congruence| |];
    bind_inv_in H; cmd_inj; split; reflexivity.
Qed.


End ExecMore.

(** X11: EXEC on a collected but empty queue replies with the empty
    array and makes no call on the transaction -- no SetExecCmd, no
    UnlockMulti, not even a look at the pointer -- and leaves the connection
    out of the MULTI state. *)
Theorem Exec_empty_queue `{Ext : Externals} inv args w :
  exec_state (cstate w) = EXEC_COLLECT ->
  exec_body (cstate w) = [] ->
  Exec inv args w = Done tt (discarded w) [Reply (StartArray 0)].
Proof.
  intros Hs Hb. unfold Exec. rewrite bind_get, Hs, Hb. reflexivity.
Qed.

Lemma Exec_empty_queue_witness :
  Exec (Ext := Sample.ext) (InvokeN (Ext := Sample.ext) Sample.registry 1) ["EXEC"]
    Sample.w_multi
  = Done tt (discarded Sample.w_multi) [Reply (StartArray 0)].
Proof.
  apply (Exec_empty_queue (Ext := Sample.ext)
           (InvokeN (Ext := Sample.ext) Sample.registry 1) ["EXEC"] Sample.w_multi);
    reflexivity.
Defined.

(** X12: whatever the queued commands did -- replied with errors, stopped
    the loop, changed the connection -- an EXEC that returns from a MULTI
    state leaves exec_state EXEC_INACTIVE and the queue empty. *)
Theorem Exec_always_ends_transaction `{Ext : Externals} inv args w w' evs :
  exec_state (cstate w) <> EXEC_INACTIVE ->
  Exec inv args w = Done tt w' evs ->
  exec_state (cstate w') = EXEC_INACTIVE /\ exec_body (cstate w') = [].
Proof. apply Exec_ends. Qed.

Lemma Exec_always_ends_transaction_witness :
  let w := with_cntx (set_transaction (Some {| tx_cid := EXEC_cid; tx_init := None |}))
             (with_cntx (with_conn_state (set_exec_body
                [{| descr := CI "GET" (N.lor CO.READONLY CO.FAST) 2 1 1 1
                               (HFamily "GET") None;
                    cmd := ["GET"; "k"] |}])) Sample.w_multi) in
  exists w' evs,
    Exec (Ext := Sample.ext) (InvokeN (Ext := Sample.ext) Sample.registry 1) ["EXEC"] w
    = Done tt w' evs
    /\ exec_state (cstate w') = EXEC_INACTIVE /\ exec_body (cstate w') = [].
Proof.
  intros w. eexists _, _. split; [vm_compute; reflexivity|].
  eapply (Exec_always_ends_transaction (Ext := Sample.ext)
            (InvokeN (Ext := Sample.ext) Sample.registry 1) ["EXEC"] w).
  - discriminate.
  - vm_compute. reflexivity.
Defined.





(** ** EVAL and EVALSHA *)

Section EvalMore.

Context `{Ext : Externals}.
Variable reg : gmap string CommandId.
Variable inv : CommandId -> list string -> Cmd unit.

Lemma u64_small z : 0 <= z < 2 ^ 64 -> u64 z = z.
Proof. intros H. unfold u64. now apply Z.mod_small. Qed.

(** EvalValidator once the wrap-arounds are out of the way. *)
Lemma EvalValidator_spec args n :
  SimpleAtoi_int32 (ArgS args 2) = Some n ->
  - 2 ^ 31 <= n < 2 ^ 31 ->
  (3 <= length args)%nat ->
  Z.of_nat (length args) < 2 ^ 64 ->
  EvalValidator args
  = if n <? 0 then (false, [SendError kInvalidIntErr])
    else if Z.of_nat (length args) - 3 <? n
         then (false,
               [SendError "Number of keys can't be greater than number of args"])
         else (true, []).
Proof.
  intros Hp Hn Hl Hb. unfold EvalValidator. rewrite Hp.
  destruct (Z.ltb_spec n 0); [reflexivity|].
  rewrite u64_small by lia. rewrite u32_small by lia. reflexivity.
Qed.

Lemma AddFunction_cntx body w r w' evs :
  AddFunction body w = Done r w' evs -> cntx w' = cntx w.
Proof.
  unfold AddFunction. rewrite bind_get.
  destruct (interpreter_Exists _ w); [now intros [= _ <- _]|].
  destruct (lua_compile_error body); [now intros [= _ <- _]|].
  rewrite bind_modify. now intros [= _ <- _].
Qed.

Lemma CHECK_inv what cond w a w' evs :
  CHECK what cond w = Done a w' evs -> w' = w /\ evs = [].
Proof. unfold CHECK. destruct cond; [now intros [= _ <- <-]|discriminate]. Qed.

Lemma load_cached_cntx body sha w a w' evs :
  load_cached body sha w = Done a w' evs -> cntx w' = cntx w.
Proof.
  unfold load_cached. intros H. bind_inv_in H.
  apply AddFunction_cntx in E. apply CHECK_inv in E0 as [-> _].
  apply CHECK_inv in H as [-> _]. exact E.
Qed.

Lemma find_function_cntx sha w b w' evs :
  find_function sha w = Done b w' evs -> cntx w' = cntx w.
Proof.
  unfold find_function. rewrite bind_get.
  destruct (interpreter_Exists sha w); [now intros [= _ <- _]|].
  destruct (script_mgr w !! sha); [|now intros [= _ <- _]].
  intros H. bind_inv_in H. apply load_cached_cntx in E.
  inversion H; subst. exact E.
Qed.

Lemma tx_when_cstate (cond : bool) what t w a w' evs :
  (if cond then ret tt else with_transaction what (fun _ => tx_call t)) w
  = Done a w' evs ->
  w' = w.
Proof.
  destruct cond; [now intros [= _ <- _]|].
  unfold with_transaction. rewrite bind_get.
  destruct (transaction (cntx w)); [|discriminate]. now intros [= _ <- _].
Qed.


Lemma ascii_tolower_idempotent c : ascii_tolower (ascii_tolower c) = ascii_tolower c.
Proof. destruct c as [[] [] [] [] [] [] [] []]; reflexivity. Qed.

Lemma ToLower_idempotent s : ToLower (ToLower s) = ToLower s.
Proof.
  unfold ToLower. induction s as [|c s IH]; [reflexivity|].
  cbn [string_map]. now rewrite ascii_tolower_idempotent, IH.
Qed.

Lemma ascii_isxdigit_tolower c : ascii_isxdigit (ascii_tolower c) = ascii_isxdigit c.
Proof. destruct c as [[] [] [] [] [] [] [] []]; reflexivity. Qed.

Lemma IsSHA_ToLower s : IsSHA (ToLower s) = IsSHA s.
Proof.
  unfold IsSHA, ToLower. induction s as [|c s IH]; [reflexivity|].
  cbn [string_map string_forall]. now rewrite ascii_isxdigit_tolower, IH.
Qed.

Lemma str_len_ToLower s : str_len (ToLower s) = str_len s.
Proof.
  unfold str_len, ToLower. f_equal.
  induction s as [|c s IH]; [reflexivity|]. cbn. now rewrite IH.
Qed.

(** On a validated argv the two subspans are in range, whatever the
    world. *)
Lemma subspans_in_range args n :
  SimpleAtoi_int32 (ArgS args 2) = Some n ->
  - 2 ^ 31 <= n < 2 ^ 31 ->
  (3 <= length args)%nat ->
  Z.of_nat (length args) < 2 ^ 64 ->
  fst (EvalValidator args) = true ->
  (forall w, subspan args 3 (Some n) w = Done (take (Z.to_nat n) (drop 3 args)) w [])
  /\ (forall w, subspan args (u32 (3 + n)) None w
                = Done (drop (Z.to_nat n) (drop 3 args)) w [])
  /\ (Z.to_nat n <= length (drop 3 args))%nat.
Proof.
  intros Hp Hn Hl Hb Hv. rewrite (EvalValidator_spec args n Hp Hn Hl Hb) in Hv.
  destruct (Z.ltb_spec n 0); [discriminate|].
  destruct (Z.ltb_spec (Z.of_nat (length args) - 3) n); [discriminate|].
  unfold subspan. rewrite u32_small by lia.
  destruct (Z.ltb_spec (Z.of_nat (length args)) 3); [lia|].
  destruct (Z.ltb_spec (Z.of_nat (length args)) (3 + n)); [lia|].
  repeat split.
  - intros w. rewrite drop_drop.
    replace (3 + Z.to_nat n)%nat with (Z.to_nat (3 + n)) by lia. reflexivity.
  - rewrite length_drop. lia.
Qed.

Lemma drop_lower_second args : drop 3 (lower_second args) = drop 3 args.
Proof. now destruct args as [|a0 [|a1 rest]]. Qed.

Lemma length_lower_second args : length (lower_second args) = length args.
Proof. now destruct args as [|a0 [|a1 rest]]. Qed.

Lemma ArgS_lower_second_2 args : ArgS (lower_second args) 2 = ArgS args 2.
Proof. now destruct args as [|a0 [|a1 rest]]. Qed.

End EvalMore.

(** X14: for an argv of at least three slots whose argv[2] parses as the
    32-bit integer n, EvalValidator accepts exactly when
    0 <= n <= argc - 3; a negative n is answered with kInvalidIntErr, an n
    beyond argc - 3 with
    Number of keys can't be greater than number of args, and an accepted
    argv with no reply at all. *)
Theorem EvalValidator_bounds `{Ext : Externals} args n :
  SimpleAtoi_int32 (ArgS args 2) = Some n ->
  - 2 ^ 31 <= n < 2 ^ 31 ->
  (3 <= length args)%nat ->
  Z.of_nat (length args) < 2 ^ 64 ->
  (fst (EvalValidator args) = true <-> 0 <= n <= Z.of_nat (length args) - 3)
  /\ (n < 0 -> EvalValidator args = (false, [SendError kInvalidIntErr]))
  /\ (Z.of_nat (length args) - 3 < n ->
      EvalValidator args
      = (false, [SendError "Number of keys can't be greater than number of args"]))
  /\ (0 <= n <= Z.of_nat (length args) - 3 -> EvalValidator args = (true, [])).
Proof.
  intros Hp Hn Hl Hb. rewrite (EvalValidator_spec args n Hp Hn Hl Hb).
  destruct (Z.ltb_spec n 0); destruct (Z.ltb_spec (Z.of_nat (length args) - 3) n);
    cbn [fst]; repeat split; intros; try lia; try reflexivity; try discriminate.
Qed.

Lemma EvalValidator_bounds_witness :
  fst (EvalValidator (Ext := Sample.ext) ["EVAL"; "return 1"; "1"; "k"; "a"]) = true
  <-> 0 <= 1 <= Z.of_nat (length ["EVAL"; "return 1"; "1"; "k"; "a"]) - 3.
Proof.
  apply (EvalValidator_bounds (Ext := Sample.ext)
           ["EVAL"; "return 1"; "1"; "k"; "a"] 1).
  - reflexivity.
  - lia.
  - simpl. lia.
  - simpl. lia.
Defined.

(** X15: on an argv that EvalValidator accepted and whose key count the
    handler reads as the same number n, Eval and EvalSha hand EvalInternal
    the n arguments after the key count as KEYS and the arguments after
    those as ARGV: the two subspans they take -- subspan(3, num_keys) and
    subspan(3 + num_keys) -- are in range, and together they are the
    arguments after the key count split at n, nothing lost, duplicated or
    reordered.  Everything else Eval and EvalSha do (the blank body, the
    compilation, the script cache, the lookup of the digest) is as
    written. *)
Theorem eval_spans_partition `{Ext : Externals} reg inv args n w :
  SimpleAtoi_int32 (ArgS args 2) = Some n ->
  SimpleAtoi_uint32 (ArgS args 2) = Some n ->
  - 2 ^ 31 <= n < 2 ^ 31 ->
  (3 <= length args)%nat ->
  Z.of_nat (length args) < 2 ^ 64 ->
  fst (EvalValidator args) = true ->
  let ks := take (Z.to_nat n) (drop 3 args) in
  let rest := drop (Z.to_nat n) (drop 3 args) in
  ks ++ rest = drop 3 args
  /\ length ks = Z.to_nat n
  /\ Eval reg inv args w
     = (let body := StripAsciiWhitespace (ArgS args 1) in
        if String.eqb body "" then send SendNull
        else
          r <- AddFunction body ;;
          match fst r with
          | COMPILE_ERR => send (SendError (snd r))
          | ADD_OK =>
              modify (fun w1 => set_script_mgr (<[snd r := body]> (script_mgr w1)) w1) ;;
              EvalInternal reg inv
                {| EvalArgs.sha := snd r; EvalArgs.keys := ks; EvalArgs.args := rest |}
          | ALREADY_EXISTS =>
              EvalInternal reg inv
                {| EvalArgs.sha := snd r; EvalArgs.keys := ks; EvalArgs.args := rest |}
          end) w
  /\ EvalSha reg inv args w
     = (let sha := ToLower (ArgS args 1) in
        found <- (if interpreter_Exists sha w then ret true
                  else
                    match (if str_len sha =? 40 then script_mgr w !! sha else None) with
                    | None => ret false
                    | Some body => load_cached body sha ;; ret true
                    end) ;;
        if negb found then send (SendError kScriptNotFound)
        else
          EvalInternal reg inv
            {| EvalArgs.sha := sha; EvalArgs.keys := ks; EvalArgs.args := rest |}) w.
Proof.
  intros Hp Hu Hn Hl Hb Hv ks rest.
  destruct (subspans_in_range args n Hp Hn Hl Hb Hv) as (Hk & Hr & Hlen).
  split; [apply take_drop|]. split; [subst ks; rewrite length_take; lia|].
  split.
  - unfold Eval, checked_num_keys. rewrite Hu, bind_ret. cbv zeta.
    destruct (String.eqb _ ""); [reflexivity|].
    rewrite !(bind_unfold (AddFunction _)).
    destruct (AddFunction _ w) as [[ar res] w1 e1|]; [|reflexivity].
    cbn [fst snd].
    destruct ar; [| |reflexivity].
    + rewrite bind_modify, bind_modify.
      erewrite bind_Done by apply Hk. erewrite bind_Done by apply Hr.
      cbn [app]. now destruct (EvalInternal _ _ _ _).
    + rewrite bind_ret.
      erewrite bind_Done by apply Hk. erewrite bind_Done by apply Hr.
      cbn [app]. now destruct (EvalInternal _ _ _ _).
  - assert (Hp' : SimpleAtoi_int32 (ArgS (lower_second args) 2) = Some n)
      by now rewrite ArgS_lower_second_2.
    assert (Hv' : fst (EvalValidator (lower_second args)) = true).
    { unfold EvalValidator in *. rewrite ArgS_lower_second_2, length_lower_second.
      exact Hv. }
    destruct (subspans_in_range (lower_second args) n Hp' Hn
                ltac:(now rewrite length_lower_second)
                ltac:(now rewrite length_lower_second) Hv') as (Hk' & Hr' & _).
    rewrite drop_lower_second in Hk', Hr'.
    unfold EvalSha, checked_num_keys. rewrite Hu, bind_ret. cbv zeta.
    rewrite ArgS_lower_second, !bind_get.
    match goal with |- bind ?m _ _ = bind ?m _ _ => rewrite !(bind_unfold m) end.
    match goal with |- match ?r with _ => _ end = _ => destruct r as [found w1 e1|] end;
      [|reflexivity].
    destruct found; cbn [negb]; cbv iota; [|reflexivity].
    erewrite bind_Done by apply Hk'. erewrite bind_Done by apply Hr'.
    cbn [app]. now destruct (EvalInternal _ _ _ _).
Qed.

Lemma eval_spans_partition_witness :
  let args := ["EVALSHA"; Sample.digest_a; "1"; "x"; "a"; "b"] in
  EvalSha (Ext := Sample.ext) Sample.registry
    (InvokeN (Ext := Sample.ext) Sample.registry 2) args Sample.w_loaded
  = EvalInternal (Ext := Sample.ext) Sample.registry
      (InvokeN (Ext := Sample.ext) Sample.registry 2)
      {| EvalArgs.sha := Sample.digest_a; EvalArgs.keys := ["x"];
         EvalArgs.args := ["a"; "b"] |} Sample.w_loaded.
Proof.
  intros args.
  destruct (eval_spans_partition (Ext := Sample.ext) Sample.registry
              (InvokeN (Ext := Sample.ext) Sample.registry 2) args 1 Sample.w_loaded)
    as (_ & _ & _ & Hs).
  - reflexivity.
  - reflexivity.
  - lia.
  - simpl. lia.
  - simpl. lia.
  - reflexivity.
  - etransitivity; [exact Hs|]. vm_compute. reflexivity.
Defined.



(** X17: EvalInternal never leaves a script context behind.  Started on a
    connection that is not inside a script, whenever it returns -- the
    digest refused, the function unknown, the script failed with RUN_ERR or
    ran to its end, whatever the commands called by the script did to the
    connection -- script_info is unset again. *)
Theorem EvalInternal_resets_script_info `{Ext : Externals} reg inv ea w w' evs :
  script_info (cstate w) = None ->
  EvalInternal reg inv ea w = Done tt w' evs ->
  script_info (cstate w') = None.
Proof.
  intros Hs H. unfold EvalInternal in H.
  apply bind_inv in H. destruct H as (? & w1 & ? & ? & E & H & _).
  apply DCHECK_inv in E. subst w1.
  destruct (negb _ || negb _); [now inversion H; subst|].
  apply bind_inv in H. destruct H as (found & w1 & ? & ? & E & H & _).
  apply find_function_cntx in E.
  destruct found; cbn [negb] in H; cbv iota in H;
    [|inversion H; subst; unfold cstate; now rewrite E].
  rewrite bind_get in H. bind_inv_in H.
  apply reply_result_calls in H as [-> _].
  apply tx_when_cstate in E10. subst.
  cmd_inj. reflexivity.
Qed.

Lemma EvalInternal_resets_script_info_witness :
  exists w' evs,
    EvalInternal (Ext := Sample.ext) Sample.registry
      (InvokeN (Ext := Sample.ext) Sample.registry 3)
      {| EvalArgs.sha := Sample.digest_b; EvalArgs.keys := ["x"]; EvalArgs.args := [] |}
      Sample.w_loaded
    = Done tt w' evs
    /\ script_info (cstate w') = None.
Proof.
  eexists _, _. split; [vm_compute; reflexivity|].
  eapply (EvalInternal_resets_script_info (Ext := Sample.ext) Sample.registry
            (InvokeN (Ext := Sample.ext) Sample.registry 3)
            {| EvalArgs.sha := Sample.digest_b; EvalArgs.keys := ["x"];
               EvalArgs.args := [] |} Sample.w_loaded).
  - reflexivity.
  - vm_compute. reflexivity.
Defined.

(** ** The result of a script *)

Section SerializerMore.

Context `{Ext : Externals}.

Lemma EvalSerializer_leaf e w :
  is_array_event e = false ->
  exists r, EvalSerializer e w = Done tt w [Reply r].
Proof.
  destruct e as [[]| | | | | | | |]; intros He; try discriminate;
    eexists; reflexivity.
Qed.

Lemma EvalSerializer_array e w :
  is_array_event e = true -> EvalSerializer e w = Fail (CheckFailed "TBD").
Proof. destruct e as [[]| | | | | | | |]; intros He; try discriminate; reflexivity. Qed.

Lemma SerializeResult_to_leaves value w :
  existsb is_array_event value = false ->
  exists calls,
    SerializeResult_to value w = Done tt w (map Reply calls)
    /\ length calls = length value.
Proof.
  induction value as [|e rest IH]; intros Hv.
  - exists []. split; reflexivity.
  - cbn [existsb] in Hv. apply orb_false_iff in Hv as [He Hr].
    destruct (EvalSerializer_leaf e w He) as (r & Er).
    destruct (IH Hr) as (calls & Ec & Hl).
    exists (r :: calls). split; [|cbn; now rewrite Hl].
    cbn [SerializeResult_to]. rewrite (bind_Done _ _ _ _ _ _ Er), Ec. reflexivity.
Qed.

Lemma SerializeResult_to_array value w :
  existsb is_array_event value = true ->
  SerializeResult_to value w = Fail (CheckFailed "TBD").
Proof.
  induction value as [|e rest IH]; intros Hv; [discriminate|].
  cbn [existsb] in Hv. cbn [SerializeResult_to].
  destruct (is_array_event e) eqn:He.
  - now rewrite (bind_Fail _ _ _ _ (EvalSerializer_array e w He)).
  - destruct (EvalSerializer_leaf e w He) as (r & Er).
    rewrite (bind_Done _ _ _ _ _ _ Er), (IH Hv). reflexivity.
Qed.

End SerializerMore.

(** X18: EvalSerializer implements the scalar callbacks only.  A script
    result that holds an array anywhere (an OnArrayStart or OnArrayEnd
    callback) stops the process on LOG(FATAL) TBD, also when the result is
    sent as the reply of a successful run; a result without arrays always
    returns, with one reply call per value and the connection unchanged. *)
Theorem script_result_arrays_abort `{Ext : Externals} value w :
  (existsb is_array_event value = true ->
   SerializeResult_to value w = Fail (CheckFailed "TBD")
   /\ forall sha error,
        reply_result sha (RUN_OK, error, true, value) w = Fail (CheckFailed "TBD"))
  /\ (existsb is_array_event value = false ->
      exists calls,
        SerializeResult_to value w = Done tt w (map Reply calls)
        /\ length calls = length value).
Proof.
  split.
  - intros Hv. split; [now apply SerializeResult_to_array|].
    intros sha error. unfold reply_result. cbn [negb]. cbv iota.
    unfold interp_call. rewrite 2!bind_unfold.
    cbn [emit]. unfold emit at 1.
    now rewrite (SerializeResult_to_array value w Hv).
  - apply SerializeResult_to_leaves.
Qed.

Lemma script_result_arrays_abort_witness :
  SerializeResult_to [OnInt 1; OnArrayStart 0; OnArrayEnd] Sample.w0
  = Fail (CheckFailed "TBD").
Proof.
  apply (proj1 (script_result_arrays_abort (Ext := Sample.ext)
                  [OnInt 1; OnArrayStart 0; OnArrayEnd] Sample.w0)).
  reflexivity.
Defined.

(** ** EVALSHA and the case of the digest *)

(** X19: EVALSHA lowercases argv[1] before it looks the function up, so
    two digests that differ in ASCII case only name the same function: the
    two calls behave identically, and lowercasing does not change whether
    a string is a well-formed digest (40 hexadecimal digits). *)
Theorem EVALSHA_digest_case_insensitive `{Ext : Externals} reg inv a0 s s' rest w :
  ToLower s = ToLower s' ->
  EvalSha reg inv (a0 :: s :: rest) w = EvalSha reg inv (a0 :: s' :: rest) w
  /\ EvalSha reg inv (a0 :: ToLower s :: rest) w = EvalSha reg inv (a0 :: s :: rest) w
  /\ is_digest s = is_digest s'.
Proof.
  intros E. repeat split.
  - unfold EvalSha, checked_num_keys. cbn [lower_second]. now rewrite E.
  - unfold EvalSha, checked_num_keys. cbn [lower_second].
    now rewrite ToLower_idempotent.
  - unfold is_digest.
    rewrite <- (str_len_ToLower s), <- (IsSHA_ToLower s), E.
    now rewrite str_len_ToLower, IsSHA_ToLower.
Qed.

Lemma EVALSHA_digest_case_insensitive_witness :
  EvalSha (Ext := Sample.ext) Sample.registry
    (InvokeN (Ext := Sample.ext) Sample.registry 3)
    ["EVALSHA"; "AAAAAAAAAAAAAAAAAAAAAAAAAAAAAAAAAAAAAAAA"; "0"] Sample.w_loaded
  = EvalSha (Ext := Sample.ext) Sample.registry
      (InvokeN (Ext := Sample.ext) Sample.registry 3)
      ["EVALSHA"; Sample.digest_a; "0"] Sample.w_loaded.
Proof.
  apply (EVALSHA_digest_case_insensitive (Ext := Sample.ext) Sample.registry
           (InvokeN (Ext := Sample.ext) Sample.registry 3) "EVALSHA"
           "AAAAAAAAAAAAAAAAAAAAAAAAAAAAAAAAAAAAAAAA" Sample.digest_a ["0"]
           Sample.w_loaded).
  reflexivity.
Defined.

(** ** Memcached commands *)



(** ** A transaction from MULTI to EXEC *)

Section Collect.

Context `{Ext : Externals}.
Variable reg : gmap string CommandId.

Lemma with_queue_same w : with_queue (exec_body (cstate w)) w = w.
Proof. now destruct w as [[[] ? ? ? ?] ? ?]. Qed.


Lemma dispatch_all_collects fuel w cmds scs :
  exec_state (cstate w) <> EXEC_INACTIVE ->
  Forall2 (queueable reg w) cmds scs ->
  forall q,
    dispatch_all reg fuel cmds (with_queue q w)
    = Done tt (with_queue (q ++ scs) w)
        (map (fun _ => Reply (SendSimpleString "QUEUED")) cmds).
Proof.
  intros Hs Hall. induction Hall as [|argv sc cmds scs Hq Hall IH]; intros q.
  - cbn [dispatch_all map]. now rewrite app_nil_r.
  - destruct Hq as (a & rest & -> & Ht & Hcmd & Hchk).
    cbn [dispatch_all map]. unfold Dispatch.
    erewrite bind_Done
      by (apply (DispatchCommand_queues _ _ a rest (with_queue q w) [] (descr sc));
          [apply Hchk|exact Hs|exact Ht]).
    rewrite <- Hcmd.
    replace {| descr := descr sc; cmd := cmd sc |} with sc by now destruct sc.
    change (with_queue (exec_body (cstate (with_queue q w)) ++ [sc]) (with_queue q w))
      with (with_queue (q ++ [sc]) w).
    rewrite IH, <- app_assoc. reflexivity.
Qed.




End Collect.

(** X21: while a transaction is being collected, commands that pass the
    checks are queued in the order in which they were dispatched: after a
    run of such commands the queue is the old queue followed by one entry
    per command, in order, each with the descriptor found for it and its
    argv (name uppercased); every reply is QUEUED, no handler ran, and
    nothing else of the connection changed. *)
Theorem commands_queue_in_order `{Ext : Externals} reg fuel w cmds scs :
  exec_state (cstate w) <> EXEC_INACTIVE ->
  Forall2 (queueable reg w) cmds scs ->
  dispatch_all reg fuel cmds w
  = Done tt (with_queue (exec_body (cstate w) ++ scs) w)
      (map (fun _ => Reply (SendSimpleString "QUEUED")) cmds).
Proof.
  intros Hs Hall.
  pose proof (dispatch_all_collects reg fuel w cmds scs Hs Hall (exec_body (cstate w)))
    as Hc.
  now rewrite with_queue_same in Hc.
Qed.

Lemma commands_queue_in_order_witness :
  let set := CI "SET" 4 (-3) 1 1 1 (HFamily "SET") None in
  let get := CI "GET" (N.lor CO.READONLY CO.FAST) 2 1 1 1 (HFamily "GET") None in
  let scs := [{| descr := set; cmd := ["SET"; "k"; "v"] |};
              {| descr := get; cmd := ["GET"; "k"] |}] in
  dispatch_all (Ext := Sample.ext) Sample.registry 1
    [["set"; "k"; "v"]; ["get"; "k"]] Sample.w_multi
  = Done tt (with_queue (exec_body (cstate Sample.w_multi) ++ scs) Sample.w_multi)
      (map (fun _ => Reply (SendSimpleString "QUEUED"))
           [["set"; "k"; "v"]; ["get"; "k"]]).
Proof.
  intros set get scs.
  apply (commands_queue_in_order (Ext := Sample.ext) Sample.registry 1 Sample.w_multi
           [["set"; "k"; "v"]; ["get"; "k"]] scs).
  - discriminate.
  - repeat constructor.
    + exists "set", ["k"; "v"]. repeat split.
    + exists "get", ["k"]. repeat split.
Defined.



(** ** More refusals of the dispatcher *)

Section Refusals.

Context `{Ext : Externals}.
Variable reg : gmap string CommandId.

Lemma checks_pairs a rest w c :
  reg !! ToUpper a = Some c ->
  key_arg_step c = 2 ->
  Nat.even (length (a :: rest)) = true ->
  exists err,
    checks reg (ToUpper a :: rest) w = ([SendError err], None)
    /\ (reaches_arity_check c w = true -> err = WrongNumArgsError (ToUpper a)).
Proof.
  intros Hreg Hk He. unfold checks, reaches_arity_check.
  change (ArgS (ToUpper a :: rest) 0) with (ToUpper a). rewrite Hreg.
  destruct (gstate (etl w)); [|eexists; split; [reflexivity|discriminate]..].
  destruct ((N.land _ _ =? _)%N && _); [eexists; split; [reflexivity|discriminate]|].
  destruct (under_script w && has_flag _ _);
    [eexists; split; [reflexivity|discriminate]|].
  destruct (negb (is_master (etl w)) && _);
    [eexists; split; [reflexivity|discriminate]|].
  destruct (wrong_arity c _); [eexists; split; reflexivity|].
  rewrite Hk. change (length (ToUpper a :: rest)) with (length (a :: rest)).
  rewrite He. eexists; split; reflexivity.
Qed.

Lemma checks_under_multi a rest w c :
  reg !! ToUpper a = Some c ->
  exec_state (cstate w) <> EXEC_INACTIVE ->
  is_trans_cmd (ToUpper a) = false ->
  has_flag (opt_mask c) CO.ADMIN = true \/ name c = "SELECT" ->
  exists written,
    checks reg (ToUpper a :: rest) w = (written, None)
    /\ (forall wr,
          reaches_arity_check c w = true ->
          wrong_arity c (ToUpper a :: rest) = false ->
          (key_arg_step c =? 2) && Nat.even (length (a :: rest)) = false ->
          Validate c (ToUpper a :: rest) w = (true, wr) ->
          written
          = wr ++ [SendError
                     (if has_flag (opt_mask c) CO.ADMIN
                      then "Can not run admin commands under transactions"
                      else "Can not call SELECT within a transaction")]).
Proof.
  intros Hreg Hs Ht Hc. unfold checks, reaches_arity_check.
  change (ArgS (ToUpper a :: rest) 0) with (ToUpper a). rewrite Hreg.
  destruct (gstate (etl w)); [|eexists; split; [reflexivity|discriminate]..].
  destruct ((N.land _ _ =? _)%N && _); [eexists; split; [reflexivity|discriminate]|].
  destruct (under_script w && has_flag _ _);
    [eexists; split; [reflexivity|discriminate]|].
  destruct (negb (is_master (etl w)) && _);
    [eexists; split; [reflexivity|discriminate]|].
  destruct (wrong_arity c _); [eexists; split; [reflexivity|discriminate]|].
  change (length (ToUpper a :: rest)) with (length (a :: rest)).
  destruct ((key_arg_step c =? 2) && _);
    [eexists; split; [reflexivity|discriminate]|].
  destruct (Validate c (ToUpper a :: rest) w) as [[] wr0];
    [|eexists; split; [reflexivity|discriminate]].
  cbn [negb]. cbv iota. rewrite (not_inactive _ Hs), Ht. cbn [negb andb].
  destruct (has_flag (opt_mask c) CO.ADMIN) eqn:Ea.
  - eexists; split; [reflexivity|]. now intros wr _ _ _ [= <-].
  - destruct Hc as [Hc|Hc]; [discriminate|]. rewrite Hc. cbn [String.eqb].
    change ("SELECT" =? "SELECT")%string with true. cbv iota.
    eexists; split; [reflexivity|]. now intros wr _ _ _ [= <-].
Qed.

End Refusals.

(** X23: a command whose keys come in pairs (key_arg_step 2) is refused
    when its argv, the name included, has an even number of slots, also
    when the arity check is satisfied: one error is written, the handler
    does not run, and the error is the wrong-number-of-arguments error
    whenever the checks made before the arity check pass. *)
Theorem pairs_need_odd_argc `{Ext : Externals} reg inv a rest w c :
  reg !! ToUpper a = Some c ->
  key_arg_step c = 2 ->
  Nat.even (length (a :: rest)) = true ->
  exists err,
    DispatchCommand reg inv (a :: rest) w = Done tt (poison w) [Reply (SendError err)]
    /\ (reaches_arity_check c w = true -> err = WrongNumArgsError (ToUpper a)).
Proof.
  intros Hreg Hk He.
  destruct (checks_pairs reg a rest w c Hreg Hk He) as (err & Hc & Herr).
  exists err. split; [|exact Herr].
  now rewrite (DispatchCommand_rejected _ _ _ _ _ _ Hc).
Qed.

Lemma pairs_need_odd_argc_witness :
  let mset := CI "MSET" CO.WRITE (-3) 1 (-1) 2 (HFamily "MSET") None in
  exists err,
    DispatchCommand (Ext := Sample.ext) (<["MSET" := mset]> Sample.registry)
      (InvokeN (Ext := Sample.ext) Sample.registry 1) ["mset"; "k"; "v"; "j"] Sample.w0
    = Done tt (poison Sample.w0) [Reply (SendError err)]
    /\ err = WrongNumArgsError (Externals := Sample.ext) "MSET".
Proof.
  intros mset.
  destruct (pairs_need_odd_argc (Ext := Sample.ext) (<["MSET" := mset]> Sample.registry)
              (InvokeN (Ext := Sample.ext) Sample.registry 1) "mset" ["k"; "v"; "j"]
              Sample.w0 mset) as (err & Hd & He).
  - vm_compute. reflexivity.
  - reflexivity.
  - reflexivity.
  - exists err. split; [exact Hd|]. apply He. reflexivity.
Defined.

(** X24: while a transaction is being collected, a command with the ADMIN
    option and the command SELECT are never queued nor run, and the
    attempt spoils the transaction: the dispatch is an error return that
    leaves exec_state EXEC_ERROR.  When every earlier check passes, what
    is written is the validator's output followed by
    Can not run admin commands under transactions for an ADMIN command and
    Can not call SELECT within a transaction for SELECT. *)
Theorem no_admin_or_SELECT_in_transaction `{Ext : Externals} reg inv a rest w c :
  reg !! ToUpper a = Some c ->
  exec_state (cstate w) <> EXEC_INACTIVE ->
  is_trans_cmd (ToUpper a) = false ->
  has_flag (opt_mask c) CO.ADMIN = true \/ name c = "SELECT" ->
  exists written,
    DispatchCommand reg inv (a :: rest) w = Done tt (poison w) (map Reply written)
    /\ exec_state (cstate (poison w)) = EXEC_ERROR
    /\ exec_body (cstate (poison w)) = exec_body (cstate w)
    /\ (forall wr,
          reaches_arity_check c w = true ->
          wrong_arity c (ToUpper a :: rest) = false ->
          (key_arg_step c =? 2) && Nat.even (length (a :: rest)) = false ->
          Validate c (ToUpper a :: rest) w = (true, wr) ->
          written
          = wr ++ [SendError
                     (if has_flag (opt_mask c) CO.ADMIN
                      then "Can not run admin commands under transactions"
                      else "Can not call SELECT within a transaction")]).
Proof.
  intros Hreg Hs Ht Hc.
  destruct (checks_under_multi reg a rest w c Hreg Hs Ht Hc) as (written & Hk & Hw).
  exists written. split; [now rewrite (DispatchCommand_rejected _ _ _ _ _ _ Hk)|].
  split; [rewrite poison_exec_state; now rewrite (not_inactive _ Hs)|].
  split; [apply poison_keeps|exact Hw].
Qed.

Lemma no_admin_or_SELECT_in_transaction_witness :
  exists written,
    DispatchCommand (Ext := Sample.ext) Sample.registry
      (InvokeN (Ext := Sample.ext) Sample.registry 1) ["select"; "1"] Sample.w_multi
    = Done tt (poison Sample.w_multi) (map Reply written)
    /\ exec_state (cstate (poison Sample.w_multi)) = EXEC_ERROR
    /\ written = [SendError "Can not call SELECT within a transaction"].
Proof.
  destruct (no_admin_or_SELECT_in_transaction (Ext := Sample.ext) Sample.registry
              (InvokeN (Ext := Sample.ext) Sample.registry 1) "select" ["1"]
              Sample.w_multi (CI "SELECT" CO.FAST 2 0 0 0 (HFamily "SELECT") None))
    as (written & Hd & Hs & _ & Hw).
  - vm_compute. reflexivity.
  - discriminate.
  - reflexivity.
  - right. reflexivity.
  - exists written. split; [exact Hd|]. split; [exact Hs|].
    apply (Hw []); reflexivity.
Defined.
